(** * NetScan: device store, change detection, monitor loop and probe gate

    A shallow embedding of the monitoring core of NetScan
    ([helpers/monitor.py], [helpers/async_scanner.py]) and the properties
    its specification states about it.

    Conventions.
    - Python [str] is [string]; [s.lower()] is [lower], which folds the
      ASCII letters (MAC addresses are hexadecimal digits and colons).
    - [datetime.now().isoformat()] is a clock reading in [Z]; ISO
      timestamps of one width order as the instants they denote.
    - SQLite tables are finite maps and lists: [devices] is keyed by its
      primary key [mac], the two history tables are append-only lists in
      insertion order.
    - A Python [set] is a [gset]; iteration goes through [elements].
    - Exceptions are the [Raise] outcome of a state-and-error monad. *)

From stdpp Require Import gmap strings list fin_maps pretty sorting.
From Stdlib Require Import ZArith Ascii.

Open Scope Z_scope.

(* ===================================================================== *)
(** ** Strings *)
(* ===================================================================== *)

(** [str.lower()], on the ASCII range. *)
Definition lower_ascii (c : ascii) : ascii :=
  let n := nat_of_ascii c in
  if ((65 <=? n)%nat && (n <=? 90)%nat)%bool then ascii_of_nat (n + 32) else c.

Fixpoint lower (s : string) : string :=
  match s with
  | EmptyString => EmptyString
  | String c s' => String (lower_ascii c) (lower s')
  end.

(** Python truthiness of a string: [not s] holds of the empty string only. *)
Definition truthy (s : string) : bool := negb (String.eqb s "").

(** [s or d] on strings. *)
Definition str_or (s d : string) : string := if truthy s then s else d.

(** [s or None], as bound to an SQL parameter. *)
Definition or_None (s : string) : option string :=
  if truthy s then Some s else None.

(** SQL [COALESCE(?, column)]. *)
Definition COALESCE (param : option string) (column : string) : string :=
  match param with Some v => v | None => column end.

(* ===================================================================== *)
(** ** Data model *)
(* ===================================================================== *)

(** [async_scanner.Device], restricted to the fields the monitor reads.
    ([status], [response_time], [discovery_method], [first_seen],
    [last_seen], [ports] and [os_guess] are never consulted by the store
    or by change detection.) *)
Record Device := mkDevice {
  ip : string;
  mac : string;
  hostname : string;
  vendor : string
}.

Global Instance Device_eq_dec : EqDecision Device.
Proof. solve_decision. Defined.

(** A row of the [devices] table, as [dict(row)] returns it. *)
Record DeviceRow := mkRow {
  row_mac : string;
  row_ip : string;
  row_hostname : string;
  row_vendor : string;
  row_first_seen : Z;
  row_last_seen : Z;
  row_is_known : bool;
  row_is_trusted : bool;
  row_notes : option string;
  row_custom_name : option string
}.

(** A row of [device_history]. *)
Record HistoryEvent := mkEvent {
  ev_mac : string;
  ev_ip : string;
  ev_event_type : string;
  ev_timestamp : Z;
  ev_details : string
}.

(** A row of [scan_history]. *)
Record ScanSummary := mkScan {
  sc_timestamp : Z;
  sc_device_count : nat;
  sc_new_devices : nat;
  sc_gone_devices : nat;
  sc_scan_type : string
}.

(** The four values of [DeviceChange.change_type]. *)
Inductive ChangeType := new | returned | gone | changed.

Global Instance ChangeType_eq_dec : EqDecision ChangeType.
Proof. solve_decision. Defined.

Record DeviceChange := mkChange {
  change_type : ChangeType;
  device : Device;
  previous_state : option DeviceRow;
  timestamp : Z
}.

(** The exceptions that occur in the modelled code, and those a
    subscriber or a signal may raise into it. *)
Inductive exn :=
| ValueError          (* ipaddress: malformed address or network *)
| SqliteError         (* sqlite3.Error out of a statement *)
| RuntimeError        (* any other subclass of Exception *)
| CancelledError      (* asyncio task cancellation *)
| SystemExit          (* sys.exit() *)
| KeyboardInterrupt.  (* SIGINT without a handler *)

(** [isinstance(e, Exception)].  [CancelledError] (since Python 3.8),
    [SystemExit] and [KeyboardInterrupt] derive from [BaseException]
    only, so that [except Exception] lets them pass. *)
Definition is_Exception (e : exn) : bool :=
  match e with
  | ValueError | SqliteError | RuntimeError => true
  | CancelledError | SystemExit | KeyboardInterrupt => false
  end.

Inductive outcome (A : Type) :=
| Ok (a : A)
| Raise (e : exn).
Arguments Ok {A} a.
Arguments Raise {A} e.

(* ===================================================================== *)
(** ** DeviceDatabase *)
(* ===================================================================== *)

Record DeviceDatabase := mkDb {
  devices : gmap string DeviceRow;
  device_history : list HistoryEvent;
  scan_history : list ScanSummary
}.

(** [_init_db] on a new file: three empty tables. *)
Definition empty_db : DeviceDatabase :=
  {| devices := ∅; device_history := []; scan_history := [] |}.

Definition with_devices (f : gmap string DeviceRow → gmap string DeviceRow)
    (d : DeviceDatabase) : DeviceDatabase :=
  {| devices := f (devices d);
     device_history := device_history d;
     scan_history := scan_history d |}.

(** [get_device]: [SELECT * FROM devices WHERE mac = ?] with [mac.lower()]. *)
Definition get_device (m : string) (d : DeviceDatabase) : option DeviceRow :=
  devices d !! lower m.

(** [upsert_device]; [now] is the clock reading taken on entry.  The
    result is [True] exactly on the INSERT path. *)
Definition upsert_device (now : Z) (dev : Device) (d : DeviceDatabase)
    : bool * DeviceDatabase :=
  let m := lower (mac dev) in
  match get_device m d with
  | Some existing =>
      (false,
       with_devices (alter (λ r,
         {| row_mac := row_mac r;
            row_ip := ip dev;
            row_hostname := COALESCE (or_None (hostname dev)) (row_hostname r);
            row_vendor := COALESCE (or_None (vendor dev)) (row_vendor r);
            row_first_seen := row_first_seen r;
            row_last_seen := now;
            row_is_known := row_is_known r;
            row_is_trusted := row_is_trusted r;
            row_notes := row_notes r;
            row_custom_name := row_custom_name r |}) m) d)
  | None =>
      (true,
       with_devices (insert m
         {| row_mac := m;
            row_ip := ip dev;
            row_hostname := hostname dev;
            row_vendor := vendor dev;
            row_first_seen := now;
            row_last_seen := now;
            row_is_known := false;
            row_is_trusted := false;
            row_notes := None;
            row_custom_name := None |}) d)
  end.

(** [log_event]: one INSERT into [device_history].  [io_error] tells
    whether the statement raises; nothing is written then. *)
Definition log_event (io_error : bool) (now : Z)
    (m event_type ip_ details : string) (d : DeviceDatabase)
    : outcome unit * DeviceDatabase :=
  if io_error then (Raise SqliteError, d)
  else
    (Ok tt,
     {| devices := devices d;
        device_history := device_history d ++
          [{| ev_mac := lower m; ev_ip := ip_; ev_event_type := event_type;
              ev_timestamp := now; ev_details := details |}];
        scan_history := scan_history d |}).

(** [log_scan], with its default [scan_type]. *)
Definition log_scan (now : Z) (device_count new_devices gone_devices : nat)
    (d : DeviceDatabase) : DeviceDatabase :=
  {| devices := devices d;
     device_history := device_history d;
     scan_history := scan_history d ++
       [{| sc_timestamp := now; sc_device_count := device_count;
           sc_new_devices := new_devices; sc_gone_devices := gone_devices;
           sc_scan_type := "monitor" |}] |}.

Definition set_is_known (b : bool) (r : DeviceRow) : DeviceRow :=
  {| row_mac := row_mac r; row_ip := row_ip r; row_hostname := row_hostname r;
     row_vendor := row_vendor r; row_first_seen := row_first_seen r;
     row_last_seen := row_last_seen r; row_is_known := b;
     row_is_trusted := row_is_trusted r; row_notes := row_notes r;
     row_custom_name := row_custom_name r |}.

Definition set_is_trusted (b : bool) (r : DeviceRow) : DeviceRow :=
  {| row_mac := row_mac r; row_ip := row_ip r; row_hostname := row_hostname r;
     row_vendor := row_vendor r; row_first_seen := row_first_seen r;
     row_last_seen := row_last_seen r; row_is_known := row_is_known r;
     row_is_trusted := b; row_notes := row_notes r;
     row_custom_name := row_custom_name r |}.

Definition set_row_custom_name (n : string) (r : DeviceRow) : DeviceRow :=
  {| row_mac := row_mac r; row_ip := row_ip r; row_hostname := row_hostname r;
     row_vendor := row_vendor r; row_first_seen := row_first_seen r;
     row_last_seen := row_last_seen r; row_is_known := row_is_known r;
     row_is_trusted := row_is_trusted r; row_notes := row_notes r;
     row_custom_name := Some n |}.

(** [UPDATE devices SET is_known = ? WHERE mac = ?]: no row, no change. *)
Definition mark_known (m : string) (is_known : bool) (d : DeviceDatabase)
    : DeviceDatabase :=
  with_devices (alter (set_is_known is_known) (lower m)) d.

Definition mark_trusted (m : string) (is_trusted : bool) (d : DeviceDatabase)
    : DeviceDatabase :=
  with_devices (alter (set_is_trusted is_trusted) (lower m)) d.

Definition set_custom_name (m name : string) (d : DeviceDatabase)
    : DeviceDatabase :=
  with_devices (alter (set_row_custom_name name) (lower m)) d.

(** [ORDER BY timestamp DESC] as an insertion sort; rows of one timestamp
    stay in table order. *)
Fixpoint insert_desc (e : HistoryEvent) (l : list HistoryEvent)
    : list HistoryEvent :=
  match l with
  | [] => [e]
  | x :: l' =>
      if ev_timestamp x <=? ev_timestamp e then e :: l
      else x :: insert_desc e l'
  end.

Definition order_by_timestamp_desc (l : list HistoryEvent) : list HistoryEvent :=
  foldr insert_desc [] l.

(** SQL [LIMIT n]: a negative bound is no bound. *)
Definition LIMIT {A} (n : Z) (l : list A) : list A :=
  if n <? 0 then l else take (Z.to_nat n) l.

(** [get_device_history]. *)
Definition get_device_history (m : string) (limit : Z) (d : DeviceDatabase)
    : list HistoryEvent :=
  LIMIT limit
    (order_by_timestamp_desc
       (filter (λ e, ev_mac e = lower m) (device_history d))).

(* ===================================================================== *)
(** ** NetworkMonitor: state, environment and effects *)
(* ===================================================================== *)

(** A subscriber registered with [add_callback], as far as the monitor
    state holds it: a call that returns ([true]) or raises an [Exception]
    ([false]) and does not itself call into the monitor.  What [_notify]
    does with a subscriber that raises anything else is
    [notify_subscribers] below. *)
Definition Callback := DeviceChange → bool.

(** A subscriber as the loop of [_notify] sees it: called with a change,
    it returns ([None]) or raises. *)
Definition Subscriber := DeviceChange → option exn.

(** A [Callback] as a [Subscriber]. *)
Definition subscriber_of (cb : Callback) : Subscriber :=
  λ c, if cb c then None else Some RuntimeError.

(** The lines [NetworkMonitor.log] prints, on standard output.  (The
    lines of the scanner's own [log] go to standard error; see
    [ScannerLogLine].) *)
Inductive LogLine :=
| LogCallbackError (subscriber : nat)
| LogNew (d : Device)
| LogReturned (d : Device)
| LogChanged (d : Device) (old_ip : string)
| LogGone (ip_ mac_ : string)
| LogStarting (interval : Z)
| LogInitialScan (n : nat)
| LogScanComplete (n : nat)
| LogNoChanges
| LogScanError (e : exn).

(** The instance attributes of [NetworkMonitor], followed by what the
    process has consumed from and sent to its environment: the number of
    clock readings taken, the number of [log_event] calls issued, the
    lines [NetworkMonitor.log] has printed on standard output ([console];
    what the scanner and the subscribers print is not part of it) and
    the changes handed to subscribers. *)
Record NetworkMonitor := mkMonitor {
  db : DeviceDatabase;
  scan_interval : Z;
  verbose : bool;
  running : bool;
  callbacks : list Callback;
  _current_devices : gmap string Device;
  _last_scan_devices : gset string;
  clock_reads : nat;
  log_event_calls : nat;
  console : list LogLine;
  delivered : list (nat * DeviceChange)
}.

(** [NetworkMonitor.__init__] over an opened database. *)
Definition NetworkMonitor_init (d : DeviceDatabase) (interval : Z) (v : bool)
    : NetworkMonitor :=
  {| db := d; scan_interval := interval; verbose := v; running := false;
     callbacks := []; _current_devices := ∅; _last_scan_devices := ∅;
     clock_reads := 0; log_event_calls := 0; console := []; delivered := [] |}.

(** What the environment decides: the value of the n-th clock reading and
    whether the n-th [log_event] INSERT raises. *)
Record Env := mkEnv {
  clock : nat → Z;
  history_fault : nat → bool
}.

Definition M (A : Type) : Type := NetworkMonitor → outcome A * NetworkMonitor.

Global Instance M_ret : MRet M := λ A a st, (Ok a, st).

Global Instance M_bind : MBind M := λ A B f m st,
  match m st with
  | (Ok a, st') => f a st'
  | (Raise e, st') => (Raise e, st')
  end.

(** A [for] loop threading its local variables. *)
Fixpoint foldM {A B} (f : A → B → M A) (a : A) (l : list B) : M A :=
  match l with
  | [] => mret a
  | x :: l' => a' ← f a x; foldM f a' l'
  end.

Definition set_db (d : DeviceDatabase) (st : NetworkMonitor) : NetworkMonitor :=
  {| db := d; scan_interval := scan_interval st; verbose := verbose st;
     running := running st; callbacks := callbacks st;
     _current_devices := _current_devices st;
     _last_scan_devices := _last_scan_devices st;
     clock_reads := clock_reads st; log_event_calls := log_event_calls st;
     console := console st; delivered := delivered st |}.

Definition set_running (b : bool) (st : NetworkMonitor) : NetworkMonitor :=
  {| db := db st; scan_interval := scan_interval st; verbose := verbose st;
     running := b; callbacks := callbacks st;
     _current_devices := _current_devices st;
     _last_scan_devices := _last_scan_devices st;
     clock_reads := clock_reads st; log_event_calls := log_event_calls st;
     console := console st; delivered := delivered st |}.

Definition set_current_devices (c : gmap string Device) (st : NetworkMonitor)
    : NetworkMonitor :=
  {| db := db st; scan_interval := scan_interval st; verbose := verbose st;
     running := running st; callbacks := callbacks st;
     _current_devices := c;
     _last_scan_devices := _last_scan_devices st;
     clock_reads := clock_reads st; log_event_calls := log_event_calls st;
     console := console st; delivered := delivered st |}.

Definition set_last_scan_devices (s : gset string) (st : NetworkMonitor)
    : NetworkMonitor :=
  {| db := db st; scan_interval := scan_interval st; verbose := verbose st;
     running := running st; callbacks := callbacks st;
     _current_devices := _current_devices st;
     _last_scan_devices := s;
     clock_reads := clock_reads st; log_event_calls := log_event_calls st;
     console := console st; delivered := delivered st |}.

Definition set_clock_reads (n : nat) (st : NetworkMonitor) : NetworkMonitor :=
  {| db := db st; scan_interval := scan_interval st; verbose := verbose st;
     running := running st; callbacks := callbacks st;
     _current_devices := _current_devices st;
     _last_scan_devices := _last_scan_devices st;
     clock_reads := n; log_event_calls := log_event_calls st;
     console := console st; delivered := delivered st |}.

Definition set_log_event_calls (n : nat) (st : NetworkMonitor) : NetworkMonitor :=
  {| db := db st; scan_interval := scan_interval st; verbose := verbose st;
     running := running st; callbacks := callbacks st;
     _current_devices := _current_devices st;
     _last_scan_devices := _last_scan_devices st;
     clock_reads := clock_reads st; log_event_calls := n;
     console := console st; delivered := delivered st |}.

Definition set_console (c : list LogLine) (st : NetworkMonitor) : NetworkMonitor :=
  {| db := db st; scan_interval := scan_interval st; verbose := verbose st;
     running := running st; callbacks := callbacks st;
     _current_devices := _current_devices st;
     _last_scan_devices := _last_scan_devices st;
     clock_reads := clock_reads st; log_event_calls := log_event_calls st;
     console := c; delivered := delivered st |}.

Definition set_delivered (c : list (nat * DeviceChange)) (st : NetworkMonitor)
    : NetworkMonitor :=
  {| db := db st; scan_interval := scan_interval st; verbose := verbose st;
     running := running st; callbacks := callbacks st;
     _current_devices := _current_devices st;
     _last_scan_devices := _last_scan_devices st;
     clock_reads := clock_reads st; log_event_calls := log_event_calls st;
     console := console st; delivered := c |}.

Definition gets {A} (f : NetworkMonitor → A) : M A := λ st, (Ok (f st), st).

Definition modify (f : NetworkMonitor → NetworkMonitor) : M unit :=
  λ st, (Ok tt, f st).

Definition raise {A} (e : exn) : M A := λ st, (Raise e, st).

(** [datetime.now()]: the next clock reading. *)
Definition now (env : Env) : M Z :=
  n ← gets clock_reads;
  modify (set_clock_reads (S n));;
  mret (clock env n).

(** [self.log]: prints only when [verbose]. *)
Definition log (line : LogLine) : M unit :=
  v ← gets verbose;
  if v : bool then modify (λ st, set_console (console st ++ [line]) st)
  else mret tt.

(** [add_callback]. *)
Definition add_callback (cb : Callback) (st : NetworkMonitor) : NetworkMonitor :=
  {| db := db st; scan_interval := scan_interval st; verbose := verbose st;
     running := running st; callbacks := callbacks st ++ [cb];
     _current_devices := _current_devices st;
     _last_scan_devices := _last_scan_devices st;
     clock_reads := clock_reads st; log_event_calls := log_event_calls st;
     console := console st; delivered := delivered st |}.

(** [_notify] over the callbacks the monitor state holds: every
    subscriber is called, in registration order; one that raises (an
    [Exception], by the type of [Callback]) is logged and the next one is
    called.  The loop for subscribers that raise anything is
    [notify_subscribers] below, of which this is an instance. *)
Definition _notify (change : DeviceChange) : M unit :=
  cbs ← gets callbacks;
  foldM (λ (_ : unit) '(i, cb),
           modify (λ st, set_delivered (delivered st ++ [(i, change)]) st);;
           if (cb : Callback) change then mret tt
           else log (LogCallbackError i))
        tt (imap (λ i cb, (i, cb)) cbs).

(** One iteration of the loop of [_notify], for any subscriber:
    [try: callback(change) / except Exception as e: self.log(...)].  An
    exception that is not an [Exception] passes the handler and leaves
    [_notify]. *)
Definition call_subscriber (change : DeviceChange) (_ : unit)
    (p : nat * Subscriber) : M unit :=
  modify (λ st, set_delivered (delivered st ++ [(p.1, change)]) st);;
  match p.2 change with
  | None => mret tt
  | Some e => if is_Exception e then log (LogCallbackError p.1) else raise e
  end.

(** The loop of [_notify] over any list of subscribers. *)
Definition notify_subscribers (subs : list Subscriber)
    (change : DeviceChange) : M unit :=
  foldM (call_subscriber change) tt (imap (λ i s, (i, s)) subs).

(** The database calls of the monitor, each with its clock reading. *)
Definition db_get_device (m : string) : M (option DeviceRow) :=
  gets (λ st, get_device m (db st)).

Definition db_upsert_device (env : Env) (dev : Device) : M bool :=
  t ← now env;
  d ← gets db;
  let '(is_new, d') := upsert_device t dev d in
  modify (set_db d');;
  mret is_new.

(** The k-th [log_event] call of the process raises when the environment
    says so. *)
Definition db_log_event (env : Env) (m event_type ip_ details : string)
    : M unit :=
  k ← gets log_event_calls;
  modify (set_log_event_calls (S k));;
  t ← now env;
  d ← gets db;
  let '(r, d') := log_event (history_fault env k) t m event_type ip_ details d in
  modify (set_db d');;
  match r with
  | Ok _ => mret tt
  | Raise e => raise e
  end.

Definition db_log_scan (env : Env) (device_count new_devices gone_devices : nat)
    : M unit :=
  t ← now env;
  modify (λ st, set_db (log_scan t device_count new_devices gone_devices (db st)) st).

(** [DeviceChange(...)]: [__post_init__] stamps the change. *)
Definition new_DeviceChange (env : Env) (ct : ChangeType) (dev : Device)
    (prev : option DeviceRow) : M DeviceChange :=
  t ← now env;
  mret {| change_type := ct; device := dev; previous_state := prev;
          timestamp := t |}.

(* ===================================================================== *)
(** ** NetworkMonitor.scan_network *)
(* ===================================================================== *)

(** What one cycle reads from the network: the parsed ARP table, the
    answer of the ping sweep when a target is given, and the reverse-DNS
    and vendor answers (the empty string on failure). *)
Record Observation := mkObs {
  arp_table : list Device;
  ping_results : option (list Device);
  gethostbyaddr : string → string;
  macvendors : string → string
}.

(** Lines 313-317: ping answers whose IP the ARP table lacks are appended. *)
Definition merge_results (devs ping : list Device) : list Device :=
  let known_ips := ip <$> devs in
  devs ++ filter (λ d, ip d ∉ known_ips) ping.

Definition set_hostname (h : string) (d : Device) : Device :=
  {| ip := ip d; mac := mac d; hostname := h; vendor := vendor d |}.

Definition set_vendor (v : string) (d : Device) : Device :=
  {| ip := ip d; mac := mac d; hostname := hostname d; vendor := v |}.

(** [AsyncScanner.resolve_hostnames]. *)
Definition resolve_hostnames (resolve : string → string) (devs : list Device)
    : list Device :=
  (λ d, let h := resolve (ip d) in
        if truthy h && negb (truthy (hostname d)) then set_hostname h d else d)
    <$> devs.

(** [AsyncScanner.lookup_vendors], with [vendor_lookup] at its default. *)
Definition lookup_vendors (lookup : string → string) (devs : list Device)
    : list Device :=
  (λ d, if truthy (mac d) && negb (truthy (vendor d))
        then let v := lookup (mac d) in
             if truthy v then set_vendor v d else d
        else d)
    <$> devs.

(** Lines 305-321: the device list of the cycle. *)
Definition discover (obs : Observation) : list Device :=
  let devs := arp_table obs in
  let devs := match ping_results obs with
              | Some ping => merge_results devs ping
              | None => devs
              end in
  lookup_vendors (macvendors obs) (resolve_hostnames (gethostbyaddr obs) devs).

(** Body of the loop of lines 327-375, over the locals
    [(changes, current_macs, new_count)]; [notify] is [self._notify]. *)
Definition track_device_of (notify : DeviceChange → M unit) (env : Env)
    (acc : list DeviceChange * gset string * nat) (dev : Device)
    : M (list DeviceChange * gset string * nat) :=
  let '(changes, current_macs, new_count) := acc in
  if negb (truthy (mac dev)) then mret acc
  else
    let m := lower (mac dev) in
    let current_macs := {[m]} ∪ current_macs in
    modify (λ st, set_current_devices (<[m := dev]> (_current_devices st)) st);;
    existing ← db_get_device m;
    is_new ← db_upsert_device env dev;
    last ← gets _last_scan_devices;
    if is_new : bool then
      change ← new_DeviceChange env new dev None;
      notify change;;
      db_log_event env m "new" (ip dev)
        ("New device: " +:+ str_or (hostname dev) "unknown");;
      log (LogNew dev);;
      mret (changes ++ [change], current_macs, S new_count)
    else
      match existing with
      | Some row =>
          if bool_decide (m ∉ last) then
            change ← new_DeviceChange env returned dev (Some row);
            notify change;;
            db_log_event env m "returned" (ip dev) "";;
            log (LogReturned dev);;
            mret (changes ++ [change], current_macs, new_count)
          else if bool_decide (row_ip row ≠ ip dev) then
            change ← new_DeviceChange env changed dev (Some row);
            notify change;;
            db_log_event env m "ip_changed" (ip dev)
              ("IP changed from " +:+ row_ip row);;
            log (LogChanged dev (row_ip row));;
            mret (changes ++ [change], current_macs, new_count)
          else mret (changes, current_macs, new_count)
      | None => mret (changes, current_macs, new_count)
      end.

(** Body of the loop of lines 379-397, over [(changes, gone_count)]. *)
Definition check_gone_of (notify : DeviceChange → M unit) (env : Env)
    (current_macs : gset string)
    (acc : list DeviceChange * nat) (m : string)
    : M (list DeviceChange * nat) :=
  let '(changes, gone_count) := acc in
  if bool_decide (m ∉ current_macs) then
    existing ← db_get_device m;
    match existing with
    | Some row =>
        let dev := {| ip := row_ip row; mac := m;
                      hostname := row_hostname row;
                      vendor := row_vendor row |} in
        change ← new_DeviceChange env gone dev None;
        notify change;;
        db_log_event env m "gone" (row_ip row) "";;
        log (LogGone (row_ip row) m);;
        mret (changes ++ [change], S gone_count)
    | None => mret (changes, S gone_count)
    end
  else mret acc.

(** [scan_network], lines 323-405, after the device list is built. *)
Definition scan_network_of (notify : DeviceChange → M unit) (env : Env)
    (obs : Observation) : M (list DeviceChange) :=
  let devs := discover obs in
  '(changes, current_macs, new_count) ←
    foldM (track_device_of notify env) ([], ∅, 0%nat) devs;
  last ← gets _last_scan_devices;
  '(changes, gone_count) ←
    foldM (check_gone_of notify env current_macs) (changes, 0%nat)
          (elements last);
  modify (set_last_scan_devices current_macs);;
  db_log_scan env (length devs) new_count gone_count;;
  mret changes.

(** The cycle of a monitor: [self._notify] goes over the callbacks its
    state holds. *)
Definition track_device : Env → list DeviceChange * gset string * nat →
    Device → M (list DeviceChange * gset string * nat) :=
  track_device_of _notify.

Definition check_gone : Env → gset string → list DeviceChange * nat →
    string → M (list DeviceChange * nat) :=
  check_gone_of _notify.

Definition scan_network : Env → Observation → M (list DeviceChange) :=
  scan_network_of _notify.

(** The cycle of a monitor whose subscribers may raise anything. *)
Definition scan_network_with (subs : list Subscriber)
    : Env → Observation → M (list DeviceChange) :=
  scan_network_of (notify_subscribers subs).

(** Consecutive cycles of one monitor instance, one observation each. *)
Fixpoint scan_cycles (env : Env) (obss : list Observation)
    : M (list (list DeviceChange)) :=
  match obss with
  | [] => mret []
  | obs :: obss' =>
      cs ← scan_network env obs;
      css ← scan_cycles env obss';
      mret (cs :: css)
  end.

(* ===================================================================== *)
(** ** NetworkMonitor.monitor_loop and stop *)
(* ===================================================================== *)

(** Where the coroutine [monitor_loop] stands. *)
Inductive Phase :=
| InitialScan                   (* awaiting the scan of line 413 *)
| Sleeping (remaining : nat)    (* in [asyncio.sleep], seconds left *)
| Scanning                      (* awaiting the scan of line 419 *)
| Left                          (* the [while] loop was left *)
| Failed (e : exn).             (* an exception left [monitor_loop] *)

(** What can happen to a running loop. *)
Inductive LoopEvent :=
| Second                        (* one second of sleep elapses *)
| ScanCompletes (obs : Observation)  (* the awaited scan gets its answers *)
| StopCalled                    (* [stop()], e.g. from the SIGINT handler *)
| Cancelled.                    (* the task is cancelled at its await *)

(** Entry of [monitor_loop], up to the first await. *)
Definition monitor_loop_enter (st : NetworkMonitor) : Phase * NetworkMonitor :=
  let st := set_running true st in
  (InitialScan, snd (log (LogStarting (scan_interval st)) st)).

(** The [while self.running] test followed by the sleep of line 418. *)
Definition next_iteration (st : NetworkMonitor) : Phase * NetworkMonitor :=
  if running st then
    (if 0 <? scan_interval st then Sleeping (Z.to_nat (scan_interval st))
     else Scanning, st)
  else (Left, st).

(** [stop]. *)
Definition stop (st : NetworkMonitor) : NetworkMonitor := set_running false st.

(** One step of [monitor_loop].  [scan] is what the awaited
    [self.scan_network(target)] does to the monitor once it has its
    answers, whatever its subscribers do; the handlers around the scan of
    line 419 are those of lines 426-429: [CancelledError] breaks, an
    [Exception] is logged, anything else leaves [monitor_loop]. *)
Definition loop_step_of (scan : Observation → M (list DeviceChange))
    (ev : LoopEvent) (s : Phase * NetworkMonitor) : Phase * NetworkMonitor :=
  let '(ph, st) := s in
  match ev, ph with
  | StopCalled, _ => (ph, stop st)
  | Second, Sleeping (S (S r)) => (Sleeping (S r), st)
  | Second, Sleeping _ => (Scanning, st)
  | Cancelled, InitialScan => (Failed CancelledError, st)
  | Cancelled, (Sleeping _ | Scanning) => (Left, st)
  | ScanCompletes obs, InitialScan =>
      match scan obs st with
      | (Ok _, st') =>
          next_iteration
            (snd (log (LogInitialScan (size (_current_devices st'))) st'))
      | (Raise e, st') => (Failed e, st')
      end
  | ScanCompletes obs, Scanning =>
      match scan obs st with
      | (Ok cs, st') =>
          next_iteration
            (snd (log (match cs with
                       | [] => LogNoChanges
                       | _ => LogScanComplete (length cs)
                       end) st'))
      | (Raise CancelledError, st') => (Left, st')
      | (Raise e, st') =>
          if is_Exception e
          then next_iteration (snd (log (LogScanError e) st'))
          else (Failed e, st')
      end
  | _, _ => (ph, st)
  end.

Definition loop_run_of (scan : Observation → M (list DeviceChange))
    (evs : list LoopEvent) (s : Phase * NetworkMonitor)
    : Phase * NetworkMonitor :=
  foldl (λ s ev, loop_step_of scan ev s) s evs.

(** The loop around the cycle of this model, [scan_network]. *)
Definition loop_step (env : Env) (ev : LoopEvent) (s : Phase * NetworkMonitor)
    : Phase * NetworkMonitor :=
  loop_step_of (scan_network env) ev s.

Definition loop_run (env : Env) (evs : list LoopEvent)
    (s : Phase * NetworkMonitor) : Phase * NetworkMonitor :=
  foldl (λ s ev, loop_step env ev s) s evs.

(* ===================================================================== *)
(** ** AsyncScanner: target enumeration *)
(* ===================================================================== *)

Inductive IPVersion := IPv4 | IPv6.

(** An [ipaddress] address object: its family and [int(address)]. *)
Record IPAddress := mkAddr {
  version : IPVersion;
  to_int : Z
}.

(** An [ipaddress] network object. *)
Record IPNetwork := mkNet {
  network_address : IPAddress;
  prefixlen : Z
}.

(** The parsing and printing of Python's [ipaddress] module, which the
    scanner calls: [ip_address(str)], [ip_network(str, strict=False)] and
    [str(address)].  Parsing raises [ValueError] on malformed text. *)
Class ipaddress := {
  ip_address : string → outcome IPAddress;
  ip_network : string → outcome IPNetwork;
  str_of_address : IPAddress → string
}.

Definition max_prefixlen (v : IPVersion) : Z :=
  match v with IPv4 => 32 | IPv6 => 128 end.


(** Python [range(a, b)]. *)
Definition range (a b : Z) : list Z := seqZ a (b - a).

Definition num_addresses (net : IPNetwork) : Z :=
  2 ^ (max_prefixlen (version (network_address net)) - prefixlen net).

Definition broadcast_address (net : IPNetwork) : Z :=
  to_int (network_address net) + num_addresses net - 1.

(** Iterating a network: every address, ascending. *)
Definition network_iter (net : IPNetwork) : list IPAddress :=
  let v := version (network_address net) in
  (λ n, {| version := v; to_int := n |})
    <$> range (to_int (network_address net)) (broadcast_address net + 1).

(** [network.hosts()]: a point-to-point or single-address network yields
    all its addresses; otherwise the network address is left out, and for
    IPv4 the broadcast address as well. *)
Definition hosts (net : IPNetwork) : list IPAddress :=
  let v := version (network_address net) in
  if bool_decide (max_prefixlen v - 1 ≤ prefixlen net) then network_iter net
  else
    (λ n, {| version := v; to_int := n |})
      <$> range (to_int (network_address net) + 1)
                (match v with
                 | IPv4 => broadcast_address net
                 | IPv6 => broadcast_address net + 1
                 end).

(** The lines [AsyncScanner.log] prints on standard error. *)
Inductive ScannerLogLine :=
| LogInvalidCIDR (cidr : string) (e : exn)
| LogInvalidRange (e : exn).

(** [AsyncScanner], restricted to what target enumeration reads and
    writes: the [verbose] attribute, and the lines the scanner has
    printed on standard error. *)
Record AsyncScanner := mkScanner {
  scanner_verbose : bool;
  stderr : list ScannerLogLine
}.

(** [AsyncScanner.__init__]. *)
Definition AsyncScanner_init (verbose : bool) : AsyncScanner :=
  {| scanner_verbose := verbose; stderr := [] |}.

(** [AsyncScanner.log]: prints only when [verbose]. *)
Definition scanner_log (line : ScannerLogLine) (sc : AsyncScanner)
    : AsyncScanner :=
  if scanner_verbose sc
  then {| scanner_verbose := scanner_verbose sc; stderr := stderr sc ++ [line] |}
  else sc.

(** [try: body / except ValueError as e: handler], for a body without
    effects on the scanner; any other exception passes. *)
Definition except_ValueError {A} (body : outcome A)
    (handler : exn → AsyncScanner → A * AsyncScanner) (sc : AsyncScanner)
    : outcome A * AsyncScanner :=
  match body with
  | Raise ValueError => let '(a, sc') := handler ValueError sc in (Ok a, sc')
  | r => (r, sc)
  end.

Definition outcome_bind {A B} (r : outcome A) (f : A → outcome B) : outcome B :=
  match r with Ok a => f a | Raise e => Raise e end.


Section TargetEnumeration.
Context `{lib : ipaddress}.

(** [AsyncScanner.expand_cidr]. *)
Definition expand_cidr (cidr : string) (hosts_only : bool)
    (sc : AsyncScanner) : outcome (list string) * AsyncScanner :=
  except_ValueError
    (outcome_bind (ip_network cidr) (λ network,
       if hosts_only then Ok (str_of_address <$> hosts network)
       else Ok (str_of_address <$> network_iter network)))
    (λ e sc, ([], scanner_log (LogInvalidCIDR cidr e) sc))
    sc.

End TargetEnumeration.

(** *** The dotted-quad instance

    The IPv4 text syntax [a.b.c.d] and [a.b.c.d/len] as the [ipaddress]
    module reads it: four decimal octets without leading zeros, an
    optional prefix length of ASCII digits up to 32, host bits masked off.
    (IPv6 text and the netmask spelling of a prefix are left out of this
    instance; the properties below that range over every instance of
    [ipaddress] do not depend on it.) *)

Definition is_digit (c : ascii) : bool :=
  let n := nat_of_ascii c in ((48 <=? n)%nat && (n <=? 57)%nat)%bool.

Fixpoint all_digits (s : string) : bool :=
  match s with
  | EmptyString => true
  | String c s' => is_digit c && all_digits s'
  end.

Fixpoint decimal_value (acc : Z) (s : string) : Z :=
  match s with
  | EmptyString => acc
  | String c s' => decimal_value (10 * acc + Z.of_nat (nat_of_ascii c - 48)) s'
  end.

(** [str.split(sep)] for a one-character separator. *)
Fixpoint split_on (sep : ascii) (s : string) : list string :=
  match s with
  | EmptyString => [EmptyString]
  | String c s' =>
      if Ascii.eqb c sep then EmptyString :: split_on sep s'
      else match split_on sep s' with
           | [] => [String c EmptyString]
           | w :: ws => String c w :: ws
           end
  end.

Definition parse_octet (s : string) : option Z :=
  let len := String.length s in
  if negb (all_digits s) || (len =? 0)%nat || (3 <? len)%nat then None
  else if (1 <? len)%nat && String.prefix "0" s then None
  else let v := decimal_value 0 s in
       if v <=? 255 then Some v else None.

Definition parse_ipv4 (s : string) : option Z :=
  match split_on "." s with
  | [a; b; c; d] =>
      a ← parse_octet a; b ← parse_octet b;
      c ← parse_octet c; d ← parse_octet d;
      Some (((a * 256 + b) * 256 + c) * 256 + d)
  | _ => None
  end.

Definition parse_prefixlen (s : string) : option Z :=
  if negb (all_digits s) || (String.length s =? 0)%nat then None
  else let v := decimal_value 0 s in
       if v <=? 32 then Some v else None.

Definition ipv4_address (s : string) : outcome IPAddress :=
  match parse_ipv4 s with
  | Some n => Ok {| version := IPv4; to_int := n |}
  | None => Raise ValueError
  end.

Definition ipv4_network (s : string) : outcome IPNetwork :=
  let parsed :=
    match split_on "/" s with
    | [a] => n ← parse_ipv4 a; Some (n, 32)
    | [a; p] => n ← parse_ipv4 a; len ← parse_prefixlen p; Some (n, len)
    | _ => None
    end in
  match parsed with
  | Some (n, len) =>
      let block := 2 ^ (32 - len) in
      Ok {| network_address := {| version := IPv4; to_int := n / block * block |};
            prefixlen := len |}
  | None => Raise ValueError
  end.

Definition ipv4_str (a : IPAddress) : string :=
  let n := to_int a in
  pretty (n / 16777216) +:+ "." +:+ pretty ((n / 65536) `mod` 256) +:+ "." +:+
  pretty ((n / 256) `mod` 256) +:+ "." +:+ pretty (n `mod` 256).

Definition ipv4_lib : ipaddress :=
  {| ip_address := ipv4_address;
     ip_network := ipv4_network;
     str_of_address := ipv4_str |}.

(* ===================================================================== *)
(** ** AsyncScanner: the ping sweep behind its semaphore *)
(* ===================================================================== *)

(** Where one [ping_host] task stands: before [async with self.semaphore],
    inside it (the probe is running), or past it with its result. *)
Inductive ProbeState :=
| Waiting
| InFlight
| Done (result : option Device).

Global Instance ProbeState_eq_dec : EqDecision ProbeState.
Proof. solve_decision. Defined.

(** A sweep under way: the value of the [asyncio.Semaphore] created by
    [ping_sweep] and the tasks gathered, in target order. *)
Record Sweep := mkSweep {
  semaphore : nat;
  probes : list ProbeState
}.

(** The scheduler's moves: a task acquires the semaphore, or leaves the
    [async with] block (exit code 0 gives a device; a non-zero code, a
    timeout or any exception gives [None]) and releases it. *)
Inductive SweepEvent :=
| Acquire (i : nat)
| Release (i : nat) (result : option Device).

(** [ping_sweep], lines 143-145: the semaphore is created with
    [max_concurrent] permits and one task per target is scheduled. *)
Definition ping_sweep_start (max_concurrent : nat) (targets : list string)
    : Sweep :=
  {| semaphore := max_concurrent; probes := (λ _, Waiting) <$> targets |}.

(** One move; [None] when the scheduler cannot make it (a task acquires
    only when the semaphore's value is positive). *)
Definition sweep_step (ev : SweepEvent) (s : Sweep) : option Sweep :=
  match ev with
  | Acquire i =>
      match probes s !! i, semaphore s with
      | Some Waiting, S v =>
          Some {| semaphore := v; probes := <[i := InFlight]> (probes s) |}
      | _, _ => None
      end
  | Release i r =>
      match probes s !! i with
      | Some InFlight =>
          Some {| semaphore := S (semaphore s);
                  probes := <[i := Done r]> (probes s) |}
      | _ => None
      end
  end.

Fixpoint sweep_run (evs : list SweepEvent) (s : Sweep) : option Sweep :=
  match evs with
  | [] => Some s
  | ev :: evs' => s' ← sweep_step ev s; sweep_run evs' s'
  end.

(** The number of probes inside the [async with] block. *)
Definition in_flight (s : Sweep) : nat :=
  length (filter (λ p, p = InFlight) (probes s)).


(* ===================================================================== *)
(** ** Vocabulary of the properties *)
(* ===================================================================== *)

(** An environment in which no history write fails. *)
Definition no_faults (env : Env) : Prop := ∀ n, history_fault env n = false.

(** The devices change tracking looks at: those with a MAC. *)
Definition tracked (devs : list Device) : list Device :=
  filter (λ d, mac d ≠ "") devs.

(** The sightings of MAC [m] in a device list. *)
Definition seen (m : string) (devs : list Device) : list Device :=
  filter (λ d, mac d ≠ "" ∧ lower (mac d) = m) devs.

(** The live set of a device list, as the monitor keys it. *)
Definition live_macs (devs : list Device) : list string :=
  (λ d, lower (mac d)) <$> tracked devs.

(** The live set with the IP of every sighting. *)
Definition live_pairs (devs : list Device) : list (string * string) :=
  (λ d, (lower (mac d), ip d)) <$> tracked devs.

(** The MAC a change is about. *)
Definition change_mac (c : DeviceChange) : string := lower (mac (device c)).

(** The changes of type [ct] about MAC [m] in a change list. *)
Definition changes_of (ct : ChangeType) (m : string) (cs : list DeviceChange)
    : list DeviceChange :=
  filter (λ c, change_type c = ct ∧ change_mac c = m) cs.

(** The live set a monitor keeps holds MACs as [lower] leaves them. *)
Definition live_set_normalized (st : NetworkMonitor) : Prop :=
  ∀ m, m ∈ _last_scan_devices st → lower m = m.

(** The last non-empty value of a sequence of supplied values. *)
Definition last_non_empty (l : list string) : option string :=
  last (filter (λ s, s ≠ "") l).

(** A sequence of upserts, each with the clock reading it takes. *)
Definition upsert_all (us : list (Z * Device)) (d : DeviceDatabase)
    : DeviceDatabase :=
  foldl (λ d '(t, dev), snd (upsert_device t dev d)) d us.

(** The upserts of a sequence that are for MAC [m]. *)
Definition upserts_for (m : string) (us : list (Z * Device))
    : list (Z * Device) :=
  filter (λ u, lower (mac (snd u)) = m) us.

(** The type and MAC of a change. *)
Definition kind (c : DeviceChange) : ChangeType * string :=
  (change_type c, change_mac c).

(** What change detection reads of the store: the IP stored per MAC. *)
Definition ips_of (d : DeviceDatabase) : gmap string string :=
  row_ip <$> devices d.

(** The branch of lines 339-375 taken for a sighting of MAC [m] at
    [ip_], given the IP stored for [m] and the previous live set. *)
Definition classify (last : gset string) (stored : option string)
    (m ip_ : string) : list (ChangeType * string) :=
  match stored with
  | None => [(new, m)]
  | Some old =>
      if bool_decide (m ∉ last) then [(returned, m)]
      else if bool_decide (old ≠ ip_) then [(changed, m)]
      else []
  end.

(** The stored IPs after the first loop of a cycle. *)
Fixpoint track_ips (ips : gmap string string) (devs : list Device)
    : gmap string string :=
  match devs with
  | [] => ips
  | dev :: devs' =>
      if truthy (mac dev)
      then track_ips (<[lower (mac dev) := ip dev]> ips) devs'
      else track_ips ips devs'
  end.

(** The kinds of the changes the first loop of a cycle emits. *)
Fixpoint track_kinds (last : gset string) (ips : gmap string string)
    (devs : list Device) : list (ChangeType * string) :=
  match devs with
  | [] => []
  | dev :: devs' =>
      if truthy (mac dev)
      then classify last (ips !! lower (mac dev)) (lower (mac dev)) (ip dev)
             ++ track_kinds last (<[lower (mac dev) := ip dev]> ips) devs'
      else track_kinds last ips devs'
  end.

(** The MACs the second loop of a cycle reports gone. *)
Definition gone_macs (last current : gset string) (ips : gmap string string)
    : list string :=
  filter (λ m, (m ∉ current) ∧ is_Some (ips !! lower m)) (elements last).

(** The calls of the store that take a MAC, as data, so that a property
    can range over all of them. *)
Inductive StoreCall :=
| Call_get_device (m : string)
| Call_upsert_device (now : Z) (dev : Device)
| Call_log_event (io_error : bool) (now : Z) (m event_type ip_ details : string)
| Call_mark_known (m : string) (is_known : bool)
| Call_mark_trusted (m : string) (is_trusted : bool)
| Call_set_custom_name (m name : string)
| Call_get_device_history (m : string) (limit : Z).

Inductive StoreAnswer :=
| Answer_row (r : option DeviceRow)
| Answer_bool (b : bool)
| Answer_unit (r : outcome unit)
| Answer_events (l : list HistoryEvent).

Definition store_call (c : StoreCall) (d : DeviceDatabase)
    : StoreAnswer * DeviceDatabase :=
  match c with
  | Call_get_device m => (Answer_row (get_device m d), d)
  | Call_upsert_device t dev =>
      let '(b, d') := upsert_device t dev d in (Answer_bool b, d')
  | Call_log_event io_error t m event_type ip_ details =>
      let '(r, d') := log_event io_error t m event_type ip_ details d in
      (Answer_unit r, d')
  | Call_mark_known m b => (Answer_unit (Ok tt), mark_known m b d)
  | Call_mark_trusted m b => (Answer_unit (Ok tt), mark_trusted m b d)
  | Call_set_custom_name m n => (Answer_unit (Ok tt), set_custom_name m n d)
  | Call_get_device_history m limit =>
      (Answer_events (get_device_history m limit d), d)
  end.

(** The same call with its MAC argument rewritten by [f]. *)
Definition with_mac (f : string → string) (c : StoreCall) : StoreCall :=
  match c with
  | Call_get_device m => Call_get_device (f m)
  | Call_upsert_device t dev =>
      Call_upsert_device t
        {| ip := ip dev; mac := f (mac dev); hostname := hostname dev;
           vendor := vendor dev |}
  | Call_log_event io_error t m event_type ip_ details =>
      Call_log_event io_error t (f m) event_type ip_ details
  | Call_mark_known m b => Call_mark_known (f m) b
  | Call_mark_trusted m b => Call_mark_trusted (f m) b
  | Call_set_custom_name m n => Call_set_custom_name (f m) n
  | Call_get_device_history m limit => Call_get_device_history (f m) limit
  end.

Definition store_calls (cs : list StoreCall) (d : DeviceDatabase)
    : DeviceDatabase :=
  foldl (λ d c, snd (store_call c d)) d cs.

(** One upsert, seen from the row of one MAC. *)
Definition upsert_row (r : option DeviceRow) (u : Z * Device)
    : option DeviceRow :=
  let '(t, dev) := u in
  match r with
  | Some r =>
      Some {| row_mac := row_mac r;
              row_ip := ip dev;
              row_hostname := COALESCE (or_None (hostname dev)) (row_hostname r);
              row_vendor := COALESCE (or_None (vendor dev)) (row_vendor r);
              row_first_seen := row_first_seen r;
              row_last_seen := t;
              row_is_known := row_is_known r;
              row_is_trusted := row_is_trusted r;
              row_notes := row_notes r;
              row_custom_name := row_custom_name r |}
  | None =>
      Some {| row_mac := lower (mac dev);
              row_ip := ip dev;
              row_hostname := hostname dev;
              row_vendor := vendor dev;
              row_first_seen := t;
              row_last_seen := t;
              row_is_known := false;
              row_is_trusted := false;
              row_notes := None;
              row_custom_name := None |}
  end.

(** ** Vocabulary of the proofs and examples *)

(** Every key of the [devices] table is as [lower] leaves it. *)
Definition keys_lowercase (d : DeviceDatabase) : Prop :=
  ∀ k, is_Some (devices d !! k) → lower k = k.

(** [wp m Q st]: from [st], [m] returns normally, with a result and a
    state that satisfy [Q]. *)
Definition wp {A} (m : M A) (Q : A → NetworkMonitor → Prop)
    (st : NetworkMonitor) : Prop :=
  ∃ a st', m st = (Ok a, st') ∧ Q a st'.

(** What the bookkeeping effects (clock, console, subscribers, the map of
    current devices) leave untouched. *)
Definition same_core (st st' : NetworkMonitor) : Prop :=
  db st' = db st ∧
  _last_scan_devices st' = _last_scan_devices st ∧
  log_event_calls st' = log_event_calls st ∧
  running st' = running st ∧
  scan_interval st' = scan_interval st ∧
  verbose st' = verbose st ∧
  callbacks st' = callbacks st.

(** The monitor attributes a cycle reads, apart from the database. *)
Definition same_frame (st st' : NetworkMonitor) : Prop :=
  _last_scan_devices st' = _last_scan_devices st ∧
  running st' = running st ∧
  scan_interval st' = scan_interval st ∧
  verbose st' = verbose st ∧
  callbacks st' = callbacks st.

(** The same, with the [devices] table. *)
Definition same_tables (st st' : NetworkMonitor) : Prop :=
  devices (db st') = devices (db st) ∧ same_frame st st'.

(** The number of occurrences of one kind in a list of kinds. *)
Definition count_kind (k : ChangeType * string)
    (ks : list (ChangeType * string)) : nat :=
  length (filter (λ x, x = k) ks).

(** An environment for examples: the clock ticks once per reading and no
    history write fails. *)
Definition steady_env : Env :=
  {| clock := λ n, Z.of_nat n; history_fault := λ _, false |}.

(** An observation that is just an ARP table. *)
Definition arp_only (devs : list Device) : Observation :=
  {| arp_table := devs; ping_results := None;
     gethostbyaddr := λ _, ""; macvendors := λ _, "" |}.

(** What every step of a cycle before its last two statements keeps: the
    live set, the scan log, and the count of history writes only grows. *)
Definition cycle_frame (st st' : NetworkMonitor) : Prop :=
  _last_scan_devices st' = _last_scan_devices st ∧
  scan_history (db st') = scan_history (db st) ∧
  (log_event_calls st ≤ log_event_calls st')%nat.

(** [fault_spec env m st]: running [m] from [st] returns normally exactly
    when none of the history writes it issued failed, and raises
    [SqliteError] otherwise. *)
Definition fault_spec (env : Env) {A} (m : M A) (st : NetworkMonitor) : Prop :=
  cycle_frame st (m st).2 ∧
  match (m st).1 with
  | Ok _ =>
      ∀ k, (log_event_calls st ≤ k < log_event_calls (m st).2)%nat →
           history_fault env k = false
  | Raise e =>
      e = SqliteError ∧
      ∃ k, (log_event_calls st ≤ k < log_event_calls (m st).2)%nat ∧
           history_fault env k = true
  end.

(** The two loops of a cycle, up to line 397. *)
Definition scan_loops (env : Env) (devs : list Device)
    : M (list DeviceChange * gset string * nat * nat) :=
  '(changes, current_macs, new_count) ←
    foldM (track_device env) ([], ∅, 0%nat) devs;
  last ← gets _last_scan_devices;
  '(changes, gone_count) ←
    foldM (check_gone env current_macs) (changes, 0%nat) (elements last);
  mret (changes, current_macs, new_count, gone_count).

(** A computation that neither reads nor writes [running]. *)
Definition ignores_running {A} (m : M A) : Prop :=
  ∀ b st, m (set_running b st) = ((m st).1, set_running b (m st).2).

(** [AsyncScanner.__init__]: the default of [max_concurrent]. *)
Definition default_max_concurrent : nat := 100.

(** [in_flight], on the list of tasks. *)
Definition count_in_flight (l : list ProbeState) : nat :=
  length (filter (λ p, p = InFlight) l).



(* ===================================================================== *)
(** ** DeviceDatabase: the listing queries *)
(* ===================================================================== *)

(** SQL [ORDER BY key DESC] over any table, as an insertion sort; rows of
    one key stay in the order they are handed in (SQL leaves the order of
    ties open). *)
Fixpoint insert_by_desc {A} (key : A → Z) (x : A) (l : list A) : list A :=
  match l with
  | [] => [x]
  | y :: l' =>
      if key y <=? key x then x :: l else y :: insert_by_desc key x l'
  end.

Definition ORDER_BY_DESC {A} (key : A → Z) (l : list A) : list A :=
  foldr (insert_by_desc key) [] l.

(** [SELECT * FROM devices]: the rows of the table. *)
Definition rows (d : DeviceDatabase) : list DeviceRow :=
  (map_to_list (devices d)).*2.

(** [get_all_devices]. *)
Definition get_all_devices (d : DeviceDatabase) : list DeviceRow :=
  ORDER_BY_DESC row_last_seen (rows d).

(** [timedelta(hours=h)] on clock readings, which count seconds where
    the code does arithmetic on them. *)
Definition hours (h : Z) : Z := 3600 * h.

(** [get_active_devices]; [now] is the clock reading it takes. *)
Definition get_active_devices (now since_hours : Z) (d : DeviceDatabase)
    : list DeviceRow :=
  let cutoff := now - hours since_hours in
  ORDER_BY_DESC row_last_seen (filter (λ r, cutoff < row_last_seen r) (rows d)).

(** [DeviceDatabase.get_unknown_devices]. *)
Definition get_unknown_devices (d : DeviceDatabase) : list DeviceRow :=
  ORDER_BY_DESC row_first_seen (filter (λ r, row_is_known r = false) (rows d)).

(** The dictionary [get_stats] returns. *)
Record Stats := mkStats {
  total_devices : nat;
  known_devices : nat;
  unknown_devices : nat;
  trusted_devices : nat;
  active_24h : nat;
  events_24h : nat
}.

(** [get_stats]; [now] is the clock reading it takes. *)
Definition get_stats (now : Z) (d : DeviceDatabase) : Stats :=
  let total := length (rows d) in
  let known := length (filter (λ r, row_is_known r = true) (rows d)) in
  let trusted := length (filter (λ r, row_is_trusted r = true) (rows d)) in
  let cutoff := now - hours 24 in
  let active := length (filter (λ r, cutoff < row_last_seen r) (rows d)) in
  let events :=
    length (filter (λ e, cutoff < ev_timestamp e) (device_history d)) in
  {| total_devices := total;
     known_devices := known;
     unknown_devices := total - known;
     trusted_devices := trusted;
     active_24h := active;
     events_24h := events |}.

(** A list in descending order of [key]. *)
Definition descending {A} (key : A → Z) (l : list A) : Prop :=
  ∀ i j x y, (i < j)%nat → l !! i = Some x → l !! j = Some y → key y ≤ key x.

(** What upserts never touch in a row. *)
Definition marks (r : DeviceRow) : bool * bool * option string * option string :=
  (row_is_known r, row_is_trusted r, row_notes r, row_custom_name r).

(* ===================================================================== *)
(** ** NetworkMonitor: the listing methods *)
(* ===================================================================== *)

(** [get_current_devices]: the values of [_current_devices]. *)
Definition get_current_devices (st : NetworkMonitor) : list Device :=
  (map_to_list (_current_devices st)).*2.

(** [NetworkMonitor.get_unknown_devices]: the current devices whose record
    exists and is not marked known. *)
Definition monitor_get_unknown_devices (st : NetworkMonitor) : list Device :=
  (filter (λ p, row_is_known <$> get_device p.1 (db st) = Some false)
          (map_to_list (_current_devices st))).*2.

(** *** Vocabulary for what a cycle leaves behind *)

(** The [event_type] a change is logged under. *)
Definition event_type_of (ct : ChangeType) : string :=
  match ct with
  | new => "new"
  | returned => "returned"
  | gone => "gone"
  | changed => "ip_changed"
  end.

(** The history row a change is logged as, apart from its timestamp:
    MAC, IP, event type and details. *)
Definition event_of (c : DeviceChange) : string * string * string * string :=
  (change_mac c, ip (device c), event_type_of (change_type c),
   match change_type c with
   | new => "New device: " +:+ str_or (hostname (device c)) "unknown"
   | changed => "IP changed from " +:+ from_option row_ip "" (previous_state c)
   | _ => ""
   end).

Definition ev_summary (e : HistoryEvent) : string * string * string * string :=
  (ev_mac e, ev_ip e, ev_event_type e, ev_details e).

(** One change handed to every subscriber, in registration order. *)
Definition one_delivery (cbs : list Callback) (c : DeviceChange)
    : list (nat * DeviceChange) :=
  (λ i, (i, c)) <$> seq 0 (length cbs).

(** The changes of a list handed out one after the other. *)
Definition deliveries (cbs : list Callback) (cs : list DeviceChange)
    : list (nat * DeviceChange) :=
  cs ≫= one_delivery cbs.

(** [_current_devices] after the first loop of a cycle. *)
Definition track_current (cur : gmap string Device) (devs : list Device)
    : gmap string Device :=
  foldl (λ cur dev, if truthy (mac dev) then <[lower (mac dev) := dev]> cur
                    else cur) cur devs.

(** Effects that touch neither the tables nor the subscribers. *)
Definition quiet (st st' : NetworkMonitor) : Prop :=
  same_core st st' ∧
  _current_devices st' = _current_devices st ∧
  delivered st' = delivered st.

(** What a run of steps added to the history table and to the deliveries,
    and how many history writes it issued; the scan log and the frame are
    kept. *)
Definition effects (st st' : NetworkMonitor) (evs : list HistoryEvent)
    (dl : list (nat * DeviceChange)) (calls : nat) : Prop :=
  device_history (db st') = device_history (db st) ++ evs ∧
  scan_history (db st') = scan_history (db st) ∧
  delivered st' = delivered st ++ dl ∧
  log_event_calls st' = (log_event_calls st + calls)%nat ∧
  same_frame st st'.

(** The number of changes of one type in a change list. *)
Definition count_type (ct : ChangeType) (cs : list DeviceChange) : nat :=
  length (filter (λ c, change_type c = ct) cs).

(** What a run of loop iterations over the sightings [devs] that emitted
    the changes [emitted] leaves behind: one history event per change, one
    delivery of each change to every subscriber, the upserts of the
    sightings that carry a MAC, and their entries in [_current_devices]. *)
Definition cycle_effects (st st' : NetworkMonitor) (devs : list Device)
    (emitted : list DeviceChange) : Prop :=
  ∃ evs us,
    effects st st' evs (deliveries (callbacks st) emitted) (length emitted) ∧
    ev_summary <$> evs = event_of <$> emitted ∧
    us.*2 = tracked devs ∧
    devices (db st') = devices (upsert_all us (db st)) ∧
    _current_devices st' = track_current (_current_devices st) devs.

(** The MACs of the previous live set that the second loop of a cycle
    counts as gone: those not sighted in [devs]. *)
Definition missing_macs (last : gset string) (devs : list Device)
    : list string :=
  filter (λ m, m ∉ (list_to_set (live_macs devs) : gset string))
         (elements last).

(** What a whole cycle over the device list [devs] that returned [cs]
    leaves behind. *)
Definition scan_effects (st st' : NetworkMonitor) (devs : list Device)
    (cs : list DeviceChange) : Prop :=
  ∃ evs us t,
    device_history (db st') = device_history (db st) ++ evs ∧
    ev_summary <$> evs = event_of <$> cs ∧
    scan_history (db st') = scan_history (db st) ++
      [{| sc_timestamp := t; sc_device_count := length devs;
          sc_new_devices := count_type new cs;
          sc_gone_devices := length (missing_macs (_last_scan_devices st) devs);
          sc_scan_type := "monitor" |}] ∧
    delivered st' = delivered st ++ deliveries (callbacks st) cs ∧
    log_event_calls st' = (log_event_calls st + length cs)%nat ∧
    us.*2 = tracked devs ∧
    devices (db st') = devices (upsert_all us (db st)) ∧
    _current_devices st' = track_current (_current_devices st) devs ∧
    callbacks st' = callbacks st ∧
    ∃ cs1 cs2, cs = cs1 ++ cs2 ∧
      Forall (λ c, device c ∈ devs ∧ change_type c ≠ gone) cs1 ∧
      Forall (λ c, change_type c = gone) cs2 ∧
      (λ c, mac (device c)) <$> cs2 =
        filter (λ m, is_Some (get_device m (db st')))
               (missing_macs (_last_scan_devices st) devs).

(** The changes subscriber [i] was handed, in the order it got them. *)
Definition received (i : nat) (dl : list (nat * DeviceChange))
    : list DeviceChange :=
  (filter (λ p, p.1 = i) dl).*2.

(** The subscribers that raise on a change, by registration index. *)
Definition failing (cbs : list Callback) (c : DeviceChange) : list nat :=
  (filter (λ p, p.2 c = false) (imap (λ i cb, (i, cb)) cbs)).*1.

(** The exception with which a call of subscriber [s] passes the handler
    of [_notify], if it does. *)
Definition escapes (s : Subscriber) (c : DeviceChange) : option exn :=
  match s c with
  | Some e => if is_Exception e then None else Some e
  | None => None
  end.

(** The callback a monitor state holds for a subscriber: it tells
    whether the call returns. *)
Definition callback_of (s : Subscriber) : Callback :=
  λ c, match s c with None => true | Some _ => false end.

(** [simulates cbs m m']: on a monitor that holds the callbacks [cbs],
    [m] does what [m'] does, and the callbacks stay. *)
Definition simulates (cbs : list Callback) {A} (m m' : M A) : Prop :=
  ∀ st, callbacks st = cbs → m st = m' st ∧ callbacks (m' st).2 = cbs.

(** The subscribers whose exception on a change the handler of [_notify]
    catches, by registration index. *)
Definition caught (subs : list Subscriber) (c : DeviceChange) : list nat :=
  (filter (λ p, from_option is_Exception false (p.2 c) = true)
          (imap (λ i s, (i, s)) subs)).*1.


(** [wpx m Q st]: from [st], [m] raises, with an exception and a state
    that satisfy [Q]. *)
Definition wpx {A} (m : M A) (Q : exn → NetworkMonitor → Prop)
    (st : NetworkMonitor) : Prop :=
  ∃ e st', m st = (Raise e, st') ∧ Q e st'.

(** [fault_local hf hf0 m m0 st]: the run of [m0] from [st] issues
    history writes numbered upwards from [log_event_calls st], and [m]
    does from [st] what [m0] does whenever the fault oracles [hf] and
    [hf0] decide those writes alike.  It is used with [m] and [m0] the
    same code under two environments that read one clock. *)
Definition fault_local (hf hf0 : nat → bool) {A} (m m0 : M A)
    (st : NetworkMonitor) : Prop :=
  (log_event_calls st ≤ log_event_calls (m0 st).2)%nat ∧
  ((∀ j, (log_event_calls st ≤ j < log_event_calls (m0 st).2)%nat →
         hf j = hf0 j) →
   m st = m0 st).

(** The phases in which [monitor_loop] is inside its [while] loop. *)
Definition in_loop (ph : Phase) : Prop :=
  ph = Scanning ∨ ∃ r, ph = Sleeping r.

(* ===================================================================== *)
(** ** AsyncScanner: vocabulary for the sweep *)
(* ===================================================================== *)





(* ===================================================================== *)
(** ** AsyncScanner: vendor lookup and its cache *)
(* ===================================================================== *)





(* ===================================================================== *)
(** ** AsyncScanner: the scans built on the sweep *)
(* ===================================================================== *)

(** [ping_host] as a function of whether ping exits with 0 for the
    address: a device that has only its IP, or [None]. *)
Definition ping_host (up : string → bool) (ip_ : string) : option Device :=
  if up ip_
  then Some {| ip := ip_; mac := ""; hostname := ""; vendor := "" |}
  else None.

(** [ping_sweep] once it is over: [gather] keeps the order of the
    targets. *)
Definition ping_sweep (up : string → bool) (targets : list string)
    : list Device :=
  omap (ping_host up) targets.

(** What [stealth_scan] awaits, in order. *)
Inductive StealthEvent :=
| Pause                   (* [asyncio.sleep(1)] *)
| Probe (ip_ : string).   (* [ping_host(ip)] *)

Global Instance StealthEvent_eq_dec : EqDecision StealthEvent.
Proof. solve_decision. Defined.

(** The loop of lines 420-427 from index [i] on: before every tenth
    target a pause, then the probe, awaited before the next iteration. *)
Fixpoint stealth_schedule (i : nat) (targets : list string)
    : list StealthEvent :=
  match targets with
  | [] => []
  | ip_ :: rest =>
      (if (0 <? i)%nat && (i mod 10 =? 0)%nat then [Pause] else []) ++
      Probe ip_ :: stealth_schedule (S i) rest
  end.

(** [stealth_scan] over the result of [expand_cidr]: the schedule it
    follows and the devices it returns. *)
Definition stealth_scan (targets : list string) (up : string → bool)
    (resolve lookup : string → string) : list StealthEvent * list Device :=
  (stealth_schedule 0 targets,
   lookup_vendors lookup (resolve_hostnames resolve (omap (ping_host up) targets))).

(** [quick_scan] over the result of [expand_cidr]; [arp] is what
    [get_arp_table] returns. *)
Definition quick_scan (arp : list Device) (targets : list string)
    (up : string → bool) (resolve lookup : string → string) : list Device :=
  let known_ips := ip <$> arp in
  let unknown_targets := filter (λ t, t ∉ known_ips) targets in
  let devices :=
    if bool_decide (unknown_targets ≠ [])
    then arp ++ ping_sweep up unknown_targets
    else arp in
  lookup_vendors lookup (resolve_hostnames resolve devices).

Definition probe_ip (e : StealthEvent) : option string :=
  match e with Probe ip_ => Some ip_ | Pause => None end.

(** The probes and the pauses of a schedule. *)
Definition probes_of (l : list StealthEvent) : list string := omap probe_ip l.

Definition pauses_of (l : list StealthEvent) : nat :=
  length (filter (λ e, e = Pause) l).

(* ===================================================================== *)
(** ** AsyncScanner.get_summary *)
(* ===================================================================== *)

Record Summary := mkSummary {
  summary_total_devices : nat;
  summary_with_mac : nat;
  summary_with_hostname : nat;
  summary_with_vendor : nat;
  summary_vendors : gmap string nat
}.

(** The loop of lines 453-456. *)
Definition count_vendors (devices : list Device) : gmap string nat :=
  foldl (λ vendors d,
           let v := str_or (vendor d) "Unknown" in
           <[v := (default 0%nat (vendors !! v) + 1)%nat]> vendors)
        ∅ devices.

(** [get_summary] over [list(self.devices.values())], without its
    [scan_time]. *)
Definition get_summary (devices : list Device) : Summary :=
  {| summary_total_devices := length devices;
     summary_with_mac := length (filter (λ d, truthy (mac d) = true) devices);
     summary_with_hostname :=
       length (filter (λ d, truthy (hostname d) = true) devices);
     summary_with_vendor :=
       length (filter (λ d, truthy (vendor d) = true) devices);
     summary_vendors := count_vendors devices |}.

(** The sum of the counts of a histogram. *)
Definition histogram_total (h : gmap string nat) : nat :=
  map_fold (λ _ n acc, (n + acc)%nat) 0%nat h.

(* ===================================================================== *)
(** ** Vocabulary: current devices and records *)
(* ===================================================================== *)

(** Every device the monitor lists as current has a record. *)
Definition current_have_records (st : NetworkMonitor) : Prop :=
  ∀ m, is_Some (_current_devices st !! m) → is_Some (get_device m (db st)).

(** Every current device is filed under its MAC in lowercase. *)
Definition current_keyed (st : NetworkMonitor) : Prop :=
  ∀ m dev, _current_devices st !! m = Some dev →
           mac dev ≠ "" ∧ lower (mac dev) = m.

(* ===================================================================== *)
(** * Properties *)
(* ===================================================================== *)

(** ** Strings *)

Lemma lower_ascii_idemp c : lower_ascii (lower_ascii c) = lower_ascii c.
Proof. destruct c as [[] [] [] [] [] [] [] []]; reflexivity. Qed.

Lemma lower_idemp s : lower (lower s) = lower s.
Proof.
  induction s as [|c s IH]; simpl; [done|].
  by rewrite lower_ascii_idemp, IH.
Qed.

Lemma lower_empty s : lower s = "" ↔ s = "".
Proof. destruct s; simpl; split; congruence. Qed.

Lemma truthy_true s : truthy s = true ↔ s ≠ "".
Proof.
  unfold truthy. destruct (String.eqb_spec s ""); simpl; split; congruence.
Qed.

Lemma truthy_false s : truthy s = false ↔ s = "".
Proof.
  unfold truthy. destruct (String.eqb_spec s ""); simpl; split; congruence.
Qed.

Lemma truthy_lower s : truthy (lower s) = truthy s.
Proof. destruct s; reflexivity. Qed.

(** ** The device store *)

Lemma get_device_lower m d : get_device (lower m) d = get_device m d.
Proof. unfold get_device. by rewrite lower_idemp. Qed.

Lemma upsert_device_is_new t dev d :
  fst (upsert_device t dev d) = true ↔ get_device (mac dev) d = None.
Proof.
  unfold upsert_device. rewrite get_device_lower.
  destruct (get_device (mac dev) d); simpl; split; congruence.
Qed.

(** An upsert acts on the row of its own MAC as [upsert_row] says and
    leaves every other row alone. *)
Lemma upsert_device_lookup t dev d m :
  get_device m (snd (upsert_device t dev d)) =
  if decide (lower (mac dev) = lower m)
  then upsert_row (get_device m d) (t, dev)
  else get_device m d.
Proof.
  unfold upsert_device. rewrite get_device_lower.
  unfold get_device.
  destruct (devices d !! lower (mac dev)) as [r0|] eqn:E; simpl.
  - rewrite lookup_alter. case_decide as Hm.
    + rewrite <- Hm, E. reflexivity.
    + reflexivity.
  - rewrite lookup_insert. case_decide as Hm.
    + rewrite <- Hm, E. reflexivity.
    + reflexivity.
Qed.

Lemma upsert_all_snoc us u d :
  upsert_all (us ++ [u]) d =
  snd (upsert_device (fst u) (snd u) (upsert_all us d)).
Proof. unfold upsert_all. rewrite foldl_app. by destruct u. Qed.

(** The row of a MAC after a sequence of upserts is the fold of the
    upserts for that MAC over the row it had before. *)
Lemma upsert_all_lookup us d m :
  get_device m (upsert_all us d) =
  foldl upsert_row (get_device m d) (upserts_for (lower m) us).
Proof.
  induction us as [|u us IH] using rev_ind; [done|].
  rewrite upsert_all_snoc, upsert_device_lookup.
  unfold upserts_for. rewrite filter_app, filter_cons, filter_nil.
  fold (upserts_for (lower m) us).
  case_decide as Hm.
  - rewrite foldl_app. cbn [foldl]. rewrite IH. by destruct u.
  - by rewrite app_nil_r.
Qed.

Lemma last_non_empty_snoc l x :
  last_non_empty (l ++ [x]) = if truthy x then Some x else last_non_empty l.
Proof.
  unfold last_non_empty. rewrite filter_app, filter_cons, filter_nil.
  destruct (truthy x) eqn:E.
  - apply truthy_true in E. rewrite decide_True by done. apply last_snoc.
  - apply truthy_false in E. rewrite decide_False by (intros H; done).
    by rewrite app_nil_r.
Qed.

Lemma COALESCE_or_None x column :
  COALESCE (or_None x) column = if truthy x then x else column.
Proof. unfold or_None. by destruct (truthy x). Qed.

(** The fields of a row after a non-empty run of upserts over it. *)
Lemma upsert_rows_fields (r0 : option DeviceRow) (us : list (Z * Device)) :
  ∀ t dev, last us = Some (t, dev) →
  ∃ r, foldl upsert_row r0 us = Some r ∧
       row_ip r = ip dev ∧
       row_last_seen r = t ∧
       row_hostname r =
         default (from_option row_hostname "" r0)
                 (last_non_empty ((λ u, hostname (snd u)) <$> us)) ∧
       row_vendor r =
         default (from_option row_vendor "" r0)
                 (last_non_empty ((λ u, vendor (snd u)) <$> us)) ∧
       row_first_seen r =
         match r0 with
         | Some r0 => row_first_seen r0
         | None => from_option fst t (head us)
         end.
Proof.
  induction us as [|[t' dev'] us IH] using rev_ind; intros t dev Hlast;
    [done|].
  rewrite last_snoc in Hlast. injection Hlast as -> ->.
  rewrite foldl_app. cbn [foldl].
  rewrite !fmap_app, !fmap_cons, !fmap_nil, !last_non_empty_snoc. cbn [snd].
  destruct (last us) as [[t0 dev0]|] eqn:Hl.
  - destruct (IH _ _ eq_refl) as (r & -> & _ & _ & Hh & Hv & Hf).
    eexists; split; [reflexivity|]. cbn.
    rewrite !COALESCE_or_None, Hh, Hv.
    repeat split; try done.
    + by destruct (truthy (hostname dev)).
    + by destruct (truthy (vendor dev)).
    + rewrite Hf. destruct r0; [done|]. by destruct us.
  - apply last_None in Hl as ->. cbn.
    destruct r0 as [r0|]; cbn; (eexists; split; [reflexivity|]); cbn;
      rewrite ?COALESCE_or_None; repeat split; try done.
    all: match goal with
         | |- context [truthy ?x] => destruct (truthy x) eqn:E
         end; try done; by apply truthy_false in E.
Qed.

(** C6, as the store implements it.  After a sequence of upserts, the
    record of a MAC holds the IP of the last upsert for that MAC, empty or
    not; its hostname and its vendor are the last non-empty values
    supplied, or what the record held before when none was supplied;
    [last_seen] is the clock reading of the last upsert and [first_seen]
    that of the upsert that created the record.  An upsert answers [true]
    exactly when the MAC had no record; it never changes the [first_seen]
    of a record, and leaves [last_seen] no smaller whenever the clock has
    not gone back behind it. *)
Theorem upsert_device_roundtrip (us : list (Z * Device)) (d : DeviceDatabase)
    (m : string) (t : Z) (dev : Device) :
  last (upserts_for (lower m) us) = Some (t, dev) →
  (∃ r, get_device m (upsert_all us d) = Some r ∧
        row_ip r = ip dev ∧
        row_hostname r =
          default (from_option row_hostname "" (get_device m d))
            (last_non_empty
               ((λ u, hostname (snd u)) <$> upserts_for (lower m) us)) ∧
        row_vendor r =
          default (from_option row_vendor "" (get_device m d))
            (last_non_empty
               ((λ u, vendor (snd u)) <$> upserts_for (lower m) us)) ∧
        row_last_seen r = t ∧
        row_first_seen r =
          match get_device m d with
          | Some r0 => row_first_seen r0
          | None => from_option fst t (head (upserts_for (lower m) us))
          end) ∧
  (∀ t' dev' d',
     fst (upsert_device t' dev' d') = true ↔ get_device (mac dev') d' = None) ∧
  (∀ t' dev' d' m' r0,
     get_device m' d' = Some r0 →
     ∃ r1, get_device m' (snd (upsert_device t' dev' d')) = Some r1 ∧
           row_first_seen r1 = row_first_seen r0 ∧
           (row_last_seen r0 ≤ t' → row_last_seen r0 ≤ row_last_seen r1)).
Proof.
  intros Hlast. split; [|split].
  - rewrite upsert_all_lookup.
    destruct (upsert_rows_fields (get_device m d) _ _ _ Hlast)
      as (r & Hr & Hip & Hls & Hh & Hv & Hf).
    exists r. by repeat split.
  - intros. apply upsert_device_is_new.
  - intros t' dev' d' m' r0 Hr0. rewrite upsert_device_lookup, Hr0.
    case_decide; cbn; eexists; (split; [reflexivity|]); cbn; split;
      try done; lia.
Qed.

Lemma upsert_device_roundtrip_witness :
  ∃ r, get_device "AA:BB:CC:00:11:22"
         (upsert_all [(10, mkDevice "10.0.0.5" "aa:bb:cc:00:11:22" "nas" "");
                      (20, mkDevice "10.0.0.9" "AA:BB:CC:00:11:22" "" "Acme")]
            empty_db) = Some r ∧
       row_ip r = "10.0.0.9" ∧ row_hostname r = "nas" ∧
       row_vendor r = "Acme" ∧ row_last_seen r = 20 ∧ row_first_seen r = 10.
Proof.
  destruct (upsert_device_roundtrip
              [(10, mkDevice "10.0.0.5" "aa:bb:cc:00:11:22" "nas" "");
               (20, mkDevice "10.0.0.9" "AA:BB:CC:00:11:22" "" "Acme")]
              empty_db "AA:BB:CC:00:11:22" 20
              (mkDevice "10.0.0.9" "AA:BB:CC:00:11:22" "" "Acme")
              eq_refl) as [(r & Hr & Hip & Hh & Hv & Hl & Hf) _].
  exists r. repeat split; assumption.
Defined.

(** C6 as stated fails for the IP: an upsert that supplies an empty IP
    overwrites the stored one, so the record does not hold the last
    non-empty IP supplied. *)
Lemma upsert_device_empty_ip_overwrites :
  let m := "aa:bb:cc:00:11:22" in
  let us := [(10, mkDevice "10.0.0.5" m "nas" "Acme");
             (20, mkDevice "" m "" "")] in
  last_non_empty ((λ u, ip (snd u)) <$> upserts_for m us) = Some "10.0.0.5" ∧
  row_ip <$> get_device m (upsert_all us empty_db) = Some "" ∧
  row_hostname <$> get_device m (upsert_all us empty_db) = Some "nas".
Proof. vm_compute. repeat split; reflexivity. Qed.

(** *** Case of the MAC argument *)

Lemma is_Some_alter {A} (f : A → A) (m : gmap string A) i j :
  is_Some (alter f i m !! j) ↔ is_Some (m !! j).
Proof.
  rewrite lookup_alter. case_decide; [subst|done].
  by rewrite fmap_is_Some.
Qed.

Lemma store_call_keys_lowercase c d :
  keys_lowercase d → keys_lowercase (snd (store_call c d)).
Proof.
  intros Hd k. destruct c; cbn; try apply Hd.
  - unfold upsert_device.
    destruct (get_device (lower (mac dev)) d); cbn.
    + rewrite is_Some_alter. apply Hd.
    + rewrite lookup_insert. case_decide as Hk; [|apply Hd].
      intros _. subst k. apply lower_idemp.
  - unfold log_event. destruct io_error; cbn; apply Hd.
  - rewrite is_Some_alter. apply Hd.
  - rewrite is_Some_alter. apply Hd.
  - rewrite is_Some_alter. apply Hd.
Qed.

Lemma store_calls_keys_lowercase cs d :
  keys_lowercase d → keys_lowercase (store_calls cs d).
Proof.
  revert d. induction cs as [|c cs IH]; intros d Hd; [done|].
  cbn. apply IH. by apply store_call_keys_lowercase.
Qed.

Lemma upsert_device_lower t dev d :
  upsert_device t
    {| ip := ip dev; mac := lower (mac dev); hostname := hostname dev;
       vendor := vendor dev |} d =
  upsert_device t dev d.
Proof. unfold upsert_device, get_device. cbn. by rewrite !lower_idemp. Qed.

(** C10.  Every call of the store that takes a MAC gives the same answer
    and leaves the same database whether it is handed a MAC or its
    lowercase form, and whatever calls are made from an empty database,
    every key of the [devices] table is lowercase. *)
Theorem store_mac_case_insensitive :
  (∀ c d, store_call (with_mac lower c) d = store_call c d) ∧
  (∀ cs k, is_Some (devices (store_calls cs empty_db) !! k) → lower k = k).
Proof.
  split.
  - intros c d. destruct c; cbn.
    + by rewrite get_device_lower.
    + by rewrite upsert_device_lower.
    + unfold log_event. by rewrite lower_idemp.
    + unfold mark_known. by rewrite lower_idemp.
    + unfold mark_trusted. by rewrite lower_idemp.
    + unfold set_custom_name. by rewrite lower_idemp.
    + unfold get_device_history. by rewrite lower_idemp.
  - intros cs. apply store_calls_keys_lowercase.
    intros k [r Hr]. cbn in Hr. by rewrite lookup_empty in Hr.
Qed.

(* ===================================================================== *)
(** ** Reasoning about monitor computations *)
(* ===================================================================== *)

Lemma wp_ret {A} (a : A) Q st : Q a st → wp (mret a) Q st.
Proof. intros H. by exists a, st. Qed.

Lemma wp_bind {A B} (m : M A) (f : A → M B) Q st :
  wp m (λ a st', wp (f a) Q st') st → wp (m ≫= f) Q st.
Proof.
  intros (a & st' & Hm & b & st'' & Hf & HQ).
  exists b, st''. split; [|done].
  unfold mbind, M_bind. by rewrite Hm.
Qed.

Lemma wp_mono {A} (m : M A) (Q Q' : A → NetworkMonitor → Prop) st :
  wp m Q st → (∀ a st', Q a st' → Q' a st') → wp m Q' st.
Proof. intros (a & st' & Hm & HQ) H. exists a, st'. auto. Qed.

Lemma wp_gets {A} (f : NetworkMonitor → A) Q st : Q (f st) st → wp (gets f) Q st.
Proof. intros H. by exists (f st), st. Qed.

Lemma wp_modify f Q st : Q tt (f st) → wp (modify f) Q st.
Proof. intros H. by exists tt, (f st). Qed.

Lemma same_core_refl st : same_core st st.
Proof. by repeat split. Qed.

Lemma same_core_trans st1 st2 st3 :
  same_core st1 st2 → same_core st2 st3 → same_core st1 st3.
Proof.
  unfold same_core. intros (?&?&?&?&?&?&?) (?&?&?&?&?&?&?).
  repeat split; congruence.
Qed.

Lemma wp_now env st :
  wp (now env) (λ _ st', same_core st st') st.
Proof.
  unfold now. apply wp_bind, wp_gets, wp_bind, wp_modify, wp_ret.
  by repeat split.
Qed.

Lemma wp_log line st : wp (log line) (λ _ st', same_core st st') st.
Proof.
  unfold log. apply wp_bind, wp_gets. destruct (verbose st) eqn:E.
  - apply wp_modify. by repeat split.
  - apply wp_ret, same_core_refl.
Qed.

Lemma wp_notify_loop change (cbs : list (nat * Callback)) u st :
  wp (foldM (λ (_ : unit) '(i, cb),
               modify (λ st, set_delivered (delivered st ++ [(i, change)]) st);;
               if (cb : Callback) change then mret tt
               else log (LogCallbackError i)) u cbs)
     (λ _ st', same_core st st') st.
Proof.
  revert u st. induction cbs as [|[i cb] cbs IH]; intros u st; cbn [foldM].
  - apply wp_ret, same_core_refl.
  - apply wp_bind, wp_bind, wp_modify.
    set (st1 := set_delivered _ st).
    assert (same_core st st1) as H1 by by repeat split.
    destruct (cb change).
    + apply wp_ret. eapply wp_mono; [apply IH|].
      intros ? st' H. cbn beta in H. eauto using same_core_trans.
    + eapply wp_mono; [apply wp_log|]. intros ? st2 H2. cbn beta in H2.
      eapply wp_mono; [apply IH|].
      intros ? st' H. cbn beta in H. eauto using same_core_trans.
Qed.

Lemma wp_notify change st :
  wp (_notify change) (λ _ st', same_core st st') st.
Proof. unfold _notify. apply wp_bind, wp_gets, wp_notify_loop. Qed.

Lemma wp_new_DeviceChange env ct dev prev st :
  wp (new_DeviceChange env ct dev prev)
     (λ c st', change_type c = ct ∧ device c = dev ∧ previous_state c = prev ∧
               same_core st st') st.
Proof.
  unfold new_DeviceChange. apply wp_bind.
  eapply wp_mono; [apply wp_now|]. intros t st' H. by apply wp_ret.
Qed.

Lemma same_frame_refl st : same_frame st st.
Proof. by repeat split. Qed.

Lemma same_frame_trans st1 st2 st3 :
  same_frame st1 st2 → same_frame st2 st3 → same_frame st1 st3.
Proof.
  unfold same_frame. intros (?&?&?&?&?) (?&?&?&?&?). repeat split; congruence.
Qed.

Lemma same_tables_refl st : same_tables st st.
Proof. split; [done|apply same_frame_refl]. Qed.

Lemma same_tables_trans st1 st2 st3 :
  same_tables st1 st2 → same_tables st2 st3 → same_tables st1 st3.
Proof.
  intros [? ?] [? ?]. split; [congruence|by eapply same_frame_trans].
Qed.

Lemma same_core_tables st st' : same_core st st' → same_tables st st'.
Proof.
  unfold same_core, same_tables, same_frame.
  intros (Hdb&?&?&?&?&?&?). rewrite Hdb. by repeat split.
Qed.

Lemma same_tables_frame st st' : same_tables st st' → same_frame st st'.
Proof. by intros [_ ?]. Qed.

Lemma wp_db_get_device m st :
  wp (db_get_device m) (λ r st', r = get_device m (db st) ∧ st' = st) st.
Proof. unfold db_get_device. by apply wp_gets. Qed.

Lemma wp_db_upsert_device env dev st :
  wp (db_upsert_device env dev)
     (λ b st', (∃ t, (b, db st') = upsert_device t dev (db st)) ∧
               same_frame st st') st.
Proof.
  unfold db_upsert_device. apply wp_bind.
  eapply wp_mono; [apply wp_now|]. intros t st1 H1. cbn beta in H1.
  apply wp_bind, wp_gets.
  destruct (upsert_device t dev (db st1)) as [b d'] eqn:E.
  apply wp_bind, wp_modify, wp_ret.
  pose proof (same_tables_frame _ _ (same_core_tables _ _ H1)) as Hf.
  destruct H1 as (Hdb & _). split.
  - exists t. cbn. by rewrite <- Hdb, E.
  - exact Hf.
Qed.

Lemma wp_db_log_event env m ev ip_ det st :
  no_faults env →
  wp (db_log_event env m ev ip_ det) (λ _ st', same_tables st st') st.
Proof.
  intros NF. unfold db_log_event. apply wp_bind, wp_gets, wp_bind, wp_modify.
  set (st1 := set_log_event_calls _ st).
  apply wp_bind. eapply wp_mono; [apply wp_now|].
  intros t st2 H2. cbn beta in H2.
  apply wp_bind, wp_gets. unfold log_event. rewrite NF.
  apply wp_bind, wp_modify, wp_ret.
  apply same_core_tables in H2. destruct H2 as [Hd Hf]. split; [|exact Hf].
  cbn. exact Hd.
Qed.

Lemma wp_db_log_scan env a b c st :
  wp (db_log_scan env a b c) (λ _ st', same_tables st st') st.
Proof.
  unfold db_log_scan. apply wp_bind. eapply wp_mono; [apply wp_now|].
  intros t st1 H1. cbn beta in H1. apply wp_modify.
  apply same_core_tables in H1. destruct H1 as [Hd Hf]. split; [|exact Hf].
  cbn. exact Hd.
Qed.

(** The four steps every branch that reports a change goes through:
    build the change, notify, write the history event, log. *)
Lemma wp_emit {B} env ct dev prev m ev ip_ det line
    (k : DeviceChange → M B) Q st :
  no_faults env →
  (∀ c st', change_type c = ct → device c = dev → same_tables st st' →
            wp (k c) Q st') →
  wp (change ← new_DeviceChange env ct dev prev;
      _notify change;;
      db_log_event env m ev ip_ det;;
      log line;;
      k change) Q st.
Proof.
  intros NF Hk. apply wp_bind.
  eapply wp_mono; [apply wp_new_DeviceChange|].
  intros c st1 (Hct & Hdev & _ & H1). apply wp_bind.
  eapply wp_mono; [apply wp_notify|]. intros ? st2 H2. cbn beta in H2.
  apply wp_bind. eapply wp_mono; [by apply wp_db_log_event|].
  intros ? st3 H3. cbn beta in H3.
  apply wp_bind. eapply wp_mono; [apply wp_log|]. intros ? st4 H4.
  cbn beta in H4. apply Hk; [done..|].
  apply same_core_tables in H1, H2, H4.
  eauto using same_tables_trans.
Qed.

(** ** The first loop of a cycle *)

Lemma ips_of_upsert t dev d :
  ips_of (snd (upsert_device t dev d)) =
  <[lower (mac dev) := ip dev]> (ips_of d).
Proof.
  apply map_eq. intros k. unfold ips_of, upsert_device, get_device.
  rewrite lower_idemp.
  destruct (devices d !! lower (mac dev)) as [r|] eqn:E; cbn;
    rewrite lookup_fmap, lookup_insert.
  - rewrite lookup_alter. case_decide; subst.
    + by rewrite E.
    + by rewrite lookup_fmap.
  - rewrite lookup_insert. case_decide; [done|]. by rewrite lookup_fmap.
Qed.

Lemma ips_of_lookup d m :
  ips_of d !! lower m = row_ip <$> get_device m d.
Proof. unfold ips_of, get_device. by rewrite lookup_fmap. Qed.

Lemma live_macs_cons dev devs :
  live_macs (dev :: devs) =
  if truthy (mac dev) then lower (mac dev) :: live_macs devs
  else live_macs devs.
Proof.
  unfold live_macs, tracked. rewrite filter_cons.
  destruct (truthy (mac dev)) eqn:E.
  - apply truthy_true in E. by rewrite decide_True.
  - apply truthy_false in E. rewrite decide_False by auto. done.
Qed.

Lemma wp_track_device env changes cur n dev st :
  no_faults env →
  wp (track_device env (changes, cur, n) dev)
     (λ acc st',
        same_frame st st' ∧
        ips_of (db st') = track_ips (ips_of (db st)) [dev] ∧
        acc.1.2 = list_to_set (live_macs [dev]) ∪ cur ∧
        ∃ emitted, acc.1.1 = changes ++ emitted ∧
          kind <$> emitted =
          track_kinds (_last_scan_devices st) (ips_of (db st)) [dev]) st.
Proof.
  intros NF. unfold track_device, track_device_of. rewrite live_macs_cons. cbn [track_ips track_kinds].
  destruct (truthy (mac dev)) eqn:Et; cbn [negb].
  2:{ apply wp_ret. cbn. split; [apply same_frame_refl|].
      split; [done|]. split; [by rewrite (left_id_L ∅ (∪))|].
      exists []. by rewrite app_nil_r. }
  set (m := lower (mac dev)).
  apply wp_bind, wp_modify. set (st1 := set_current_devices _ st).
  apply wp_bind. eapply wp_mono; [apply wp_db_get_device|].
  intros existing ? [-> ->].
  apply wp_bind. eapply wp_mono; [apply wp_db_upsert_device|].
  intros is_new st2 [[t Hup] Hf2]. apply wp_bind, wp_gets.
  change (db st1) with (db st) in *.
  assert (Hips : ips_of (db st2) = <[m := ip dev]> (ips_of (db st))).
  { pose proof (ips_of_upsert t dev (db st)) as H. by rewrite <- Hup in H. }
  assert (Hnew : is_new = true ↔ get_device m (db st) = None).
  { pose proof (upsert_device_is_new t dev (db st)) as H.
    rewrite <- Hup in H. unfold m. by rewrite get_device_lower. }
  assert (Hlast : _last_scan_devices st2 = _last_scan_devices st).
  { by destruct Hf2 as (-> & _). }
  assert (Hst : ips_of (db st) !! m = row_ip <$> get_device m (db st)).
  { unfold m. by rewrite ips_of_lookup, get_device_lower. }
  rewrite Hst, Hlast. unfold m in Hst |- *. fold m. rewrite app_nil_r.
  assert (Hfin : ∀ ct c st' (ks : list (ChangeType * string)) n',
            ks = [(ct, m)] →
            change_type c = ct → device c = dev → same_tables st2 st' →
            wp (mret (changes ++ [c], {[m]} ∪ cur, n'))
              (λ (acc : list DeviceChange * gset string * nat) st'0,
                 same_frame st st'0 ∧
                 ips_of (db st'0) = <[m:=ip dev]> (ips_of (db st)) ∧
                 acc.1.2 = list_to_set [m] ∪ cur ∧
                 ∃ emitted, acc.1.1 = changes ++ emitted ∧
                            kind <$> emitted = ks) st').
  { intros ct c st' ks n' -> Hct Hdev [Hd Hf]. apply wp_ret. cbn.
    split; [|split; [|split]].
    - eapply same_frame_trans; [|exact Hf].
      eapply same_frame_trans; [|exact Hf2]. by repeat split.
    - unfold ips_of in *. by rewrite Hd.
    - cbn. by rewrite (right_id_L ∅ (∪)).
    - exists [c]. split; [done|]. cbn. unfold kind, change_mac.
      by rewrite Hct, Hdev. }
  destruct (get_device m (db st)) as [row|] eqn:Hex; cbn [fmap option_fmap option_map classify].
  - destruct is_new; [by destruct Hnew as [Hn _]; specialize (Hn eq_refl)|].
    destruct (bool_decide (m ∉ _last_scan_devices st)) eqn:Hin.
    + apply wp_emit; [done|]. intros c st' Hct Hdev Hst'.
      by eapply Hfin.
    + destruct (bool_decide (row_ip row ≠ ip dev)) eqn:Hip.
      * apply wp_emit; [done|]. intros c st' Hct Hdev Hst'.
        by eapply Hfin.
      * apply wp_ret. cbn. split; [|split; [|split]].
        -- eapply same_frame_trans; [|exact Hf2]. by repeat split.
        -- done.
        -- cbn. by rewrite (right_id_L ∅ (∪)).
        -- exists []. by rewrite app_nil_r.
  - destruct is_new; [|by destruct Hnew as [_ Hn]; specialize (Hn eq_refl)].
    apply wp_emit; [done|]. intros c st' Hct Hdev Hst'.
    by eapply Hfin.
Qed.

Lemma track_ips_cons ips dev devs :
  track_ips ips (dev :: devs) = track_ips (track_ips ips [dev]) devs.
Proof. cbn. by destruct (truthy (mac dev)). Qed.

Lemma track_kinds_cons last ips dev devs :
  track_kinds last ips (dev :: devs) =
  track_kinds last ips [dev] ++ track_kinds last (track_ips ips [dev]) devs.
Proof.
  cbn. destruct (truthy (mac dev)); [|done].
  by rewrite app_nil_r.
Qed.

Lemma live_macs_app l1 l2 : live_macs (l1 ++ l2) = live_macs l1 ++ live_macs l2.
Proof. unfold live_macs, tracked. by rewrite filter_app, fmap_app. Qed.

Lemma wp_track_devices env devs changes cur n st :
  no_faults env →
  wp (foldM (track_device env) (changes, cur, n) devs)
     (λ acc st',
        same_frame st st' ∧
        ips_of (db st') = track_ips (ips_of (db st)) devs ∧
        acc.1.2 = list_to_set (live_macs devs) ∪ cur ∧
        ∃ emitted, acc.1.1 = changes ++ emitted ∧
          kind <$> emitted =
          track_kinds (_last_scan_devices st) (ips_of (db st)) devs) st.
Proof.
  intros NF. revert changes cur n st.
  induction devs as [|dev devs IH]; intros changes cur n st; cbn [foldM].
  - apply wp_ret. cbn. split; [apply same_frame_refl|]. split; [done|].
    split; [by rewrite (left_id_L ∅ (∪))|]. exists []. by rewrite app_nil_r.
  - apply wp_bind. eapply wp_mono; [by apply wp_track_device|].
    intros [[changes1 cur1] n1] st1 (Hf1 & Hips1 & Hcur1 & em1 & Hch1 & Hk1).
    cbn [fst snd] in Hcur1, Hch1. subst changes1 cur1.
    eapply wp_mono; [apply IH|].
    intros [[changes2 cur2] n2] st2 (Hf2 & Hips2 & Hcur2 & em2 & Hch2 & Hk2).
    cbn [fst snd] in Hcur2, Hch2 |- *. subst changes2 cur2.
    split; [by eapply same_frame_trans|]. split; [|split].
    + by rewrite (track_ips_cons _ dev devs), <- Hips1.
    + change (dev :: devs) with ([dev] ++ devs).
      rewrite live_macs_app, list_to_set_app_L, (assoc_L (∪)).
      by rewrite (comm_L (∪) (list_to_set (live_macs devs))).
    + exists (em1 ++ em2). split; [by rewrite <- (assoc_L (++))|].
      rewrite fmap_app, Hk1, Hk2, (track_kinds_cons _ _ dev devs).
      destruct Hf1 as (-> & _). by rewrite Hips1.
Qed.

(** ** The second loop of a cycle *)

Lemma wp_check_gone env cur changes g m st :
  no_faults env →
  wp (check_gone env cur (changes, g) m)
     (λ acc st',
        same_tables st st' ∧
        ∃ emitted, acc.1 = changes ++ emitted ∧
          kind <$> emitted =
          (λ m', (gone, lower m')) <$>
            filter (λ m', (m' ∉ cur) ∧ is_Some (ips_of (db st) !! lower m'))
                   [m]) st.
Proof.
  intros NF. unfold check_gone, check_gone_of. rewrite filter_cons, filter_nil.
  destruct (bool_decide (m ∉ cur)) eqn:Hm.
  - apply bool_decide_eq_true in Hm.
    apply wp_bind. eapply wp_mono; [apply wp_db_get_device|].
    intros existing ? [-> ->].
    rewrite ips_of_lookup.
    destruct (get_device m (db st)) as [row|] eqn:Hex.
    + rewrite decide_True by (split; [done|by eexists]).
      apply wp_emit; [done|]. intros c st' Hct Hdev Hst'. apply wp_ret.
      cbn. split; [done|]. exists [c]. split; [done|].
      cbn. unfold kind, change_mac. by rewrite Hct, Hdev.
    + rewrite decide_False by (intros [_ [? ?]]; done).
      apply wp_ret. cbn. split; [apply same_tables_refl|].
      exists []. by rewrite app_nil_r.
  - apply bool_decide_eq_false in Hm.
    rewrite decide_False by (intros [? _]; done).
    apply wp_ret. cbn. split; [apply same_tables_refl|].
    exists []. by rewrite app_nil_r.
Qed.

Lemma wp_check_gone_loop env cur (l : list string) changes g st :
  no_faults env →
  wp (foldM (check_gone env cur) (changes, g) l)
     (λ acc st',
        same_tables st st' ∧
        ∃ emitted, acc.1 = changes ++ emitted ∧
          kind <$> emitted =
          (λ m', (gone, lower m')) <$>
            filter (λ m', (m' ∉ cur) ∧ is_Some (ips_of (db st) !! lower m'))
                   l) st.
Proof.
  intros NF. revert changes g st.
  induction l as [|m l IH]; intros changes g st; cbn [foldM].
  - apply wp_ret. cbn. split; [apply same_tables_refl|].
    exists []. by rewrite app_nil_r.
  - apply wp_bind. eapply wp_mono; [by apply wp_check_gone|].
    intros [changes1 g1] st1 (Ht1 & em1 & Hch1 & Hk1).
    cbn [fst snd] in Hch1. subst changes1.
    eapply wp_mono; [apply IH|].
    intros [changes2 g2] st2 (Ht2 & em2 & Hch2 & Hk2).
    cbn [fst snd] in Hch2 |- *. subst changes2.
    split; [by eapply same_tables_trans|].
    exists (em1 ++ em2). split; [by rewrite <- (assoc_L (++))|].
    rewrite fmap_app, Hk1, Hk2.
    change (m :: l) with ([m] ++ l). rewrite filter_app, fmap_app.
    destruct Ht1 as [Hd1 _]. unfold ips_of. by rewrite Hd1.
Qed.

(** ** A whole cycle *)

(** Without history faults a cycle returns: its changes are those of the
    first loop followed by one [gone] per MAC of the previous live set
    that is neither in the current one nor without a record; the live set
    kept is the current one. *)
Lemma scan_network_spec env obs st :
  no_faults env →
  ∃ cs st',
    scan_network env obs st = (Ok cs, st') ∧
    same_frame (set_last_scan_devices (list_to_set (live_macs (discover obs))) st)
               st' ∧
    ips_of (db st') = track_ips (ips_of (db st)) (discover obs) ∧
    kind <$> cs =
      track_kinds (_last_scan_devices st) (ips_of (db st)) (discover obs) ++
      ((λ m, (gone, lower m)) <$>
         gone_macs (_last_scan_devices st)
           (list_to_set (live_macs (discover obs)))
           (track_ips (ips_of (db st)) (discover obs))).
Proof.
  intros NF.
  change (wp (scan_network env obs)
            (λ cs st',
               same_frame
                 (set_last_scan_devices
                    (list_to_set (live_macs (discover obs))) st) st' ∧
               ips_of (db st') = track_ips (ips_of (db st)) (discover obs) ∧
               kind <$> cs =
                 track_kinds (_last_scan_devices st) (ips_of (db st))
                   (discover obs) ++
                 ((λ m, (gone, lower m)) <$>
                    gone_macs (_last_scan_devices st)
                      (list_to_set (live_macs (discover obs)))
                      (track_ips (ips_of (db st)) (discover obs)))) st).
  unfold scan_network, scan_network_of.
  fold (track_device env). fold (check_gone env). apply wp_bind.
  eapply wp_mono; [by apply wp_track_devices|].
  intros [[changes cur] n] st1 (Hf1 & Hips1 & Hcur & em1 & Hch1 & Hk1).
  cbn [fst snd] in Hcur, Hch1. rewrite (right_id_L ∅ (∪)) in Hcur.
  subst cur changes. rewrite app_nil_l.
  apply wp_bind, wp_gets, wp_bind.
  eapply wp_mono; [by apply wp_check_gone_loop|].
  intros [changes2 g] st2 (Ht2 & em2 & Hch2 & Hk2).
  cbn [fst snd] in Hch2. subst changes2.
  apply wp_bind, wp_modify, wp_bind.
  eapply wp_mono; [apply wp_db_log_scan|]. intros ? st3 Ht3. cbn beta in Ht3.
  apply wp_ret.
  destruct Hf1 as (Hl1 & Hf1), Ht2 as (Hd2 & Hl2 & Hf2), Ht3 as (Hd3 & Hl3 & Hf3).
  cbn in Hd3, Hl3, Hf3.
  split; [|split].
  - split; [done|]. cbn. destruct Hf1 as (?&?&?&?), Hf2 as (?&?&?&?),
      Hf3 as (?&?&?&?). repeat split; congruence.
  - unfold ips_of in *. by rewrite Hd3, Hd2.
  - rewrite fmap_app, Hk1, Hk2. unfold gone_macs. by rewrite Hl1, Hips1.
Qed.

(** ** Counting changes *)

Lemma count_kind_app k ks1 ks2 :
  count_kind k (ks1 ++ ks2) = (count_kind k ks1 + count_kind k ks2)%nat.
Proof. unfold count_kind. by rewrite filter_app, length_app. Qed.

Lemma count_kind_changes ct m cs :
  length (changes_of ct m cs) = count_kind (ct, m) (kind <$> cs).
Proof.
  unfold changes_of, count_kind.
  induction cs as [|c cs IH]; [done|].
  rewrite fmap_cons, !filter_cons.
  destruct (decide (change_type c = ct ∧ change_mac c = m)) as [[H1 H2]|Hn].
  - rewrite decide_True by (unfold kind; congruence). cbn. by rewrite IH.
  - rewrite decide_False; [done|].
    unfold kind. intros [= H1 H2]. by apply Hn.
Qed.

Lemma count_kind_zero k ks :
  Forall (λ x, x ≠ k) ks → count_kind k ks = 0%nat.
Proof.
  unfold count_kind. induction 1 as [|x ks Hx _ IH]; [done|].
  rewrite filter_cons. by rewrite decide_False.
Qed.

Lemma classify_mac last stored m ip_ :
  Forall (λ x, x.2 = m ∧ x.1 ≠ gone) (classify last stored m ip_).
Proof.
  unfold classify. destruct stored; repeat case_bool_decide;
    repeat constructor; done.
Qed.

Lemma track_kinds_app last ips l1 l2 :
  track_kinds last ips (l1 ++ l2) =
  track_kinds last ips l1 ++ track_kinds last (track_ips ips l1) l2.
Proof.
  revert ips. induction l1 as [|dev l1 IH]; intros ips; [done|].
  cbn. destruct (truthy (mac dev)); [|apply IH].
  by rewrite IH, (assoc_L (++)).
Qed.

Lemma track_ips_app ips l1 l2 :
  track_ips ips (l1 ++ l2) = track_ips (track_ips ips l1) l2.
Proof.
  revert ips. induction l1 as [|dev l1 IH]; intros ips; [done|].
  cbn. destruct (truthy (mac dev)); apply IH.
Qed.

(** The first loop never reports a device gone. *)
Lemma track_kinds_not_gone last ips devs :
  Forall (λ x, x.1 ≠ gone) (track_kinds last ips devs).
Proof.
  revert ips. induction devs as [|dev devs IH]; intros ips; cbn; [done|].
  destruct (truthy (mac dev)); [|apply IH].
  apply Forall_app. split; [|apply IH].
  eapply Forall_impl; [apply classify_mac|]. by intros ? [_ ?].
Qed.

Lemma seen_cons m dev devs :
  seen m (dev :: devs) =
  if decide (mac dev ≠ "" ∧ lower (mac dev) = m) then dev :: seen m devs
  else seen m devs.
Proof. unfold seen. by rewrite filter_cons. Qed.

(** A MAC that is not sighted gets no change from the first loop, and its
    stored IP stays. *)
Lemma track_unseen last ips devs m :
  seen m devs = [] →
  Forall (λ x, x.2 ≠ m) (track_kinds last ips devs) ∧
  track_ips ips devs !! m = ips !! m.
Proof.
  revert ips. induction devs as [|dev devs IH]; intros ips Hs; cbn; [done|].
  rewrite seen_cons in Hs.
  destruct (truthy (mac dev)) eqn:Et.
  - apply truthy_true in Et.
    destruct (decide (mac dev ≠ "" ∧ lower (mac dev) = m)) as [|Hn]; [done|].
    assert (lower (mac dev) ≠ m) as Hm by (intros ?; apply Hn; done).
    destruct (IH (<[lower (mac dev) := ip dev]> ips) Hs) as [IH1 IH2].
    split.
    + apply Forall_app. split; [|done].
      eapply Forall_impl; [apply classify_mac|]. intros ? [-> _]. done.
    + by rewrite IH2, lookup_insert_ne.
  - apply truthy_false in Et.
    destruct (decide (mac dev ≠ "" ∧ lower (mac dev) = m)) as [[? _]|_];
      [done|]. by apply IH.
Qed.

Lemma seen_split m devs dev :
  seen m devs = [dev] →
  ∃ l1 l2, devs = l1 ++ dev :: l2 ∧ seen m l1 = [] ∧ seen m l2 = [] ∧
           mac dev ≠ "" ∧ lower (mac dev) = m.
Proof.
  induction devs as [|d devs IH]; [done|].
  rewrite seen_cons. case_decide as Hd.
  - intros [= -> Hs]. exists [], devs. by destruct Hd.
  - intros Hs. destruct (IH Hs) as (l1 & l2 & -> & H1 & H2 & H3).
    exists (d :: l1), l2. split; [done|]. split; [|done].
    rewrite seen_cons. by rewrite decide_False.
Qed.

(** A MAC sighted once gets from the first loop exactly what [classify]
    says of that sighting against the record the cycle started with. *)
Lemma track_seen_once last ips devs m dev ct :
  seen m devs = [dev] →
  count_kind (ct, m) (track_kinds last ips devs) =
  count_kind (ct, m) (classify last (ips !! m) m (ip dev)).
Proof.
  intros Hs.
  destruct (seen_split _ _ _ Hs) as (l1 & l2 & -> & H1 & H2 & Hmac & Hm).
  change (dev :: l2) with ([dev] ++ l2).
  rewrite !track_kinds_app, !count_kind_app.
  destruct (track_unseen last ips l1 m H1) as [Hk1 Hi1].
  destruct (track_unseen last (track_ips (track_ips ips l1) [dev]) l2 m H2)
    as [Hk2 _].
  rewrite (count_kind_zero _ (track_kinds last ips l1)),
          (count_kind_zero _ (track_kinds _ _ l2)).
  - cbn. apply truthy_true in Hmac. rewrite Hmac, app_nil_r, Hm, Hi1.
    unfold count_kind. lia.
  - eapply Forall_impl; [exact Hk2|]. intros x Hx ->. done.
  - eapply Forall_impl; [exact Hk1|]. intros x Hx ->. done.
Qed.

Lemma seen_elem m devs dev :
  dev ∈ seen m devs ↔ dev ∈ devs ∧ mac dev ≠ "" ∧ lower (mac dev) = m.
Proof. unfold seen. rewrite list_elem_of_filter. tauto. Qed.

Lemma live_macs_elem m devs :
  m ∈ live_macs devs ↔ ∃ dev, dev ∈ devs ∧ mac dev ≠ "" ∧ lower (mac dev) = m.
Proof.
  unfold live_macs, tracked. rewrite list_elem_of_fmap. split.
  - intros (dev & -> & Hd). apply list_elem_of_filter in Hd as [? ?]. eauto.
  - intros (dev & ? & ? & <-). exists dev. split; [done|].
    by apply list_elem_of_filter.
Qed.

(** The first sighting of a MAC that is sighted at all. *)
Lemma seen_first m devs :
  seen m devs ≠ [] →
  ∃ l1 d l2, devs = l1 ++ d :: l2 ∧ seen m l1 = [] ∧
             mac d ≠ "" ∧ lower (mac d) = m.
Proof.
  induction devs as [|d devs IH]; [done|].
  rewrite seen_cons. case_decide as Hd.
  - intros _. exists [], d, devs. by destruct Hd.
  - intros Hs. destruct (IH Hs) as (l1 & d' & l2 & -> & H1 & H2).
    exists (d :: l1), d', l2. split; [done|]. split; [|done].
    rewrite seen_cons. by rewrite decide_False.
Qed.

(** Once the store holds for a live MAC the IP all its sightings show,
    further sightings of it report nothing. *)
Lemma track_settled last ips devs m i :
  m ∈ last → ips !! m = Some i →
  (∀ d, d ∈ seen m devs → ip d = i) →
  Forall (λ x, x.2 ≠ m) (track_kinds last ips devs).
Proof.
  intros Hlast. revert ips.
  induction devs as [|dev devs IH]; intros ips Hi Hone; cbn; [done|].
  assert (∀ d, d ∈ seen m devs → ip d = i) as Hone'.
  { intros d Hd. apply Hone. apply seen_elem in Hd as (? & ? & ?).
    apply seen_elem. split; [by apply list_elem_of_further|done]. }
  destruct (truthy (mac dev)) eqn:Et; [|by apply IH].
  apply truthy_true in Et.
  destruct (decide (lower (mac dev) = m)) as [Hm|Hm].
  - assert (ip dev = i) as Hip.
    { apply Hone, seen_elem. split; [apply list_elem_of_here|done]. }
    rewrite Hm, Hi, Hip. unfold classify.
    rewrite bool_decide_eq_false_2 by auto.
    rewrite bool_decide_eq_false_2 by auto. cbn.
    apply IH; [by rewrite lookup_insert_eq|done].
  - apply Forall_app. split.
    + eapply Forall_impl; [apply classify_mac|]. intros ? [-> _]. done.
    + apply IH; [by rewrite lookup_insert_ne|done].
Qed.

(** A live MAC whose sightings all show one IP gets from the first loop
    exactly what [classify] says of that IP against the record the cycle
    started with, however often it is listed. *)
Lemma track_seen_one_ip last ips devs m dev ct :
  dev ∈ devs → mac dev ≠ "" → lower (mac dev) = m →
  m ∈ last →
  (∀ d, d ∈ seen m devs → ip d = ip dev) →
  count_kind (ct, m) (track_kinds last ips devs) =
  count_kind (ct, m) (classify last (ips !! m) m (ip dev)).
Proof.
  intros Hin Hmac Hm Hlast Hone.
  destruct (seen_first m devs) as (l1 & d & l2 & -> & H1 & Hd & Hdm).
  { intros Hnil. assert (dev ∈ seen m devs) as Hs by by apply seen_elem.
    rewrite Hnil in Hs. by apply elem_of_nil in Hs. }
  assert (ip d = ip dev) as Hip.
  { apply Hone, seen_elem. split; [|done].
    apply elem_of_app. right. apply list_elem_of_here. }
  change (d :: l2) with ([d] ++ l2).
  rewrite !track_kinds_app, !count_kind_app.
  destruct (track_unseen last ips l1 m H1) as [Hk1 Hi1].
  rewrite (count_kind_zero _ (track_kinds last ips l1)),
          (count_kind_zero _ (track_kinds _ _ l2)).
  - cbn. apply truthy_true in Hd. rewrite Hd, app_nil_r, Hdm, Hi1, Hip.
    unfold count_kind. lia.
  - eapply Forall_impl.
    + apply (track_settled last _ l2 m (ip dev) Hlast).
      * cbn. apply truthy_true in Hd. rewrite Hd, Hdm, Hip.
        by rewrite lookup_insert_eq.
      * intros d' Hd'. apply Hone. apply seen_elem in Hd' as (? & ? & ?).
        apply seen_elem. split; [|done].
        apply elem_of_app. right. by apply list_elem_of_further.
    + intros x Hx ->. done.
  - eapply Forall_impl; [exact Hk1|]. intros x Hx ->. done.
Qed.

(** ** The second loop, counted *)

Lemma gone_macs_elem last cur ips m :
  m ∈ gone_macs last cur ips ↔
  m ∈ last ∧ (m ∉ cur) ∧ is_Some (ips !! lower m).
Proof.
  unfold gone_macs. rewrite list_elem_of_filter, elem_of_elements. tauto.
Qed.

Lemma count_gone_NoDup (l : list string) m :
  NoDup l → (∀ m', m' ∈ l → lower m' = m') →
  count_kind (gone, m) ((λ m', (gone, lower m')) <$> l) =
  if decide (m ∈ l) then 1%nat else 0%nat.
Proof.
  unfold count_kind.
  induction l as [|x l IH]; intros Hnd Hl; [done|].
  apply NoDup_cons in Hnd as [Hx Hnd].
  assert (∀ m', m' ∈ l → lower m' = m') as Hl'
    by (intros; apply Hl, elem_of_cons; auto).
  rewrite fmap_cons, filter_cons, (Hl x) by (apply elem_of_cons; auto).
  destruct (decide ((gone, x) = (gone, m))) as [[= ->]|Hne].
  - cbn [length]. rewrite IH by done.
    rewrite decide_False by done. rewrite decide_True; [done|].
    apply elem_of_cons. auto.
  - rewrite IH by done.
    destruct (decide (m ∈ l)) as [Hin|Hin].
    + rewrite decide_True; [done|]. apply elem_of_cons. auto.
    + rewrite decide_False; [done|]. rewrite elem_of_cons.
      intros [->|?]; done.
Qed.

(** With a normalized live set, the second loop reports a MAC gone once
    if it was live, is not sighted and has a record, and not otherwise;
    it reports nothing else. *)
Lemma count_gone_macs last cur ips ct m :
  (∀ m', m' ∈ last → lower m' = m') →
  count_kind (ct, m) ((λ m', (gone, lower m')) <$> gone_macs last cur ips) =
  if decide (ct = gone ∧ m ∈ last ∧ (m ∉ cur) ∧ is_Some (ips !! lower m))
  then 1%nat else 0%nat.
Proof.
  intros Hn. destruct (decide (ct = gone)) as [->|Hct].
  - rewrite count_gone_NoDup.
    + destruct (decide (m ∈ gone_macs last cur ips)) as [Hin|Hin];
        rewrite gone_macs_elem in Hin.
      * by rewrite decide_True.
      * rewrite decide_False; [done|]. tauto.
    + apply NoDup_filter, NoDup_elements.
    + intros m' Hm'. apply gone_macs_elem in Hm' as [? _]. auto.
  - rewrite decide_False by tauto.
    apply count_kind_zero, Forall_fmap, Forall_forall.
    intros x _ [= <- _]. done.
Qed.

(** The kinds of a cycle's changes, counted per MAC. *)
Lemma scan_network_count env obs st :
  no_faults env → live_set_normalized st →
  ∃ cs st',
    scan_network env obs st = (Ok cs, st') ∧
    same_frame (set_last_scan_devices (list_to_set (live_macs (discover obs))) st)
               st' ∧
    ips_of (db st') = track_ips (ips_of (db st)) (discover obs) ∧
    ∀ ct m,
      length (changes_of ct m cs) =
      (count_kind (ct, m)
         (track_kinds (_last_scan_devices st) (ips_of (db st)) (discover obs)) +
       if decide (ct = gone ∧ m ∈ _last_scan_devices st ∧
                  (m ∉ live_macs (discover obs)) ∧
                  is_Some (track_ips (ips_of (db st)) (discover obs) !! lower m))
       then 1 else 0)%nat.
Proof.
  intros NF Hn.
  destruct (scan_network_spec env obs st NF) as (cs & st' & Hrun & Hf & Hi & Hk).
  exists cs, st'. split; [done|]. split; [done|]. split; [done|].
  intros ct m. rewrite count_kind_changes, Hk, count_kind_app.
  rewrite count_gone_macs by exact Hn. f_equal.
  apply decide_ext. by rewrite elem_of_list_to_set.
Qed.

Lemma count_kind_singleton k k' :
  count_kind k [k'] = if decide (k' = k) then 1%nat else 0%nat.
Proof. unfold count_kind. rewrite filter_cons. by case_decide. Qed.

Lemma count_kind_nil k : count_kind k [] = 0%nat.
Proof. done. Qed.

(** ** The claims about one cycle *)

(** C1, for a MAC whose sightings in the cycle all show one IP, however
    often it is listed.  If its record exists, it was in the previous live
    set and that IP is not the stored one, the cycle's changes hold
    exactly one [changed] for it and no [returned], [gone] or [new].  If
    it is sighted exactly once and has no record, so that its upsert
    answers new, they hold exactly one [new] for it and no [returned],
    [changed] or [gone]. *)
Theorem changed_once_new_alone (env : Env) (st : NetworkMonitor)
    (obs : Observation) (dev : Device) :
  no_faults env →
  live_set_normalized st →
  dev ∈ discover obs →
  mac dev ≠ "" →
  ∃ cs st',
    scan_network env obs st = (Ok cs, st') ∧
    (∀ row,
       get_device (mac dev) (db st) = Some row →
       lower (mac dev) ∈ _last_scan_devices st →
       (∀ d, d ∈ seen (lower (mac dev)) (discover obs) → ip d = ip dev) →
       row_ip row ≠ ip dev →
       length (changes_of changed (lower (mac dev)) cs) = 1%nat ∧
       length (changes_of returned (lower (mac dev)) cs) = 0%nat ∧
       length (changes_of gone (lower (mac dev)) cs) = 0%nat ∧
       length (changes_of new (lower (mac dev)) cs) = 0%nat) ∧
    (∀ t,
       seen (lower (mac dev)) (discover obs) = [dev] →
       fst (upsert_device t dev (db st)) = true →
       length (changes_of new (lower (mac dev)) cs) = 1%nat ∧
       length (changes_of returned (lower (mac dev)) cs) = 0%nat ∧
       length (changes_of changed (lower (mac dev)) cs) = 0%nat ∧
       length (changes_of gone (lower (mac dev)) cs) = 0%nat).
Proof.
  intros NF Hn Hin Hmac.
  destruct (scan_network_count env obs st NF Hn) as (cs & st' & Hrun & _ & _ & Hc).
  exists cs, st'. split; [done|].
  assert (Hlive : ∀ ct,
    length (changes_of ct (lower (mac dev)) cs) =
    count_kind (ct, lower (mac dev))
      (track_kinds (_last_scan_devices st) (ips_of (db st)) (discover obs))).
  { intros ct. rewrite Hc. rewrite decide_False; [lia|].
    intros (_ & _ & Hnot & _). apply Hnot, live_macs_elem. eauto. }
  split.
  - intros row Hrow Hlast Hone Hip.
    assert (Hcount : ∀ ct,
      length (changes_of ct (lower (mac dev)) cs) =
      count_kind (ct, lower (mac dev)) [(changed, lower (mac dev))]).
    { intros ct. rewrite Hlive.
      rewrite (track_seen_one_ip _ _ _ _ dev) by done.
      rewrite ips_of_lookup, Hrow. unfold classify.
      cbn [fmap option_fmap option_map].
      rewrite bool_decide_eq_false_2 by auto.
      by rewrite bool_decide_eq_true_2 by done. }
    rewrite !Hcount, !count_kind_singleton.
    repeat split; by case_decide.
  - intros t Hs Hnew. apply upsert_device_is_new in Hnew.
    assert (Hcount : ∀ ct,
      length (changes_of ct (lower (mac dev)) cs) =
      count_kind (ct, lower (mac dev)) [(new, lower (mac dev))]).
    { intros ct. rewrite Hlive, (track_seen_once _ _ _ _ dev) by done.
      by rewrite ips_of_lookup, Hnew. }
    rewrite !Hcount, !count_kind_singleton.
    repeat split; by case_decide.
Qed.

Lemma steady_env_no_faults : no_faults steady_env.
Proof. intros n. reflexivity. Qed.

Lemma changed_once_new_alone_witness :
  let m := "aa:bb:cc:00:11:22" in
  let dev := mkDevice "192.168.1.21" "AA:BB:CC:00:11:22" "" "" in
  let dev2 := mkDevice "192.168.1.21" m "printer" "" in
  let row := mkRow m "192.168.1.20" "" "" 1 1 false false None None in
  let st := mkMonitor (mkDb {[m := row]} [] []) 60 false
              false [] ∅ {[m]} 0 0 [] [] in
  let st0 := NetworkMonitor_init empty_db 60 false in
  (∃ cs st',
     scan_network steady_env (arp_only [dev; dev2]) st = (Ok cs, st') ∧
     length (changes_of changed m cs) = 1%nat ∧
     length (changes_of returned m cs) = 0%nat ∧
     length (changes_of gone m cs) = 0%nat ∧
     length (changes_of new m cs) = 0%nat) ∧
  (∃ cs st',
     scan_network steady_env (arp_only [dev]) st0 = (Ok cs, st') ∧
     length (changes_of new m cs) = 1%nat ∧
     length (changes_of returned m cs) = 0%nat ∧
     length (changes_of changed m cs) = 0%nat ∧
     length (changes_of gone m cs) = 0%nat).
Proof.
  intros m dev dev2 row st st0. split.
  - assert (live_set_normalized st) as Hn.
    { intros k Hk. cbn in Hk. apply elem_of_singleton in Hk. by subst k. }
    destruct (changed_once_new_alone steady_env st (arp_only [dev; dev2]) dev
                steady_env_no_faults Hn)
      as (cs & st' & Hrun & Hchanged & _).
    { apply list_elem_of_here. }
    { discriminate. }
    exists cs, st'. split; [exact Hrun|].
    apply (Hchanged row).
    + reflexivity.
    + cbn. by apply elem_of_singleton.
    + intros d Hd. apply seen_elem in Hd as (Hd & _).
      apply elem_of_cons in Hd as [->|Hd]; [reflexivity|].
      apply list_elem_of_singleton in Hd as ->. reflexivity.
    + discriminate.
  - assert (live_set_normalized st0) as Hn.
    { intros k Hk. cbn in Hk. by apply not_elem_of_empty in Hk. }
    destruct (changed_once_new_alone steady_env st0 (arp_only [dev]) dev
                steady_env_no_faults Hn)
      as (cs & st' & Hrun & _ & Hnew).
    { apply list_elem_of_here. }
    { discriminate. }
    exists cs, st'. split; [exact Hrun|].
    apply (Hnew 0); reflexivity.
Defined.

(** C1 as stated fails when a MAC is sighted twice in one cycle.  A
    device the ARP table lists twice and that has no record gets [new]
    and then [returned] in the same cycle; a known, live device listed
    under two IPs that both differ from the stored one gets [changed]
    twice. *)
Lemma twice_sighted_new_and_returned :
  let m := "aa:bb:cc:00:11:22" in
  let dev := mkDevice "192.168.1.20" m "" "" in
  let st := NetworkMonitor_init empty_db 60 false in
  let row := mkRow m "192.168.1.20" "" "" 1 1 false false None None in
  let st2 := mkMonitor (mkDb {[m := row]} [] []) 60 false
               false [] ∅ {[m]} 0 0 [] [] in
  (fst (upsert_device 0 dev (db st)) = true ∧
   ∃ cs st',
     scan_network steady_env (arp_only [dev; dev]) st = (Ok cs, st') ∧
     length (changes_of new m cs) = 1%nat ∧
     length (changes_of returned m cs) = 1%nat) ∧
  (get_device m (db st2) = Some row ∧
   m ∈ _last_scan_devices st2 ∧
   ∃ cs st',
     scan_network steady_env
       (arp_only [mkDevice "192.168.1.21" m "" "";
                  mkDevice "192.168.1.22" m "" ""]) st2 = (Ok cs, st') ∧
     length (changes_of changed m cs) = 2%nat).
Proof.
  intros m dev st row st2. split.
  - split; [reflexivity|].
    eexists _, _. split; [vm_compute; reflexivity|].
    split; vm_compute; reflexivity.
  - split; [reflexivity|]. split; [vm_compute; reflexivity|].
    eexists _, _. split; [vm_compute; reflexivity|].
    vm_compute; reflexivity.
Qed.

(** ** Across cycles *)

Lemma track_ips_is_Some ips devs k :
  is_Some (ips !! k) → is_Some (track_ips ips devs !! k).
Proof.
  revert ips. induction devs as [|dev devs IH]; intros ips H; cbn; [done|].
  destruct (truthy (mac dev)); [|by apply IH].
  apply IH. rewrite lookup_insert. by case_decide.
Qed.

(** A sighted MAC that has a record and was not in the previous live set
    is reported [returned] by the first loop. *)
Lemma track_kinds_returned last ips devs m :
  m ∈ live_macs devs → m ∉ last → is_Some (ips !! m) →
  (returned, m) ∈ track_kinds last ips devs.
Proof.
  revert ips. induction devs as [|dev devs IH]; intros ips Hm Hl Hr.
  { by apply elem_of_nil in Hm. }
  rewrite live_macs_cons in Hm. cbn.
  destruct (truthy (mac dev)); [|by apply IH].
  apply elem_of_app.
  destruct (decide (lower (mac dev) = m)) as [->|Hne].
  - left. destruct Hr as [old ->]. cbn.
    rewrite bool_decide_eq_true_2 by done. apply elem_of_cons. auto.
  - right. apply IH; [|done|].
    + apply elem_of_cons in Hm as [?|?]; [congruence|done].
    + by rewrite lookup_insert_ne.
Qed.

Lemma live_macs_lower m devs : m ∈ live_macs devs → lower m = m.
Proof.
  intros (dev & _ & _ & <-)%live_macs_elem. apply lower_idemp.
Qed.

(** Cycles in which a MAC is not sighted keep its record and leave it out
    of the live set. *)
Lemma scan_cycles_unseen env obss st m :
  no_faults env →
  (∀ o, o ∈ obss → m ∉ live_macs (discover o)) →
  m ∉ _last_scan_devices st →
  is_Some (ips_of (db st) !! m) →
  ∃ css st',
    scan_cycles env obss st = (Ok css, st') ∧
    (m ∉ _last_scan_devices st') ∧
    is_Some (ips_of (db st') !! m) ∧
    length css = length obss.
Proof.
  intros NF. revert st.
  induction obss as [|o obss IH]; intros st Hobs Hl Hr.
  { by exists [], st. }
  destruct (scan_network_spec env o st NF) as (cs & st1 & Hrun & Hf & Hi & _).
  destruct (IH st1) as (css & st' & Hrun' & Hl' & Hr' & Hlen).
  - intros o' Ho'. apply Hobs, elem_of_cons. auto.
  - destruct Hf as (-> & _). cbn. rewrite elem_of_list_to_set.
    apply Hobs, elem_of_cons. auto.
  - rewrite Hi. by apply track_ips_is_Some.
  - exists (cs :: css), st'. split; [|split; [done|split; [done|]]].
    + cbn [scan_cycles]. unfold mbind, M_bind. rewrite Hrun, Hrun'. done.
    + cbn. by rewrite Hlen.
Qed.

(** C9.  A monitor instance is constructed over a store that has a record
    for a MAC.  Whatever cycles it runs without sighting the MAC, the
    first cycle that sights it reports it [returned]: the previous live
    set of a new instance is empty and the store is not consulted to
    rebuild it. *)
Theorem returned_after_restart (env : Env) (d : DeviceDatabase)
    (interval : Z) (v : bool) (earlier : list Observation)
    (obs : Observation) (m : string) :
  no_faults env →
  is_Some (get_device m d) →
  (∀ o, o ∈ earlier → m ∉ live_macs (discover o)) →
  m ∈ live_macs (discover obs) →
  ∃ css st1 cs st2,
    scan_cycles env earlier (NetworkMonitor_init d interval v) = (Ok css, st1) ∧
    scan_network env obs st1 = (Ok cs, st2) ∧
    ∃ c, c ∈ cs ∧ change_type c = returned ∧ change_mac c = m.
Proof.
  intros NF Hrec Hearlier Hobs.
  pose proof (live_macs_lower _ _ Hobs) as Hm.
  destruct (scan_cycles_unseen env earlier (NetworkMonitor_init d interval v) m)
    as (css & st1 & Hrun1 & Hl1 & Hr1 & _); [done..| | |].
  { cbn. apply not_elem_of_empty. }
  { cbn. rewrite <- Hm, ips_of_lookup. by apply fmap_is_Some. }
  destruct (scan_network_spec env obs st1 NF) as (cs & st2 & Hrun2 & _ & _ & Hk).
  exists css, st1, cs, st2. split; [done|]. split; [done|].
  assert ((returned, m) ∈ kind <$> cs) as Hin.
  { rewrite Hk. apply elem_of_app. left. by apply track_kinds_returned. }
  apply list_elem_of_fmap in Hin as (c & Hc & Hin).
  exists c. split; [done|]. unfold kind in Hc. by injection Hc as <- <-.
Qed.

Lemma returned_after_restart_witness :
  let m := "aa:bb:cc:00:11:22" in
  let row := mkRow m "192.168.1.20" "nas" "" 1 1 false false None None in
  ∃ css st1 cs st2,
    scan_cycles steady_env [arp_only []]
      (NetworkMonitor_init (mkDb {[m := row]} [] []) 60 false) = (Ok css, st1) ∧
    scan_network steady_env (arp_only [mkDevice "192.168.1.20" m "" ""]) st1 =
      (Ok cs, st2) ∧
    ∃ c, c ∈ cs ∧ change_type c = returned ∧ change_mac c = m.
Proof.
  intros m row.
  apply (returned_after_restart steady_env (mkDb {[m := row]} [] []) 60 false
           [arp_only []] (arp_only [mkDevice "192.168.1.20" m "" ""]) m
           steady_env_no_faults).
  - exists row. reflexivity.
  - intros o Ho. apply list_elem_of_singleton in Ho. subst o.
    cbn. apply not_elem_of_nil.
  - cbn. apply list_elem_of_singleton. reflexivity.
Defined.

Lemma count_gone_track last ips devs m :
  count_kind (gone, m) (track_kinds last ips devs) = 0%nat.
Proof.
  apply count_kind_zero.
  eapply Forall_impl; [apply track_kinds_not_gone|].
  intros x Hx ->. done.
Qed.

(** The live set a cycle leaves behind is normalized. *)
Lemma scan_network_normalizes st st' devs :
  same_frame (set_last_scan_devices (list_to_set (live_macs devs)) st) st' →
  live_set_normalized st'.
Proof.
  intros (Hl & _) m. rewrite Hl. cbn. rewrite elem_of_list_to_set.
  apply live_macs_lower.
Qed.

(** A new monitor has a normalized live set, and cycles keep it so:
    [live_set_normalized] holds of every state a monitor goes through. *)
Lemma NetworkMonitor_init_normalized d interval v :
  live_set_normalized (NetworkMonitor_init d interval v).
Proof. intros m Hm. cbn in Hm. by apply elem_of_empty in Hm. Qed.

Lemma scan_cycles_normalized env obss st css st' :
  no_faults env → live_set_normalized st →
  scan_cycles env obss st = (Ok css, st') →
  live_set_normalized st'.
Proof.
  intros NF. revert st css.
  induction obss as [|o obss IH]; intros st css Hn; cbn [scan_cycles].
  { by intros [= <- <-]. }
  destruct (scan_network_spec env o st NF) as (cs & st1 & Hrun & Hf & _).
  unfold mbind, M_bind. rewrite Hrun.
  destruct (scan_cycles env obss st1) as [[css1|e] st2] eqn:E; [|done].
  intros [= <- <-]. eapply IH; [|exact E].
  by eapply scan_network_normalizes.
Qed.

Lemma seen_nil_live m devs : m ∉ live_macs devs → seen m devs = [].
Proof.
  induction devs as [|dev devs IH]; intros Hm; [done|].
  rewrite seen_cons. rewrite decide_False.
  - apply IH. intros Hin. apply Hm. rewrite live_macs_cons.
    destruct (truthy (mac dev)); [|done]. apply elem_of_cons. auto.
  - intros [Hmac Hl]. apply Hm, live_macs_elem. exists dev.
    split; [apply elem_of_cons; auto|done].
Qed.

(** Cycles that do not sight a MAC which is not live report no [gone]
    for it. *)
Lemma scan_cycles_no_gone env obss st m :
  no_faults env →
  live_set_normalized st →
  (∀ o, o ∈ obss → m ∉ live_macs (discover o)) →
  m ∉ _last_scan_devices st →
  ∃ css st',
    scan_cycles env obss st = (Ok css, st') ∧
    length css = length obss ∧
    ∀ cs, cs ∈ css → length (changes_of gone m cs) = 0%nat.
Proof.
  intros NF. revert st.
  induction obss as [|o obss IH]; intros st Hn Hobs Hl.
  { exists [], st. split; [done|]. split; [done|].
    intros cs Hcs. by apply elem_of_nil in Hcs. }
  destruct (scan_network_count env o st NF Hn) as (cs & st1 & Hrun & Hf & _ & Hc).
  destruct (IH st1) as (css & st' & Hrun' & Hlen & Hcss).
  - by eapply scan_network_normalizes.
  - intros o' Ho'. apply Hobs, elem_of_cons. auto.
  - destruct Hf as (-> & _). cbn. rewrite elem_of_list_to_set.
    apply Hobs, elem_of_cons. auto.
  - exists (cs :: css), st'. split; [|split].
    + cbn [scan_cycles]. unfold mbind, M_bind. rewrite Hrun, Hrun'. done.
    + cbn. by rewrite Hlen.
    + intros cs' [->|Hin]%elem_of_cons; [|by apply Hcss].
      rewrite Hc, count_gone_track. rewrite decide_False; [done|]. tauto.
Qed.

(** C5.  A MAC of the previous live set that the cycle does not sight and
    that has a record is reported [gone] exactly once in that cycle, and
    in no later cycle that does not sight it either.  The [gone] changes
    come after all the others and are about exactly the MACs of the
    previous live set that are not in the current one and have a record. *)
Theorem gone_exactly_once (env : Env) (st : NetworkMonitor)
    (obs : Observation) (later : list Observation) (m : string) :
  no_faults env →
  live_set_normalized st →
  m ∈ _last_scan_devices st →
  m ∉ live_macs (discover obs) →
  is_Some (get_device m (db st)) →
  (∀ o, o ∈ later → m ∉ live_macs (discover o)) →
  ∃ cs st1 css st2,
    scan_network env obs st = (Ok cs, st1) ∧
    length (changes_of gone m cs) = 1%nat ∧
    scan_cycles env later st1 = (Ok css, st2) ∧
    length css = length later ∧
    (∀ cs', cs' ∈ css → length (changes_of gone m cs') = 0%nat) ∧
    ∃ first_loop second_loop,
      cs = first_loop ++ second_loop ∧
      Forall (λ c, change_type c ≠ gone) first_loop ∧
      Forall (λ c, change_type c = gone) second_loop ∧
      ∀ m', (∃ c, c ∈ second_loop ∧ change_mac c = m') ↔
            m' ∈ _last_scan_devices st ∧
            (m' ∉ live_macs (discover obs)) ∧
            is_Some (get_device m' (db st)).
Proof.
  intros NF Hn Hlast Hobs Hrec Hlater.
  pose proof (Hn m Hlast) as Hm.
  destruct (scan_network_count env obs st NF Hn)
    as (cs & st1 & Hrun & Hf & Hi & Hc).
  destruct (scan_network_spec env obs st NF)
    as (cs0 & st0 & Hrun0 & _ & _ & Hk).
  rewrite Hrun in Hrun0. injection Hrun0 as <- <-.
  destruct (scan_cycles_no_gone env later st1 m NF)
    as (css & st2 & Hrun2 & Hlen & Hcss).
  { by eapply scan_network_normalizes. }
  { done. }
  { destruct Hf as (-> & _). cbn. by rewrite elem_of_list_to_set. }
  exists cs, st1, css, st2.
  split; [done|]. split; [|split; [done|split; [done|split; [done|]]]].
  - rewrite Hc, count_gone_track. rewrite decide_True; [done|].
    split; [done|]. split; [done|]. split; [done|].
    apply track_ips_is_Some. rewrite ips_of_lookup. by apply fmap_is_Some.
  - apply fmap_app_inv in Hk as (c1 & c2 & Hk1 & Hk2 & ->).
    exists c1, c2. split; [done|]. split; [|split].
    + apply Forall_forall. intros c Hcin Hct.
      pose proof (track_kinds_not_gone (_last_scan_devices st)
                    (ips_of (db st)) (discover obs)) as Hng.
      rewrite Hk1 in Hng. rewrite Forall_fmap, Forall_forall in Hng.
      by apply (Hng c).
    + apply Forall_forall. intros c Hcin.
      assert (kind c ∈ kind <$> c2) as Hkc by by apply list_elem_of_fmap_2.
      rewrite <- Hk2 in Hkc.
      apply list_elem_of_fmap in Hkc as (m' & Hkc & _).
      unfold kind in Hkc. by injection Hkc as -> _.
    + intros m'. split.
      * intros (c & Hcin & <-).
        assert (kind c ∈ kind <$> c2) as Hkc by by apply list_elem_of_fmap_2.
        rewrite <- Hk2 in Hkc.
        apply list_elem_of_fmap in Hkc as (m'' & Hkc & Hin).
        unfold kind in Hkc. injection Hkc as _ ->.
        apply gone_macs_elem in Hin as (Hin1 & Hin2 & Hin3).
        rewrite elem_of_list_to_set in Hin2.
        pose proof (Hn m'' Hin1) as Hm''. rewrite Hm''.
        split; [done|]. split; [done|].
        destruct (track_unseen (_last_scan_devices st) (ips_of (db st))
                    (discover obs) m'' (seen_nil_live _ _ Hin2)) as [_ Hsame].
        rewrite Hm'', Hsame, <- Hm'', ips_of_lookup in Hin3.
        by apply fmap_is_Some in Hin3.
      * intros (Hin1 & Hin2 & Hin3).
        pose proof (Hn m' Hin1) as Hm'.
        assert ((gone, m') ∈ kind <$> c2) as Hkc.
        { rewrite <- Hk2. apply list_elem_of_fmap. exists m'.
          split; [by rewrite Hm'|]. apply gone_macs_elem.
          split; [done|]. split; [by rewrite elem_of_list_to_set|].
          apply track_ips_is_Some. rewrite ips_of_lookup.
          by apply fmap_is_Some. }
        apply list_elem_of_fmap in Hkc as (c & Hkc & Hcin).
        exists c. split; [done|]. unfold kind in Hkc. by injection Hkc as _ <-.
Qed.

Lemma gone_exactly_once_witness :
  let m := "aa:bb:cc:00:11:22" in
  let row := mkRow m "192.168.1.20" "nas" "" 1 1 false false None None in
  let st := mkMonitor (mkDb {[m := row]} [] []) 60 false
              false [] ∅ {[m]} 0 0 [] [] in
  ∃ cs st1 css st2,
    scan_network steady_env (arp_only []) st = (Ok cs, st1) ∧
    length (changes_of gone m cs) = 1%nat ∧
    scan_cycles steady_env [arp_only []; arp_only []] st1 = (Ok css, st2) ∧
    length css = 2%nat ∧
    (∀ cs', cs' ∈ css → length (changes_of gone m cs') = 0%nat).
Proof.
  intros m row st.
  assert (live_set_normalized st) as Hn.
  { intros m' Hm'. cbn in Hm'. apply elem_of_singleton in Hm'. by subst m'. }
  destruct (gone_exactly_once steady_env st (arp_only [])
              [arp_only []; arp_only []] m steady_env_no_faults Hn)
    as (cs & st1 & css & st2 & H1 & H2 & H3 & H4 & H5 & _).
  - cbn. by apply elem_of_singleton.
  - cbn. apply not_elem_of_nil.
  - exists row. reflexivity.
  - intros o Ho. apply elem_of_cons in Ho as [->|Ho];
      [|apply list_elem_of_singleton in Ho as ->]; cbn; apply not_elem_of_nil.
  - exists cs, st1, css, st2. auto.
Defined.

(** ** Two cycles over one live set *)

Lemma live_pairs_cons dev devs :
  live_pairs (dev :: devs) =
  if truthy (mac dev) then (lower (mac dev), ip dev) :: live_pairs devs
  else live_pairs devs.
Proof.
  unfold live_pairs, tracked. rewrite filter_cons.
  destruct (truthy (mac dev)) eqn:E.
  - apply truthy_true in E. by rewrite decide_True.
  - apply truthy_false in E. rewrite decide_False by auto. done.
Qed.

Lemma live_pairs_app l1 l2 :
  live_pairs (l1 ++ l2) = live_pairs l1 ++ live_pairs l2.
Proof. unfold live_pairs, tracked. by rewrite filter_app, fmap_app. Qed.

Lemma live_macs_pairs devs : live_macs devs = fst <$> live_pairs devs.
Proof.
  unfold live_macs, live_pairs. rewrite <- list_fmap_compose. done.
Qed.

Lemma live_macs_pairs_elem m devs :
  m ∈ live_macs devs ↔ ∃ i, (m, i) ∈ live_pairs devs.
Proof.
  rewrite live_macs_pairs, list_elem_of_fmap. split.
  - intros ([m' i] & -> & H). eauto.
  - intros (i & H). by exists (m, i).
Qed.

Lemma filter_none {A} (P : A → Prop) `{∀ x, Decision (P x)} (l : list A) :
  (∀ x, x ∈ l → ¬ P x) → filter P l = [].
Proof.
  induction l as [|x l IH]; intros Hl; [done|].
  rewrite filter_cons, decide_False by (apply Hl, elem_of_cons; auto).
  apply IH. intros y Hy. apply Hl, elem_of_cons. auto.
Qed.

(** When every MAC is sighted under one IP, the first loop leaves that IP
    stored for it. *)
Lemma track_ips_pairs ips devs m i :
  (∀ m i1 i2, (m, i1) ∈ live_pairs devs → (m, i2) ∈ live_pairs devs → i1 = i2) →
  (m, i) ∈ live_pairs devs →
  track_ips ips devs !! m = Some i.
Proof.
  induction devs as [|dev devs IH] using rev_ind; intros Hfun Hin.
  { by apply elem_of_nil in Hin. }
  rewrite track_ips_app. rewrite live_pairs_app in Hin, Hfun.
  rewrite live_pairs_cons in Hin, Hfun. cbn [track_ips].
  change (live_pairs []) with (@nil (string * string)) in Hin, Hfun.
  destruct (truthy (mac dev)).
  - rewrite lookup_insert. case_decide as Hm.
    + f_equal. apply (Hfun m); [|done].
      apply elem_of_app. right. rewrite <- Hm. apply elem_of_cons. auto.
    + apply elem_of_app in Hin as [Hin|Hin].
      * apply IH; [|done]. intros m' i1 i2 H1 H2.
        apply (Hfun m'); apply elem_of_app; auto.
      * apply list_elem_of_singleton in Hin. injection Hin as -> ->. done.
  - rewrite app_nil_r in Hin, Hfun. by apply IH.
Qed.

(** A cycle whose sightings all agree with the stored IPs and the live
    set changes nothing in the first loop. *)
Lemma track_kinds_unchanged last ips devs :
  (∀ m i, (m, i) ∈ live_pairs devs → ips !! m = Some i ∧ m ∈ last) →
  track_kinds last ips devs = [] ∧ track_ips ips devs = ips.
Proof.
  induction devs as [|dev devs IH]; intros H; [done|].
  rewrite live_pairs_cons in H. cbn.
  destruct (truthy (mac dev)).
  - destruct (H (lower (mac dev)) (ip dev)) as [Hi Hl];
      [apply elem_of_cons; auto|].
    rewrite Hi, insert_id by done. cbn.
    rewrite bool_decide_eq_false_2 by auto.
    rewrite bool_decide_eq_false_2 by auto.
    apply IH. intros m i Hin. apply H, elem_of_cons. auto.
  - by apply IH.
Qed.

(** A first cycle over MACs without record, each sighted once, from an
    empty live set: one [new] per sighting. *)
Lemma track_kinds_all_new ips devs :
  (∀ m, m ∈ live_macs devs → ips !! m = None) →
  NoDup (live_macs devs) →
  track_kinds ∅ ips devs = (λ m, (new, m)) <$> live_macs devs.
Proof.
  revert ips. induction devs as [|dev devs IH]; intros ips Hnone Hnd; [done|].
  rewrite live_macs_cons in Hnone, Hnd |- *. cbn.
  destruct (truthy (mac dev)); [|by apply IH].
  apply NoDup_cons in Hnd as [Hm Hnd].
  rewrite Hnone by (apply elem_of_cons; auto). cbn. f_equal.
  apply IH; [|done]. intros m' Hm'.
  rewrite lookup_insert_ne by (intros Heq; subst m'; done).
  apply Hnone, elem_of_cons. auto.
Qed.

(** C2, for live sets in which every MAC is sighted under one IP.  Of two
    consecutive cycles of one monitor that observe the same MACs with the
    same IPs, the second returns no change.  If moreover the monitor is
    new, the store has no record of the MACs sighted and each is sighted
    once, the first cycle returns one [new] per MAC and nothing else. *)
Theorem unchanged_live_set_no_changes (env : Env) (st : NetworkMonitor)
    (obs1 obs2 : Observation) :
  no_faults env →
  (∀ m i1 i2, (m, i1) ∈ live_pairs (discover obs1) →
              (m, i2) ∈ live_pairs (discover obs1) → i1 = i2) →
  (∀ p, p ∈ live_pairs (discover obs2) ↔ p ∈ live_pairs (discover obs1)) →
  ∃ cs1 st1 st2,
    scan_network env obs1 st = (Ok cs1, st1) ∧
    scan_network env obs2 st1 = (Ok [], st2) ∧
    (_last_scan_devices st = ∅ →
     (∀ m, m ∈ live_macs (discover obs1) → get_device m (db st) = None) →
     NoDup (live_macs (discover obs1)) →
     kind <$> cs1 = (λ m, (new, m)) <$> live_macs (discover obs1)).
Proof.
  intros NF Hfun Hsame.
  destruct (scan_network_spec env obs1 st NF)
    as (cs1 & st1 & Hrun1 & Hf1 & Hi1 & Hk1).
  destruct (scan_network_spec env obs2 st1 NF)
    as (cs2 & st2 & Hrun2 & _ & _ & Hk2).
  destruct Hf1 as (Hl1 & _). cbn in Hl1.
  destruct (track_kinds_unchanged (_last_scan_devices st1) (ips_of (db st1))
              (discover obs2)) as [Hk Hi].
  { intros m i Hin. apply Hsame in Hin. split.
    - rewrite Hi1. by apply track_ips_pairs.
    - rewrite Hl1, elem_of_list_to_set. apply live_macs_pairs_elem. eauto. }
  rewrite Hk, Hi, app_nil_l in Hk2. unfold gone_macs in Hk2.
  rewrite (filter_none _ (elements _)) in Hk2.
  2:{ intros m Hm [Hnot _]. apply Hnot.
      rewrite elem_of_elements, Hl1, elem_of_list_to_set in Hm.
      rewrite elem_of_list_to_set.
      apply live_macs_pairs_elem in Hm as [i Hm].
      apply live_macs_pairs_elem. exists i. by apply Hsame. }
  apply fmap_nil_inv in Hk2. subst cs2.
  exists cs1, st1, st2. split; [done|]. split; [done|].
  intros Hempty Hnone Hnd. rewrite Hk1, Hempty.
  unfold gone_macs. rewrite elements_empty, filter_nil, fmap_nil, app_nil_r.
  apply track_kinds_all_new; [|done].
  intros m Hm. pose proof (live_macs_lower _ _ Hm) as Hlm.
  rewrite <- Hlm, ips_of_lookup, Hnone by done. done.
Qed.

Lemma NoDup_fst_functional (l : list (string * string)) :
  NoDup (fst <$> l) →
  ∀ m i1 i2, (m, i1) ∈ l → (m, i2) ∈ l → i1 = i2.
Proof.
  induction l as [|[m0 i0] l IH]; intros Hnd m i1 i2 H1 H2.
  { by apply elem_of_nil in H1. }
  rewrite fmap_cons in Hnd. apply NoDup_cons in Hnd as [Hm0 Hnd]. cbn in Hm0.
  apply elem_of_cons in H1 as [H1|H1], H2 as [H2|H2].
  - congruence.
  - injection H1 as -> ->. exfalso. apply Hm0.
    apply list_elem_of_fmap. by exists (m0, i2).
  - injection H2 as -> ->. exfalso. apply Hm0.
    apply list_elem_of_fmap. by exists (m0, i1).
  - by apply (IH Hnd m).
Qed.

Lemma unchanged_live_set_no_changes_witness :
  let m1 := "aa:bb:cc:00:11:22" in
  let m2 := "aa:bb:cc:00:11:33" in
  let obs := arp_only [mkDevice "192.168.1.20" m1 "" "";
                       mkDevice "192.168.1.30" m2 "" ""] in
  ∃ cs1 st1 st2,
    scan_network steady_env obs (NetworkMonitor_init empty_db 60 false) =
      (Ok cs1, st1) ∧
    scan_network steady_env obs st1 = (Ok [], st2) ∧
    kind <$> cs1 = [(new, m1); (new, m2)].
Proof.
  intros m1 m2 obs.
  destruct (unchanged_live_set_no_changes steady_env
              (NetworkMonitor_init empty_db 60 false) obs obs
              steady_env_no_faults)
    as (cs1 & st1 & st2 & H1 & H2 & H3).
  - apply NoDup_fst_functional.
    apply (bool_decide_unpack _). vm_compute. exact I.
  - intros p. reflexivity.
  - exists cs1, st1, st2. split; [exact H1|]. split; [exact H2|].
    apply H3.
    + reflexivity.
    + intros m _. apply lookup_empty.
    + apply (bool_decide_unpack _). vm_compute. exact I.
Defined.

(** C2 as stated fails for a MAC the ARP table lists under two IPs: the
    same observation twice gives [new] and [returned] the first time and
    two [changed] the second time, and so on in every later cycle. *)
Lemma two_ips_never_settle :
  let m := "aa:bb:cc:00:11:22" in
  let obs := arp_only [mkDevice "192.168.1.20" m "" "";
                       mkDevice "192.168.1.30" m "" ""] in
  ∃ cs1 st1 cs2 st2,
    scan_network steady_env obs (NetworkMonitor_init empty_db 60 false) =
      (Ok cs1, st1) ∧
    scan_network steady_env obs st1 = (Ok cs2, st2) ∧
    kind <$> cs1 = [(new, m); (returned, m)] ∧
    kind <$> cs2 = [(changed, m); (changed, m)] ∧
    cs2 ≠ [].
Proof.
  intros m obs. eexists _, _, _, _.
  split; [vm_compute; reflexivity|].
  split; [vm_compute; reflexivity|].
  split; [vm_compute; reflexivity|].
  split; [vm_compute; reflexivity|]. discriminate.
Qed.

(* ===================================================================== *)
(** ** History writes that fail *)
(* ===================================================================== *)

Lemma cycle_frame_refl st : cycle_frame st st.
Proof. by repeat split. Qed.

Lemma cycle_frame_trans st1 st2 st3 :
  cycle_frame st1 st2 → cycle_frame st2 st3 → cycle_frame st1 st3.
Proof.
  intros (?&?&?) (?&?&?). repeat split; try congruence. lia.
Qed.

Lemma fault_spec_bind env {A B} (m : M A) (f : A → M B) st :
  fault_spec env m st →
  (∀ a st', fault_spec env (f a) st') →
  fault_spec env (m ≫= f) st.
Proof.
  unfold fault_spec, mbind, M_bind. intros [Hf Hm] Hk.
  destruct (m st) as [[a|e] st1] eqn:E; cbn in *.
  - specialize (Hk a st1). destruct Hk as [Hf2 Hk].
    split; [by eapply cycle_frame_trans|].
    destruct Hf as (_ & _ & Hle), Hf2 as (_ & _ & Hle2).
    destruct ((f a st1).1) as [b|e'].
    + intros k Hk'. destruct (decide (k < log_event_calls st1)%nat).
      * apply Hm. lia.
      * apply Hk. lia.
    + destruct Hk as (-> & k & Hk1 & Hk2). split; [done|].
      exists k. split; [lia|done].
  - done.
Qed.

(** A step that issues no history write and keeps the frame. *)
Lemma fault_spec_quiet env {A} (m : M A) st :
  wp m (λ _ st', _last_scan_devices st' = _last_scan_devices st ∧
                 scan_history (db st') = scan_history (db st) ∧
                 log_event_calls st' = log_event_calls st) st →
  fault_spec env m st.
Proof.
  intros (a & st' & Hm & Hl & Hs & Hc). unfold fault_spec. rewrite Hm. cbn.
  split; [repeat split; try done; lia|]. intros k Hk. lia.
Qed.

Lemma fault_spec_core env {A} (m : M A) st :
  wp m (λ _ st', same_core st st') st → fault_spec env m st.
Proof.
  intros H. apply fault_spec_quiet. eapply wp_mono; [exact H|].
  intros a st' (Hd & Hl & Hc & _). by rewrite Hd.
Qed.

Lemma fault_spec_ret env {A} (a : A) st : fault_spec env (mret a) st.
Proof. apply fault_spec_quiet, wp_ret. done. Qed.

Lemma fault_spec_db_upsert_device env dev st :
  fault_spec env (db_upsert_device env dev) st.
Proof.
  apply fault_spec_quiet. unfold db_upsert_device. apply wp_bind.
  eapply wp_mono; [apply wp_now|]. intros t st1 (Hd & Hl & Hc & _).
  apply wp_bind, wp_gets.
  destruct (upsert_device t dev (db st1)) as [b d'] eqn:E.
  apply wp_bind, wp_modify, wp_ret. cbn. split; [done|]. split; [|done].
  rewrite <- Hd. unfold upsert_device in E.
  destruct (get_device (lower (mac dev)) (db st1)); by injection E as <- <-.
Qed.

Lemma fault_spec_db_log_event env m ev ip_ det st :
  fault_spec env (db_log_event env m ev ip_ det) st.
Proof.
  unfold fault_spec, db_log_event, log_event, now, gets, modify, raise,
    mbind, M_bind, mret, M_ret. cbn.
  destruct (history_fault env (log_event_calls st)) eqn:E;
    unfold cycle_frame; cbn.
  - split; [repeat split; try done; lia|]. split; [done|].
    exists (log_event_calls st). split; [lia|done].
  - split; [repeat split; try done; lia|].
    intros k Hk. assert (k = log_event_calls st) as -> by lia. done.
Qed.

Lemma fault_spec_emit env {B} ct dev prev m ev ip_ det line
    (k : DeviceChange → M B) st :
  (∀ c st', fault_spec env (k c) st') →
  fault_spec env
    (change ← new_DeviceChange env ct dev prev;
     _notify change;;
     db_log_event env m ev ip_ det;;
     log line;;
     k change) st.
Proof.
  intros Hk. apply fault_spec_bind.
  { apply fault_spec_core. eapply wp_mono; [apply wp_new_DeviceChange|].
    by intros c st' (_ & _ & _ & H). }
  intros c st1. apply fault_spec_bind.
  { apply fault_spec_core, wp_notify. }
  intros ? st2. apply fault_spec_bind; [apply fault_spec_db_log_event|].
  intros ? st3. apply fault_spec_bind; [apply fault_spec_core, wp_log|].
  intros ? st4. apply Hk.
Qed.

Lemma fault_spec_track_device env acc dev st :
  fault_spec env (track_device env acc dev) st.
Proof.
  unfold track_device, track_device_of. destruct acc as [[changes cur] n].
  destruct (negb (truthy (mac dev))); [apply fault_spec_ret|].
  apply fault_spec_bind.
  { apply fault_spec_quiet, wp_modify. done. }
  intros ? st1. apply fault_spec_bind.
  { apply fault_spec_quiet. eapply wp_mono; [apply wp_db_get_device|].
    by intros r st' [_ ->]. }
  intros existing st2. apply fault_spec_bind;
    [apply fault_spec_db_upsert_device|].
  intros is_new st3. apply fault_spec_bind.
  { apply fault_spec_quiet, wp_gets. done. }
  intros last st4. destruct is_new.
  { apply fault_spec_emit. intros. apply fault_spec_ret. }
  destruct existing as [row|]; [|apply fault_spec_ret].
  destruct (bool_decide _).
  { apply fault_spec_emit. intros. apply fault_spec_ret. }
  destruct (bool_decide _); [|apply fault_spec_ret].
  apply fault_spec_emit. intros. apply fault_spec_ret.
Qed.

Lemma fault_spec_check_gone env cur acc m st :
  fault_spec env (check_gone env cur acc m) st.
Proof.
  unfold check_gone, check_gone_of. destruct acc as [changes g].
  destruct (bool_decide _); [|apply fault_spec_ret].
  apply fault_spec_bind.
  { apply fault_spec_quiet. eapply wp_mono; [apply wp_db_get_device|].
    by intros r st' [_ ->]. }
  intros existing st1. destruct existing as [row|]; [|apply fault_spec_ret].
  apply fault_spec_emit. intros. apply fault_spec_ret.
Qed.

Lemma fault_spec_foldM env {A B} (f : A → B → M A) (l : list B) a st :
  (∀ a x st, fault_spec env (f a x) st) →
  fault_spec env (foldM f a l) st.
Proof.
  intros Hf. revert a st. induction l as [|x l IH]; intros a st; cbn [foldM].
  - apply fault_spec_ret.
  - apply fault_spec_bind; [apply Hf|]. intros. apply IH.
Qed.

Lemma scan_network_loops env obs st :
  scan_network env obs st =
  ('(changes, current_macs, new_count, gone_count) ←
     scan_loops env (discover obs);
   modify (set_last_scan_devices current_macs);;
   db_log_scan env (length (discover obs)) new_count gone_count;;
   mret changes) st.
Proof.
  unfold scan_network, scan_network_of, scan_loops, mbind, M_bind, mret, M_ret.
  destruct (foldM _ _ _ st) as [[[[changes cur] n]|e] st1]; [|done].
  unfold gets. cbn.
  destruct (foldM _ _ _ st1) as [[[changes2 g]|e] st2]; done.
Qed.

Lemma fault_spec_scan_loops env devs st :
  fault_spec env (scan_loops env devs) st.
Proof.
  unfold scan_loops. apply fault_spec_bind.
  { apply fault_spec_foldM. intros. apply fault_spec_track_device. }
  intros [[changes cur] n] st1. apply fault_spec_bind.
  { apply fault_spec_quiet, wp_gets. done. }
  intros last st2. apply fault_spec_bind.
  { apply fault_spec_foldM. intros. apply fault_spec_check_gone. }
  intros [changes2 g] st3. apply fault_spec_ret.
Qed.

(** A cycle raises nothing but the error of a history write. *)
Lemma scan_network_raises env obs st e :
  (scan_network env obs st).1 = Raise e → e = SqliteError.
Proof.
  pose proof (fault_spec_scan_loops env (discover obs) st) as [_ Hm].
  rewrite scan_network_loops. unfold mbind, M_bind.
  destruct (scan_loops env (discover obs) st)
    as [[[[[changes cur] n] g]|e'] st1]; cbn in Hm |- *.
  - unfold db_log_scan, now, gets, modify, mbind, M_bind, mret, M_ret.
    cbn. done.
  - intros [= <-]. by destruct Hm.
Qed.

(** C7, as the monitor implements it.  A cycle returns its Change list
    exactly when none of the history writes it issued failed.  When one
    fails, [scan_network] raises the error of the write: no Change list
    is returned, the live set is not replaced and no scan summary is
    written.  [monitor_loop] lets the error of its initial scan escape;
    around a later scan it catches the error, logs it and goes on with
    the next iteration. *)
Theorem history_fault_aborts_cycle (env : Env) (obs : Observation)
    (st : NetworkMonitor) :
  match scan_network env obs st with
  | (Ok cs, st') =>
      ∀ k, (log_event_calls st ≤ k < log_event_calls st')%nat →
           history_fault env k = false
  | (Raise e, st') =>
      e = SqliteError ∧
      (∃ k, (log_event_calls st ≤ k < log_event_calls st')%nat ∧
            history_fault env k = true) ∧
      _last_scan_devices st' = _last_scan_devices st ∧
      scan_history (db st') = scan_history (db st) ∧
      loop_step env (ScanCompletes obs) (InitialScan, st) = (Failed e, st') ∧
      loop_step env (ScanCompletes obs) (Scanning, st) =
        next_iteration (snd (log (LogScanError e) st'))
  end.
Proof.
  pose proof (fault_spec_scan_loops env (discover obs) st) as [Hf Hm].
  destruct (scan_network env obs st) as [r st'] eqn:Hrun.
  assert (Hstep1 := eq_refl (loop_step env (ScanCompletes obs) (InitialScan, st))).
  assert (Hstep2 := eq_refl (loop_step env (ScanCompletes obs) (Scanning, st))).
  unfold loop_step at 2, loop_step_of in Hstep1.
  unfold loop_step at 2, loop_step_of in Hstep2.
  rewrite Hrun in Hstep1, Hstep2.
  rewrite scan_network_loops in Hrun. unfold mbind, M_bind in Hrun.
  destruct (scan_loops env (discover obs) st)
    as [[[[[changes cur] n] g]|e] st1] eqn:Hloops; cbn in Hf, Hm.
  - unfold db_log_scan, now, gets, modify, mbind, M_bind, mret, M_ret in Hrun.
    cbn in Hrun. injection Hrun as <- <-. cbn. exact Hm.
  - injection Hrun as <- <-. destruct Hm as (-> & Hk).
    destruct Hf as (Hl & Hs & _). by repeat split.
Qed.

(** C7 as stated fails: with a history table that rejects the write, the
    cycle that sights a new device raises and returns no Change list,
    although the device itself was stored and subscribers were told. *)
Lemma history_fault_escapes_scan :
  let env := {| clock := λ n, Z.of_nat n; history_fault := λ _, true |} in
  let dev := mkDevice "192.168.1.20" "aa:bb:cc:00:11:22" "" "" in
  let st := add_callback (λ _, true) (NetworkMonitor_init empty_db 60 true) in
  let r := scan_network env (arp_only [dev]) st in
  r.1 = Raise SqliteError ∧
  (∀ cs, r.1 ≠ Ok cs) ∧
  is_Some (get_device "aa:bb:cc:00:11:22" (db r.2)) ∧
  length (delivered r.2) = 1%nat ∧
  device_history (db r.2) = [] ∧
  loop_step env (ScanCompletes (arp_only [dev])) (InitialScan, st) =
    (Failed SqliteError, r.2).
Proof.
  intros env dev st r.
  split; [vm_compute; reflexivity|].
  split; [intros cs; vm_compute; discriminate|].
  split; [eexists; vm_compute; reflexivity|].
  split; [vm_compute; reflexivity|].
  split; vm_compute; reflexivity.
Qed.

(* ===================================================================== *)
(** ** stop and the loop *)
(* ===================================================================== *)

Lemma ignores_running_ret {A} (a : A) : ignores_running (mret a).
Proof. by intros b st. Qed.

Lemma ignores_running_bind {A B} (m : M A) (f : A → M B) :
  ignores_running m → (∀ a, ignores_running (f a)) →
  ignores_running (m ≫= f).
Proof.
  intros Hm Hf b st. unfold mbind, M_bind. rewrite Hm.
  destruct (m st) as [[a|e] st1]; cbn; [|done]. apply Hf.
Qed.

Lemma ignores_running_gets {A} (f : NetworkMonitor → A) :
  (∀ b st, f (set_running b st) = f st) → ignores_running (gets f).
Proof. intros Hf b st. unfold gets. cbn. by rewrite Hf. Qed.

Lemma ignores_running_modify f :
  (∀ b st, f (set_running b st) = set_running b (f st)) →
  ignores_running (modify f).
Proof. intros Hf b st. unfold modify. cbn. by rewrite Hf. Qed.

Lemma ignores_running_foldM {A B} (f : A → B → M A) (l : list B) a :
  (∀ a x, ignores_running (f a x)) → ignores_running (foldM f a l).
Proof.
  intros Hf. revert a. induction l as [|x l IH]; intros a; cbn [foldM].
  - apply ignores_running_ret.
  - apply ignores_running_bind; [apply Hf|]. intros. apply IH.
Qed.

Lemma ignores_running_now env : ignores_running (now env).
Proof.
  unfold now. apply ignores_running_bind; [by apply ignores_running_gets|].
  intros n. apply ignores_running_bind; [by apply ignores_running_modify|].
  intros. apply ignores_running_ret.
Qed.

Lemma ignores_running_log line : ignores_running (log line).
Proof.
  unfold log. apply ignores_running_bind; [by apply ignores_running_gets|].
  intros []; [by apply ignores_running_modify|apply ignores_running_ret].
Qed.

Lemma ignores_running_notify change : ignores_running (_notify change).
Proof.
  unfold _notify. apply ignores_running_bind; [by apply ignores_running_gets|].
  intros cbs. apply ignores_running_foldM. intros [] [i cb].
  apply ignores_running_bind; [by apply ignores_running_modify|].
  intros. destruct (cb change);
    [apply ignores_running_ret|apply ignores_running_log].
Qed.

Lemma ignores_running_db_upsert_device env dev :
  ignores_running (db_upsert_device env dev).
Proof.
  unfold db_upsert_device.
  apply ignores_running_bind; [apply ignores_running_now|]. intros t.
  apply ignores_running_bind; [by apply ignores_running_gets|]. intros d.
  destruct (upsert_device t dev d).
  apply ignores_running_bind; [by apply ignores_running_modify|].
  intros. apply ignores_running_ret.
Qed.

Lemma ignores_running_db_log_event env m ev ip_ det :
  ignores_running (db_log_event env m ev ip_ det).
Proof.
  unfold db_log_event.
  apply ignores_running_bind; [by apply ignores_running_gets|]. intros k.
  apply ignores_running_bind; [by apply ignores_running_modify|]. intros _.
  apply ignores_running_bind; [apply ignores_running_now|]. intros t.
  apply ignores_running_bind; [by apply ignores_running_gets|]. intros d.
  destruct (log_event _ _ _ _ _ _ d) as [r d'].
  apply ignores_running_bind; [by apply ignores_running_modify|]. intros _.
  destruct r; [apply ignores_running_ret|]. by intros b st.
Qed.

Lemma ignores_running_emit env {B} ct dev prev m ev ip_ det line
    (k : DeviceChange → M B) :
  (∀ c, ignores_running (k c)) →
  ignores_running
    (change ← new_DeviceChange env ct dev prev;
     _notify change;;
     db_log_event env m ev ip_ det;;
     log line;;
     k change).
Proof.
  intros Hk. apply ignores_running_bind.
  { unfold new_DeviceChange.
    apply ignores_running_bind; [apply ignores_running_now|].
    intros. apply ignores_running_ret. }
  intros c. apply ignores_running_bind; [apply ignores_running_notify|].
  intros _. apply ignores_running_bind; [apply ignores_running_db_log_event|].
  intros _. apply ignores_running_bind; [apply ignores_running_log|].
  intros _. apply Hk.
Qed.

Lemma ignores_running_track_device env acc dev :
  ignores_running (track_device env acc dev).
Proof.
  unfold track_device, track_device_of. destruct acc as [[changes cur] n].
  destruct (negb (truthy (mac dev))); [apply ignores_running_ret|].
  apply ignores_running_bind; [by apply ignores_running_modify|]. intros _.
  apply ignores_running_bind; [by apply ignores_running_gets|].
  intros existing.
  apply ignores_running_bind; [apply ignores_running_db_upsert_device|].
  intros is_new.
  apply ignores_running_bind; [by apply ignores_running_gets|]. intros last.
  destruct is_new.
  { apply ignores_running_emit. intros. apply ignores_running_ret. }
  destruct existing as [row|]; [|apply ignores_running_ret].
  destruct (bool_decide _).
  { apply ignores_running_emit. intros. apply ignores_running_ret. }
  destruct (bool_decide _); [|apply ignores_running_ret].
  apply ignores_running_emit. intros. apply ignores_running_ret.
Qed.

Lemma ignores_running_check_gone env cur acc m :
  ignores_running (check_gone env cur acc m).
Proof.
  unfold check_gone, check_gone_of. destruct acc as [changes g].
  destruct (bool_decide _); [|apply ignores_running_ret].
  apply ignores_running_bind; [by apply ignores_running_gets|].
  intros [row|]; [|apply ignores_running_ret].
  apply ignores_running_emit. intros. apply ignores_running_ret.
Qed.

(** A cycle does not look at the [running] flag. *)
Lemma ignores_running_scan_network env obs :
  ignores_running (scan_network env obs).
Proof.
  unfold scan_network, scan_network_of.
  fold (track_device env). fold (check_gone env). apply ignores_running_bind.
  { apply ignores_running_foldM. intros.
    apply ignores_running_track_device. }
  intros [[changes cur] n].
  apply ignores_running_bind; [by apply ignores_running_gets|]. intros last.
  apply ignores_running_bind.
  { apply ignores_running_foldM. intros.
    apply ignores_running_check_gone. }
  intros [changes2 g].
  apply ignores_running_bind; [by apply ignores_running_modify|]. intros _.
  apply ignores_running_bind.
  { unfold db_log_scan.
    apply ignores_running_bind; [apply ignores_running_now|]. intros t.
    by apply ignores_running_modify. }
  intros _. apply ignores_running_ret.
Qed.

Lemma loop_run_seconds env k j st :
  loop_run env (replicate k Second) (Sleeping (S (k + j)), st) =
  (Sleeping (S j), st).
Proof.
  induction k as [|k IH]; [done|].
  cbn [replicate loop_run foldl]. fold (loop_run env (replicate k Second)).
  unfold loop_step at 1. cbn [loop_step_of Nat.add]. apply IH.
Qed.

Lemma loop_run_app env evs1 evs2 s :
  loop_run env (evs1 ++ evs2) s = loop_run env evs2 (loop_run env evs1 s).
Proof. unfold loop_run. by rewrite foldl_app. Qed.

Lemma next_iteration_stopped st :
  running st = false → next_iteration st = (Left, st).
Proof. unfold next_iteration. by intros ->. Qed.

Lemma log_running line st : running (snd (log line st)) = running st.
Proof.
  unfold log, gets, modify, mbind, M_bind, mret, M_ret. cbn.
  by destruct (verbose st).
Qed.

Lemma loop_step_scan_stopped env obs st :
  (loop_step env (ScanCompletes obs) (Scanning, stop st)).1 = Left.
Proof.
  unfold stop, loop_step. cbn [loop_step_of].
  rewrite (ignores_running_scan_network env obs false st).
  pose proof (scan_network_raises env obs st) as Hraise.
  destruct (scan_network env obs st) as [[cs|e] st']; cbn [fst snd] in *.
  - rewrite next_iteration_stopped; [done|]. by rewrite log_running.
  - rewrite (Hraise e eq_refl). cbn [is_Exception].
    rewrite next_iteration_stopped; [done|]. by rewrite log_running.
Qed.

Lemma loop_run_sleep_out env k st :
  loop_run env (replicate (S k) Second) (Sleeping (S k), st) = (Scanning, st).
Proof.
  replace (S k) with (k + 1)%nat at 1 by lia.
  rewrite replicate_add, loop_run_app.
  replace (Sleeping (S k)) with (Sleeping (S (k + 0))) by (f_equal; lia).
  by rewrite loop_run_seconds.
Qed.

(** C3, as the loop implements it.  [stop] only clears the [running]
    flag.  Called during the sleep, it leaves the loop asleep: after [k]
    more seconds of a sleep that had [k + j + 1] seconds left the loop
    still sleeps, with [j + 1] seconds left; when the sleep has run its
    whole time the loop starts one more cycle, and leaves only when that
    cycle is over.  Called during a cycle, it leaves the cycle running:
    the cycle gives the result it would have given, and the loop leaves
    when it is over. *)
Theorem stop_only_clears_flag (env : Env) (st : NetworkMonitor)
    (obs : Observation) (k j : nat) :
  loop_step env StopCalled (Sleeping (S (k + j)), st) =
    (Sleeping (S (k + j)), stop st) ∧
  loop_run env (StopCalled :: replicate k Second) (Sleeping (S (k + j)), st) =
    (Sleeping (S j), stop st) ∧
  loop_run env (StopCalled :: replicate (S k) Second) (Sleeping (S k), st) =
    (Scanning, stop st) ∧
  (loop_run env (StopCalled :: replicate (S k) Second ++ [ScanCompletes obs])
     (Sleeping (S k), st)).1 = Left ∧
  loop_step env StopCalled (Scanning, st) = (Scanning, stop st) ∧
  scan_network env obs (stop st) =
    ((scan_network env obs st).1, stop (scan_network env obs st).2) ∧
  (loop_run env [StopCalled; ScanCompletes obs] (Scanning, st)).1 = Left.
Proof.
  split; [done|]. split; [|split; [|split; [|split; [done|split]]]].
  - change (loop_run env (StopCalled :: replicate k Second)
              (Sleeping (S (k + j)), st))
      with (loop_run env (replicate k Second) (Sleeping (S (k + j)), stop st)).
    apply loop_run_seconds.
  - change (loop_run env (StopCalled :: replicate (S k) Second)
              (Sleeping (S k), st))
      with (loop_run env (replicate (S k) Second) (Sleeping (S k), stop st)).
    apply loop_run_sleep_out.
  - rewrite app_comm_cons, loop_run_app.
    change (loop_run env (StopCalled :: replicate (S k) Second)
              (Sleeping (S k), st))
      with (loop_run env (replicate (S k) Second) (Sleeping (S k), stop st)).
    rewrite loop_run_sleep_out. apply loop_step_scan_stopped.
  - apply (ignores_running_scan_network env obs false st).
  - apply loop_step_scan_stopped.
Qed.

(** C3 as stated fails: a loop that is stopped at the start of a sleep of
    60 seconds is still asleep 59 seconds later, and after the 60th second
    it runs a whole cycle before it leaves. *)
Lemma stop_does_not_wake_sleep :
  let st := set_running true (NetworkMonitor_init empty_db 60 false) in
  let dev := mkDevice "192.168.1.20" "aa:bb:cc:00:11:22" "" "" in
  next_iteration st = (Sleeping 60, st) ∧
  loop_run steady_env (StopCalled :: replicate 59 Second) (Sleeping 60, st) =
    (Sleeping 1, stop st) ∧
  loop_run steady_env (StopCalled :: replicate 60 Second) (Sleeping 60, st) =
    (Scanning, stop st) ∧
  let s := loop_run steady_env
             (StopCalled :: replicate 60 Second ++ [ScanCompletes (arp_only [dev])])
             (Sleeping 60, st) in
  s.1 = Left ∧ length (scan_history (db s.2)) = 1%nat ∧
  is_Some (get_device "aa:bb:cc:00:11:22" (db s.2)).
Proof.
  intros st dev.
  split; [reflexivity|]. split; [vm_compute; reflexivity|].
  split; [vm_compute; reflexivity|].
  intros s. split; [vm_compute; reflexivity|].
  split; [vm_compute; reflexivity|]. eexists. vm_compute. reflexivity.
Qed.

(* ===================================================================== *)
(** ** The probe gate *)
(* ===================================================================== *)

Lemma count_in_flight_insert (l : list ProbeState) i p q :
  l !! i = Some p →
  (count_in_flight (<[i := q]> l) + (if decide (p = InFlight) then 1 else 0) =
   count_in_flight l + (if decide (q = InFlight) then 1 else 0))%nat.
Proof.
  unfold count_in_flight. revert i.
  induction l as [|x l IH]; intros i Hi; [done|].
  destruct i as [|i]; cbn in Hi.
  - injection Hi as ->. change (<[0%nat:=q]> (p :: l)) with (q :: l).
    rewrite !filter_cons. repeat case_decide; cbn; lia.
  - change (<[S i:=q]> (x :: l)) with (x :: <[i:=q]> l).
    rewrite !filter_cons. specialize (IH i Hi).
    destruct (decide (x = InFlight)); cbn [length]; lia.
Qed.

Lemma count_in_flight_start (targets : list string) :
  count_in_flight ((λ _, Waiting) <$> targets) = 0%nat.
Proof.
  unfold count_in_flight. induction targets as [|t targets IH]; [done|].
  rewrite fmap_cons, filter_cons. by rewrite decide_False.
Qed.

(** Every move keeps the probes in flight and the free permits adding up
    to the same number. *)
Lemma sweep_step_permits ev s s' :
  sweep_step ev s = Some s' →
  (in_flight s' + semaphore s' = in_flight s + semaphore s)%nat.
Proof.
  unfold sweep_step, in_flight. destruct ev as [i|i r].
  - destruct (probes s !! i) as [[| |]|] eqn:Hi; try done.
    destruct (semaphore s) as [|v] eqn:Hv; [done|].
    intros [= <-]. cbn.
    pose proof (count_in_flight_insert _ i Waiting InFlight Hi) as H.
    rewrite decide_False, decide_True in H by done.
    unfold count_in_flight in H. lia.
  - destruct (probes s !! i) as [[| |]|] eqn:Hi; try done.
    intros [= <-]. cbn.
    pose proof (count_in_flight_insert _ i InFlight (Done r) Hi) as H.
    rewrite decide_True, decide_False in H by done.
    unfold count_in_flight in H. lia.
Qed.

Lemma sweep_run_permits evs s s' :
  sweep_run evs s = Some s' →
  (in_flight s' + semaphore s' = in_flight s + semaphore s)%nat.
Proof.
  revert s. induction evs as [|ev evs IH]; intros s; cbn [sweep_run].
  - by intros [= ->].
  - destruct (sweep_step ev s) as [s1|] eqn:E; [|done]. cbn.
    intros H. rewrite (IH _ H). by apply (sweep_step_permits ev).
Qed.

(** C4.  Whatever the scheduler does with the tasks of a sweep started
    with bound [max_concurrent], in every state it reaches the probes in
    flight and the free permits add up to the bound: never more than
    [max_concurrent] probes are in flight. *)
Theorem in_flight_bounded (max_concurrent : nat) (targets : list string)
    (evs : list SweepEvent) (s : Sweep) :
  sweep_run evs (ping_sweep_start max_concurrent targets) = Some s →
  (in_flight s + semaphore s = max_concurrent)%nat ∧
  (in_flight s ≤ max_concurrent)%nat.
Proof.
  intros H. apply sweep_run_permits in H.
  assert (in_flight (ping_sweep_start max_concurrent targets) = 0%nat) as H0
    by apply count_in_flight_start.
  rewrite H0 in H. cbn in H. lia.
Qed.

(** Fifty targets under a bound of ten: once ten probes are in flight the
    eleventh cannot start before one of them is done; and the same sweep
    under the default bound. *)
Lemma in_flight_bounded_witness :
  let targets := (λ n, "10.0.0." +:+ pretty n) <$> seq 1 50 in
  let evs := Acquire <$> seq 0 10 in
  (∃ s, sweep_run evs (ping_sweep_start 10 targets) = Some s ∧
        (in_flight s ≤ 10)%nat ∧
        in_flight s = 10%nat ∧
        sweep_step (Acquire 10) s = None) ∧
  (∃ s, sweep_run evs (ping_sweep_start default_max_concurrent targets) =
          Some s ∧
        (in_flight s ≤ 100)%nat).
Proof.
  intros targets evs. split.
  - destruct (sweep_run evs (ping_sweep_start 10 targets)) as [s|] eqn:E;
      [|vm_compute in E; discriminate].
    exists s. split; [reflexivity|].
    split; [exact (proj2 (in_flight_bounded 10 targets evs s E))|].
    vm_compute in E. injection E as <-. split; vm_compute; reflexivity.
  - destruct (sweep_run evs (ping_sweep_start default_max_concurrent targets))
      as [s|] eqn:E; [|vm_compute in E; discriminate].
    exists s. split; [reflexivity|].
    exact (proj2 (in_flight_bounded default_max_concurrent targets evs s E)).
Defined.

(* ===================================================================== *)
(** ** Target enumeration on bad input *)
(* ===================================================================== *)








(** The scanner on well-formed input, as its documentation shows it. *)
Example expand_cidr_slash_30 :
  let sc := AsyncScanner_init false in
  @expand_cidr ipv4_lib "192.168.1.0/30" true sc =
    (Ok ["192.168.1.1"; "192.168.1.2"], sc) ∧
  @expand_cidr ipv4_lib "192.168.1.0/30" false sc =
    (Ok ["192.168.1.0"; "192.168.1.1"; "192.168.1.2"; "192.168.1.3"], sc).
Proof. split; vm_compute; reflexivity. Qed.

(* ===================================================================== *)
(** * Further properties of the store *)
(* ===================================================================== *)

(** ** Sorting *)

Lemma insert_by_desc_perm {A} (key : A → Z) x (l : list A) :
  insert_by_desc key x l ≡ₚ x :: l.
Proof.
  induction l as [|y l IH]; cbn; [done|].
  destruct (key y <=? key x); [done|].
  rewrite IH. apply Permutation_swap.
Qed.

Lemma ORDER_BY_DESC_perm {A} (key : A → Z) (l : list A) :
  ORDER_BY_DESC key l ≡ₚ l.
Proof.
  induction l as [|x l IH]; cbn; [done|].
  fold (ORDER_BY_DESC key l). by rewrite insert_by_desc_perm, IH.
Qed.

Lemma insert_by_desc_sorted {A} (key : A → Z) x (l : list A) :
  StronglySorted (λ a b, key b ≤ key a) l →
  StronglySorted (λ a b, key b ≤ key a) (insert_by_desc key x l).
Proof.
  induction 1 as [|y l Hl IH Hy]; cbn.
  - repeat constructor.
  - destruct (Z.leb_spec (key y) (key x)).
    + constructor; [by constructor|].
      constructor; [done|]. eapply Forall_impl; [exact Hy|].
      cbn. intros. lia.
    + constructor; [done|].
      rewrite insert_by_desc_perm. constructor; [lia|done].
Qed.

Lemma ORDER_BY_DESC_sorted {A} (key : A → Z) (l : list A) :
  StronglySorted (λ a b, key b ≤ key a) (ORDER_BY_DESC key l).
Proof.
  induction l as [|x l IH]; cbn; [constructor|].
  by apply insert_by_desc_sorted.
Qed.

Lemma insert_by_desc_head {A} (key : A → Z) x (l : list A) :
  Forall (λ y, key y ≤ key x) l → insert_by_desc key x l = x :: l.
Proof.
  destruct 1 as [|y l Hy _]; cbn; [done|].
  destruct (Z.leb_spec (key y) (key x)); [done|lia].
Qed.

(** Filtering commutes with the insertion into a sorted list, so that a
    [WHERE] clause keeps the order [ORDER BY] gives the whole table. *)
Lemma filter_insert_by_desc {A} (P : A → Prop) `{∀ x, Decision (P x)}
    (key : A → Z) x (l : list A) :
  StronglySorted (λ a b, key b ≤ key a) l →
  filter P (insert_by_desc key x l) =
  if decide (P x) then insert_by_desc key x (filter P l) else filter P l.
Proof.
  induction 1 as [|y l Hl IH Hy]; cbn [insert_by_desc].
  - rewrite filter_cons, filter_nil. by destruct (decide (P x)).
  - destruct (Z.leb_spec (key y) (key x)) as [Hle|Hlt].
    + rewrite (filter_cons _ x). destruct (decide (P x)); [|done].
      symmetry. apply insert_by_desc_head.
      apply Forall_forall. intros z Hz.
      apply list_elem_of_filter in Hz as [_ Hz].
      apply elem_of_cons in Hz as [->|Hz]; [done|].
      rewrite Forall_forall in Hy. specialize (Hy z Hz). cbn in Hy. lia.
    + rewrite (filter_cons _ y), IH, (filter_cons _ y l).
      destruct (decide (P y)), (decide (P x)); try done.
      cbn [insert_by_desc].
      destruct (Z.leb_spec (key y) (key x)); [lia|done].
Qed.

Lemma filter_ORDER_BY_DESC {A} (P : A → Prop) `{∀ x, Decision (P x)}
    (key : A → Z) (l : list A) :
  filter P (ORDER_BY_DESC key l) = ORDER_BY_DESC key (filter P l).
Proof.
  induction l as [|x l IH]; [done|].
  change (ORDER_BY_DESC key (x :: l))
    with (insert_by_desc key x (ORDER_BY_DESC key l)).
  rewrite filter_insert_by_desc by apply ORDER_BY_DESC_sorted.
  rewrite filter_cons, IH. by destruct (decide (P x)).
Qed.

Lemma StronglySorted_descending {A} (key : A → Z) (l : list A) :
  StronglySorted (λ a b, key b ≤ key a) l → descending key l.
Proof.
  induction 1 as [|x l Hl IH Hx]; intros i j a b Hij Hi Hj.
  { by rewrite lookup_nil in Hi. }
  destruct j as [|j]; [lia|]. cbn in Hj.
  destruct i as [|i]; cbn in Hi.
  - injection Hi as ->. rewrite Forall_forall in Hx.
    apply Hx. by eapply list_elem_of_lookup_2.
  - apply (IH i j); [lia|done..].
Qed.

Lemma ORDER_BY_DESC_descending {A} (key : A → Z) (l : list A) :
  descending key (ORDER_BY_DESC key l).
Proof. apply StronglySorted_descending, ORDER_BY_DESC_sorted. Qed.

Lemma order_by_timestamp_desc_generic l :
  order_by_timestamp_desc l = ORDER_BY_DESC ev_timestamp l.
Proof.
  unfold order_by_timestamp_desc, ORDER_BY_DESC.
  induction l as [|e l IH]; cbn; [done|]. rewrite IH.
  generalize (foldr (insert_by_desc ev_timestamp) [] l). clear.
  intros k. induction k as [|x k IH]; cbn; [done|]. by rewrite IH.
Qed.

Lemma rows_elem d r : r ∈ rows d ↔ ∃ k, devices d !! k = Some r.
Proof.
  unfold rows. rewrite list_elem_of_fmap. split.
  - intros ([k r'] & -> & H). exists k. by apply elem_of_map_to_list.
  - intros (k & H). exists (k, r). split; [done|].
    by apply elem_of_map_to_list.
Qed.

Lemma rows_length d : length (rows d) = size (devices d).
Proof. unfold rows. by rewrite length_fmap, length_map_to_list. Qed.

Lemma filter_split_length {A} (P : A → bool) (l : list A) :
  (length (filter (λ x, P x = true) l) + length (filter (λ x, P x = false) l)
   = length l)%nat.
Proof.
  induction l as [|x l IH]; [done|]. rewrite !filter_cons.
  destruct (P x) eqn:E.
  - rewrite decide_True, decide_False by done. cbn. lia.
  - rewrite decide_False, decide_True by done. cbn. lia.
Qed.

Lemma filter_length_le' {A} (P : A → Prop) `{∀ x, Decision (P x)} (l : list A) :
  (length (filter P l) ≤ length l)%nat.
Proof.
  induction l as [|x l IH]; [done|]. rewrite filter_cons.
  case_decide; cbn; lia.
Qed.

(** X1.  [get_all_devices] lists exactly the rows of the table, each as
    often as the table holds it, the most recently seen first;
    [get_active_devices] is the list [get_all_devices] returns with the
    rows seen at or before the cutoff struck out: exactly the rows seen
    after the cutoff, in the same order. *)
Theorem get_all_devices_complete_sorted (now since_hours : Z)
    (d : DeviceDatabase) :
  get_all_devices d ≡ₚ rows d ∧
  (∀ r, r ∈ get_all_devices d ↔ ∃ k, devices d !! k = Some r) ∧
  length (get_all_devices d) = size (devices d) ∧
  descending row_last_seen (get_all_devices d) ∧
  get_active_devices now since_hours d =
    filter (λ r, now - 3600 * since_hours < row_last_seen r)
           (get_all_devices d) ∧
  (∀ r, r ∈ get_active_devices now since_hours d ↔
        r ∈ get_all_devices d ∧ now - 3600 * since_hours < row_last_seen r) ∧
  descending row_last_seen (get_active_devices now since_hours d).
Proof.
  unfold get_all_devices, get_active_devices, hours.
  split; [|split; [|split; [|split; [|split; [|split]]]]].
  - apply ORDER_BY_DESC_perm.
  - intros r. by rewrite ORDER_BY_DESC_perm, rows_elem.
  - by rewrite ORDER_BY_DESC_perm, rows_length.
  - apply ORDER_BY_DESC_descending.
  - by rewrite filter_ORDER_BY_DESC.
  - intros r. rewrite !ORDER_BY_DESC_perm, list_elem_of_filter. tauto.
  - apply ORDER_BY_DESC_descending.
Qed.

(** X2.  The statistics agree with the listings: the total is the number
    of rows [get_all_devices] returns, the unknown count is the number
    [get_unknown_devices] returns, known and unknown add up to the total,
    the active count is the number [get_active_devices] returns for 24
    hours, and no count exceeds the total. *)
Theorem get_stats_consistent (now : Z) (d : DeviceDatabase) :
  total_devices (get_stats now d) = length (get_all_devices d) ∧
  unknown_devices (get_stats now d) = length (get_unknown_devices d) ∧
  (known_devices (get_stats now d) + unknown_devices (get_stats now d) =
   total_devices (get_stats now d))%nat ∧
  active_24h (get_stats now d) = length (get_active_devices now 24 d) ∧
  (trusted_devices (get_stats now d) ≤ total_devices (get_stats now d))%nat ∧
  (active_24h (get_stats now d) ≤ total_devices (get_stats now d))%nat ∧
  (events_24h (get_stats now d) ≤ length (device_history d))%nat.
Proof.
  unfold get_stats, get_all_devices, get_unknown_devices, get_active_devices.
  cbn.
  pose proof (filter_split_length row_is_known (rows d)) as Hk.
  repeat split.
  - by rewrite ORDER_BY_DESC_perm.
  - rewrite ORDER_BY_DESC_perm. lia.
  - lia.
  - by rewrite ORDER_BY_DESC_perm.
  - apply filter_length_le'.
  - apply filter_length_le'.
  - apply filter_length_le'.
Qed.

(** ** Marks *)

Lemma alter_missing {A} (f : A → A) (m : gmap string A) k :
  m !! k = None → alter f k m = m.
Proof.
  intros H. apply map_eq. intros j. rewrite lookup_alter.
  case_decide; [subst; by rewrite H|done].
Qed.

Lemma with_devices_id f d : f (devices d) = devices d → with_devices f d = d.
Proof. intros H. unfold with_devices. rewrite H. by destruct d. Qed.

Lemma upsert_rows_marks r us :
  ∃ r', foldl upsert_row (Some r) us = Some r' ∧
        marks r' = marks r ∧ row_mac r' = row_mac r ∧
        row_first_seen r' = row_first_seen r.
Proof.
  induction us as [|[t dev] us IH] using rev_ind; [by exists r|].
  destruct IH as (r1 & H1 & Hm & Hmac & Hf).
  rewrite foldl_app, H1. cbn. eexists. split; [reflexivity|].
  by rewrite <- Hm, <- Hmac, <- Hf.
Qed.

(** X3.  Marking a MAC that has no record stores nothing: the database
    is left as it was, and when the device is upserted afterwards its
    record starts unknown, untrusted and unnamed. *)
Theorem mark_without_record_is_lost (m name : string) (b : bool)
    (d : DeviceDatabase) :
  get_device m d = None →
  mark_known m b d = d ∧ mark_trusted m b d = d ∧
  set_custom_name m name d = d ∧
  ∀ t dev, lower (mac dev) = lower m →
    marks <$> get_device m (snd (upsert_device t dev (mark_known m b d))) =
    Some (false, false, None, None).
Proof.
  intros H. unfold get_device in H.
  assert (mark_known m b d = d) as Hk.
  { unfold mark_known. apply with_devices_id. by apply alter_missing. }
  repeat split.
  - done.
  - unfold mark_trusted. apply with_devices_id. by apply alter_missing.
  - unfold set_custom_name. apply with_devices_id. by apply alter_missing.
  - intros t dev Hm. rewrite Hk, upsert_device_lookup.
    rewrite decide_True by done. unfold get_device. by rewrite H.
Qed.

Lemma mark_without_record_is_lost_witness :
  let m := "AA:BB:CC:00:11:22" in
  mark_known m true empty_db = empty_db ∧
  marks <$> get_device m
    (snd (upsert_device 5 (mkDevice "10.0.0.5" "aa:bb:cc:00:11:22" "" "")
            (mark_known m true empty_db))) =
  Some (false, false, None, None).
Proof.
  intros m.
  destruct (mark_without_record_is_lost m "" true empty_db eq_refl)
    as (H1 & _ & _ & H2).
  split; [exact H1|]. apply H2. reflexivity.
Defined.

(** X4.  Upserts keep what the user set: whatever devices are upserted
    after it, the record of a MAC keeps its known and trusted flags, its
    notes, its custom name, its key and its [first_seen]; in particular a
    mark set by [mark_known], [mark_trusted] or [set_custom_name] on an
    existing record is still there after any sequence of upserts. *)
Theorem marks_survive_upserts (us : list (Z * Device)) (d : DeviceDatabase)
    (m name : string) (b : bool) (r : DeviceRow) :
  get_device m d = Some r →
  (∃ r', get_device m (upsert_all us d) = Some r' ∧
         marks r' = marks r ∧ row_mac r' = row_mac r ∧
         row_first_seen r' = row_first_seen r) ∧
  row_is_known <$> get_device m (upsert_all us (mark_known m b d)) = Some b ∧
  row_is_trusted <$> get_device m (upsert_all us (mark_trusted m b d)) = Some b ∧
  row_custom_name <$> get_device m (upsert_all us (set_custom_name m name d)) =
    Some (Some name).
Proof.
  intros H. split; [|split; [|split]].
  - rewrite upsert_all_lookup, H. apply upsert_rows_marks.
  - rewrite upsert_all_lookup. unfold mark_known, get_device at 1. cbn.
    rewrite lookup_alter, decide_True by done. unfold get_device in H.
    rewrite H. cbn.
    destruct (upsert_rows_marks (set_is_known b r) (upserts_for (lower m) us))
      as (r' & -> & Hm & _). cbn. by injection Hm as -> _ _ _.
  - rewrite upsert_all_lookup. unfold mark_trusted, get_device at 1. cbn.
    rewrite lookup_alter, decide_True by done. unfold get_device in H.
    rewrite H. cbn.
    destruct (upsert_rows_marks (set_is_trusted b r) (upserts_for (lower m) us))
      as (r' & -> & Hm & _). cbn. by injection Hm as _ -> _ _.
  - rewrite upsert_all_lookup. unfold set_custom_name, get_device at 1. cbn.
    rewrite lookup_alter, decide_True by done. unfold get_device in H.
    rewrite H. cbn.
    destruct (upsert_rows_marks (set_row_custom_name name r)
                (upserts_for (lower m) us)) as (r' & -> & Hm & _).
    cbn. by injection Hm as _ _ _ ->.
Qed.

Lemma marks_survive_upserts_witness :
  let m := "aa:bb:cc:00:11:22" in
  let d := snd (upsert_device 1 (mkDevice "10.0.0.5" m "nas" "") empty_db) in
  let us := [(2, mkDevice "10.0.0.6" "AA:BB:CC:00:11:22" "" "Acme");
             (3, mkDevice "10.0.0.7" "aa:bb:cc:00:11:33" "" "")] in
  row_is_known <$> get_device m (upsert_all us (mark_known m true d)) =
    Some true ∧
  row_custom_name <$> get_device m (upsert_all us (set_custom_name m "NAS" d)) =
    Some (Some "NAS").
Proof.
  intros m d us.
  destruct (marks_survive_upserts us d m "NAS" true
              (mkRow m "10.0.0.5" "nas" "" 1 1 false false None None) eq_refl)
    as (_ & H1 & _ & H2).
  split; [exact H1|exact H2].
Defined.

(** ** History *)

Lemma descending_take {A} (key : A → Z) (l : list A) n :
  descending key l → descending key (take n l).
Proof.
  intros H i j x y Hij Hi Hj.
  apply lookup_take_Some in Hi as [Hi _], Hj as [Hj _]. by apply (H i j).
Qed.

Lemma LIMIT_elem {A} (n : Z) (l : list A) x : x ∈ LIMIT n l → x ∈ l.
Proof.
  unfold LIMIT. destruct (n <? 0); [done|].
  intros H. apply list_elem_of_lookup in H as [i H].
  apply lookup_take_Some in H as [H _]. by eapply list_elem_of_lookup_2.
Qed.

(** X5.  [get_device_history] returns only events logged for that MAC
    (in lowercase), the latest first, and at most [limit] of them; a
    negative limit returns them all. *)
Theorem get_device_history_sound (m : string) (limit : Z)
    (d : DeviceDatabase) :
  (∀ e, e ∈ get_device_history m limit d →
        ev_mac e = lower m ∧ e ∈ device_history d) ∧
  descending ev_timestamp (get_device_history m limit d) ∧
  (if limit <? 0
   then get_device_history m limit d ≡ₚ
        filter (λ e, ev_mac e = lower m) (device_history d)
   else (length (get_device_history m limit d) ≤ Z.to_nat limit)%nat).
Proof.
  unfold get_device_history. rewrite order_by_timestamp_desc_generic.
  split; [|split].
  - intros e He. apply LIMIT_elem in He.
    rewrite ORDER_BY_DESC_perm in He.
    apply list_elem_of_filter in He. tauto.
  - unfold LIMIT. destruct (limit <? 0).
    + apply ORDER_BY_DESC_descending.
    + apply descending_take, ORDER_BY_DESC_descending.
  - unfold LIMIT. destruct (limit <? 0).
    + apply ORDER_BY_DESC_perm.
    + rewrite length_take. lia.
Qed.

Lemma head_LIMIT {A} (n : Z) (l : list A) : n ≠ 0 → head (LIMIT n l) = head l.
Proof.
  intros Hn. unfold LIMIT. destruct (Z.ltb_spec n 0); [done|].
  destruct (Z.to_nat n) as [|k] eqn:E; [lia|]. by destruct l.
Qed.

Lemma descending_head_max {A} (key : A → Z) (l : list A) x y :
  descending key l → head l = Some x → y ∈ l → key y ≤ key x.
Proof.
  intros Hd Hx Hy. apply list_elem_of_lookup in Hy as [j Hj].
  destruct l as [|x' l]; [done|]. injection Hx as ->.
  destruct j as [|j]; [injection Hj as ->; lia|].
  apply (Hd 0%nat (S j)); [lia|done..].
Qed.

Lemma get_device_history_descending m limit d :
  descending ev_timestamp (get_device_history m limit d).
Proof.
  unfold get_device_history. rewrite order_by_timestamp_desc_generic.
  unfold LIMIT. destruct (limit <? 0).
  - apply ORDER_BY_DESC_descending.
  - apply descending_take, ORDER_BY_DESC_descending.
Qed.

Lemma get_device_history_LIMIT m limit d :
  get_device_history m limit d = LIMIT limit (get_device_history m (-1) d).
Proof. done. Qed.

Lemma get_device_history_sorted_head m d' d e limit :
  limit ≠ 0 →
  get_device_history m (-1) d' ≡ₚ e :: get_device_history m (-1) d →
  (∀ e', e' ∈ get_device_history m (-1) d → ev_timestamp e' < ev_timestamp e) →
  head (get_device_history m limit d') = Some e.
Proof.
  intros Hlimit Hperm Hlater.
  rewrite get_device_history_LIMIT, head_LIMIT by done.
  destruct (head (get_device_history m (-1) d')) as [h|] eqn:Hh.
  - assert (h ∈ e :: get_device_history m (-1) d) as Hin.
    { rewrite <- Hperm. destruct (get_device_history m (-1) d'); [done|].
      injection Hh as ->. apply elem_of_cons. auto. }
    apply elem_of_cons in Hin as [->|Hin]; [done|].
    assert (e ∈ get_device_history m (-1) d') as He.
    { rewrite Hperm. apply elem_of_cons. auto. }
    pose proof (descending_head_max ev_timestamp _ h e
                  (get_device_history_descending m (-1) d') Hh He).
    specialize (Hlater h Hin). lia.
  - apply head_None in Hh. rewrite Hh in Hperm.
    by apply Permutation_nil_cons in Hperm.
Qed.

(** X6.  A history write that succeeds adds exactly its event to the
    history of its MAC, leaves the history of every other MAC and the
    [devices] table as they were, and, when its timestamp is later than
    those already logged for the MAC, is the first event
    [get_device_history] returns.  A write that fails changes nothing. *)
Theorem log_event_then_history (t : Z) (m event_type ip_ details : string)
    (limit : Z) (d : DeviceDatabase) :
  let e := {| ev_mac := lower m; ev_ip := ip_; ev_event_type := event_type;
              ev_timestamp := t; ev_details := details |} in
  let d' := snd (log_event false t m event_type ip_ details d) in
  fst (log_event false t m event_type ip_ details d) = Ok tt ∧
  devices d' = devices d ∧
  get_device_history m (-1) d' ≡ₚ e :: get_device_history m (-1) d ∧
  (∀ m', lower m' ≠ lower m →
         get_device_history m' limit d' = get_device_history m' limit d) ∧
  (limit ≠ 0 →
   (∀ e', e' ∈ get_device_history m (-1) d → ev_timestamp e' < t) →
   head (get_device_history m limit d') = Some e) ∧
  log_event true t m event_type ip_ details d = (Raise SqliteError, d).
Proof.
  intros e d'. unfold d', log_event. cbn [fst snd].
  assert (Hperm : get_device_history m (-1)
            {| devices := devices d;
               device_history := device_history d ++ [e];
               scan_history := scan_history d |}
          ≡ₚ e :: get_device_history m (-1) d).
  { unfold get_device_history, LIMIT. cbn.
    rewrite !order_by_timestamp_desc_generic, !ORDER_BY_DESC_perm.
    rewrite filter_app, filter_cons, filter_nil, decide_True by done.
    by rewrite Permutation_app_comm. }
  split; [done|]. split; [done|]. split; [exact Hperm|].
  split; [|split; [|done]].
  - intros m' Hm'. unfold get_device_history. cbn.
    rewrite filter_app, filter_cons, filter_nil.
    rewrite decide_False by (cbn; congruence). by rewrite app_nil_r.
  - intros Hlimit Hlater.
    by apply (get_device_history_sorted_head m _ d).
Qed.

(* ===================================================================== *)
(** * Further properties of the monitor *)
(* ===================================================================== *)

(** ** What each step leaves behind *)

Lemma quiet_refl st : quiet st st.
Proof. split; [apply same_core_refl|done]. Qed.

Lemma quiet_trans st1 st2 st3 : quiet st1 st2 → quiet st2 st3 → quiet st1 st3.
Proof.
  intros (H1 & H2 & H3) (H4 & H5 & H6).
  split; [by eapply same_core_trans|]. split; congruence.
Qed.

Lemma effects_refl st : effects st st [] [] 0.
Proof.
  unfold effects. rewrite !app_nil_r, Nat.add_0_r.
  repeat split; try done.
Qed.

Lemma effects_trans st1 st2 st3 e1 e2 d1 d2 c1 c2 :
  effects st1 st2 e1 d1 c1 → effects st2 st3 e2 d2 c2 →
  effects st1 st3 (e1 ++ e2) (d1 ++ d2) (c1 + c2).
Proof.
  intros (H1 & H2 & H3 & H4 & H5) (H6 & H7 & H8 & H9 & H10).
  unfold effects. rewrite H6, H1, H7, H2, H8, H3, H9, H4.
  rewrite !(assoc_L (++)). repeat split; try done; try lia.
  - destruct H5 as (?&?&?&?&?), H10 as (?&?&?&?&?). congruence.
  - destruct H5 as (?&?&?&?&?), H10 as (?&?&?&?&?). congruence.
  - destruct H5 as (?&?&?&?&?), H10 as (?&?&?&?&?). congruence.
  - destruct H5 as (?&?&?&?&?), H10 as (?&?&?&?&?). congruence.
  - destruct H5 as (?&?&?&?&?), H10 as (?&?&?&?&?). congruence.
Qed.

Lemma quiet_effects st st' : quiet st st' → effects st st' [] [] 0.
Proof.
  intros ((Hd & Hl & Hc & Hr & Hi & Hv & Hcb) & _ & Hdl).
  unfold effects. rewrite Hd, Hdl, Hc, !app_nil_r, Nat.add_0_r.
  by repeat split.
Qed.

Lemma wp_now_quiet env st : wp (now env) (λ _ st', quiet st st') st.
Proof.
  unfold now. apply wp_bind, wp_gets, wp_bind, wp_modify, wp_ret.
  by repeat split.
Qed.

Lemma wp_log_quiet line st : wp (log line) (λ _ st', quiet st st') st.
Proof.
  unfold log. apply wp_bind, wp_gets. destruct (verbose st) eqn:E.
  - apply wp_modify. by repeat split.
  - apply wp_ret, quiet_refl.
Qed.

Lemma wp_notify_loop_exact change (l : list (nat * Callback)) u st :
  wp (foldM (λ (_ : unit) '(i, cb),
               modify (λ st, set_delivered (delivered st ++ [(i, change)]) st);;
               if (cb : Callback) change then mret tt
               else log (LogCallbackError i)) u l)
     (λ _ st', same_core st st' ∧
               _current_devices st' = _current_devices st ∧
               delivered st' = delivered st ++ ((λ p, (p.1, change)) <$> l)) st.
Proof.
  revert u st. induction l as [|[i cb] l IH]; intros u st; cbn [foldM].
  - apply wp_ret. rewrite app_nil_r. split; [apply same_core_refl|done].
  - apply wp_bind, wp_bind, wp_modify.
    set (st1 := set_delivered _ st).
    assert (∀ st2, quiet st1 st2 →
              wp (foldM (λ (_ : unit) '(i, cb),
                    modify (λ st, set_delivered (delivered st ++ [(i, change)]) st);;
                    if (cb : Callback) change then mret tt
                    else log (LogCallbackError i)) tt l)
                (λ _ st', same_core st st' ∧
                   _current_devices st' = _current_devices st ∧
                   delivered st' =
                   delivered st ++ ((λ p, (p.1, change)) <$> (i, cb) :: l)) st2)
      as Hrest.
    { intros st2 (Hc2 & Hcur2 & Hd2). eapply wp_mono; [apply IH|].
      intros ? st' (Hc & Hcur & Hd). cbn beta in *.
      split; [|split].
      - eapply same_core_trans; [|exact Hc].
        eapply same_core_trans; [|exact Hc2]. by repeat split.
      - by rewrite Hcur, Hcur2.
      - rewrite Hd, Hd2. cbn. by rewrite <- (assoc_L (++)). }
    destruct (cb change).
    + apply wp_ret. apply Hrest, quiet_refl.
    + eapply wp_mono; [apply wp_log_quiet|]. intros [] st2 H2. by apply Hrest.
Qed.

Lemma imap_index_seq {A B} (l : list A) (c : B) k :
  (λ p, (p.1, c)) <$> imap (λ i (x : A), ((k + i)%nat, x)) l =
  (λ i, (i, c)) <$> seq k (length l).
Proof.
  revert k. induction l as [|x l IH]; intros k; [done|].
  cbn. rewrite Nat.add_0_r. f_equal. rewrite <- IH.
  f_equal. apply imap_ext. intros i y _. cbn. f_equal. lia.
Qed.

(** [_notify] hands the change to every subscriber, in registration
    order, whether or not one of them raises, and touches nothing else
    but the console. *)
Lemma wp_notify_exact change st :
  wp (_notify change)
     (λ _ st', same_core st st' ∧
               _current_devices st' = _current_devices st ∧
               delivered st' =
               delivered st ++ one_delivery (callbacks st) change) st.
Proof.
  unfold _notify. apply wp_bind, wp_gets.
  eapply wp_mono; [apply wp_notify_loop_exact|].
  intros ? st' (H1 & H2 & H3). split; [done|]. split; [done|].
  rewrite H3. unfold one_delivery.
  by rewrite <- (imap_index_seq (callbacks st) change 0).
Qed.

Lemma upsert_device_tables t dev d :
  device_history (snd (upsert_device t dev d)) = device_history d ∧
  scan_history (snd (upsert_device t dev d)) = scan_history d.
Proof. unfold upsert_device. by destruct (get_device _ d). Qed.

Lemma wp_db_upsert_device_exact env dev st :
  wp (db_upsert_device env dev)
     (λ b st', (∃ t, (b, db st') = upsert_device t dev (db st)) ∧
               effects st st' [] [] 0 ∧
               _current_devices st' = _current_devices st) st.
Proof.
  unfold db_upsert_device. apply wp_bind.
  eapply wp_mono; [apply wp_now_quiet|]. intros t st1 H1. cbn beta in H1.
  apply wp_bind, wp_gets.
  destruct (upsert_device t dev (db st1)) as [b d'] eqn:E.
  apply wp_bind, wp_modify, wp_ret.
  pose proof (quiet_effects _ _ H1) as (He1 & He2 & He3 & He4 & He5).
  destruct H1 as ((Hdb & _) & Hcur & _).
  pose proof (upsert_device_tables t dev (db st1)) as [Hh Hs].
  rewrite E in Hh, Hs. cbn in Hh, Hs. split; [|split].
  - exists t. cbn. by rewrite <- Hdb, E.
  - unfold effects. cbn. rewrite Hh, Hs. by repeat split; try apply He5.
  - done.
Qed.

Lemma wp_db_log_event_exact env m ev ip_ det st :
  no_faults env →
  wp (db_log_event env m ev ip_ det)
     (λ _ st', ∃ t,
        effects st st'
          [{| ev_mac := lower m; ev_ip := ip_; ev_event_type := ev;
              ev_timestamp := t; ev_details := det |}] [] 1 ∧
        devices (db st') = devices (db st) ∧
        _current_devices st' = _current_devices st) st.
Proof.
  intros NF. unfold db_log_event. apply wp_bind, wp_gets, wp_bind, wp_modify.
  set (st1 := set_log_event_calls _ st).
  apply wp_bind. eapply wp_mono; [apply wp_now_quiet|].
  intros t st2 H2. cbn beta in H2.
  apply wp_bind, wp_gets. unfold log_event. rewrite NF.
  apply wp_bind, wp_modify, wp_ret. exists t.
  destruct H2 as ((Hdb & Hl & Hc & Hr & Hi & Hv & Hcb) & Hcur & Hdl).
  unfold effects, same_frame. cbn. rewrite Hdb, Hdl, Hc, Hcur. cbn.
  rewrite app_nil_r, Nat.add_1_r. by repeat split.
Qed.

(** The four steps of reporting a change, with all they leave behind. *)
Lemma wp_emit_exact {B} env ct dev prev m ev ip_ det line
    (k : DeviceChange → M B) Q st :
  no_faults env →
  (∀ c st' t,
     change_type c = ct → device c = dev → previous_state c = prev →
     effects st st'
       [{| ev_mac := lower m; ev_ip := ip_; ev_event_type := ev;
           ev_timestamp := t; ev_details := det |}]
       (one_delivery (callbacks st) c) 1 →
     devices (db st') = devices (db st) →
     _current_devices st' = _current_devices st →
     wp (k c) Q st') →
  wp (change ← new_DeviceChange env ct dev prev;
      _notify change;;
      db_log_event env m ev ip_ det;;
      log line;;
      k change) Q st.
Proof.
  intros NF Hk. apply wp_bind. unfold new_DeviceChange. apply wp_bind.
  eapply wp_mono; [apply wp_now_quiet|]. intros t0 st1 H1. cbn beta in H1.
  apply wp_ret. apply wp_bind.
  eapply wp_mono; [apply wp_notify_exact|].
  intros ? st2 (H2 & H2c & H2d). apply wp_bind.
  eapply wp_mono; [by apply wp_db_log_event_exact|].
  intros ? st3 (t & H3 & H3d & H3c). apply wp_bind.
  eapply wp_mono; [apply wp_log_quiet|]. intros ? st4 H4. cbn beta in H4.
  apply (Hk _ st4 t); try done.
  - pose proof (quiet_effects _ _ H1) as E1.
    assert (effects st1 st2 []
              (one_delivery (callbacks st)
                 {| change_type := ct; device := dev; previous_state := prev;
                    timestamp := t0 |}) 0) as E2.
    { destruct H2 as (Hdb & Hl & Hc & Hr & Hi & Hv & Hcb).
      destruct H1 as ((_ & _ & _ & _ & _ & _ & Hcb1) & _).
      unfold effects, same_frame. rewrite Hdb, H2d, Hc, app_nil_r, Hcb1.
      rewrite Nat.add_0_r. repeat split; congruence. }
    pose proof (quiet_effects _ _ H4) as E4.
    pose proof (effects_trans _ _ _ _ _ _ _ _ _
                  (effects_trans _ _ _ _ _ _ _ _ _
                     (effects_trans _ _ _ _ _ _ _ _ _ E1 E2) H3) E4) as E.
    cbn in E. by rewrite !app_nil_r in E.
  - destruct H1 as ((Hdb1 & _) & _), H2 as (Hdb2 & _),
      H4 as ((Hdb4 & _) & _). by rewrite Hdb4, H3d, Hdb2, Hdb1.
  - destruct H1 as (_ & Hc1 & _), H4 as (_ & Hc4 & _).
    by rewrite Hc4, H3c, H2c, Hc1.
Qed.
Lemma wp_and {A} (m : M A) (P Q : A → NetworkMonitor → Prop) st :
  wp m P st → wp m Q st → wp m (λ a st', P a st' ∧ Q a st') st.
Proof.
  intros (a & st' & E & HP) (a' & st'' & E' & HQ).
  rewrite E in E'. injection E' as <- <-. by exists a, st'.
Qed.

Lemma upsert_device_devices t dev d1 d2 :
  devices d1 = devices d2 →
  devices (upsert_device t dev d1).2 = devices (upsert_device t dev d2).2.
Proof.
  intros H. unfold upsert_device, get_device. rewrite H.
  destruct (devices d2 !! _); cbn; by rewrite H.
Qed.

Lemma upsert_all_devices us d1 d2 :
  devices d1 = devices d2 →
  devices (upsert_all us d1) = devices (upsert_all us d2).
Proof.
  induction us as [|u us IH] using rev_ind; intros H; [done|].
  rewrite !upsert_all_snoc. apply upsert_device_devices. by apply IH.
Qed.

Lemma upsert_all_app us1 us2 d :
  upsert_all (us1 ++ us2) d = upsert_all us2 (upsert_all us1 d).
Proof. unfold upsert_all. by rewrite foldl_app. Qed.

Lemma tracked_app l1 l2 : tracked (l1 ++ l2) = tracked l1 ++ tracked l2.
Proof. unfold tracked. by rewrite filter_app. Qed.

Lemma track_current_app cur l1 l2 :
  track_current cur (l1 ++ l2) = track_current (track_current cur l1) l2.
Proof. unfold track_current. by rewrite foldl_app. Qed.

Lemma deliveries_app cbs cs1 cs2 :
  deliveries cbs (cs1 ++ cs2) = deliveries cbs cs1 ++ deliveries cbs cs2.
Proof. unfold deliveries. by rewrite bind_app. Qed.

Lemma count_type_app ct cs1 cs2 :
  count_type ct (cs1 ++ cs2) = (count_type ct cs1 + count_type ct cs2)%nat.
Proof. unfold count_type. by rewrite filter_app, length_app. Qed.

Lemma cycle_effects_refl st : cycle_effects st st [] [].
Proof. exists [], []. repeat split; by rewrite ?app_nil_r. Qed.

Lemma cycle_effects_trans st1 st2 st3 devs1 devs2 em1 em2 :
  cycle_effects st1 st2 devs1 em1 →
  cycle_effects st2 st3 devs2 em2 →
  cycle_effects st1 st3 (devs1 ++ devs2) (em1 ++ em2).
Proof.
  intros (evs1 & us1 & E1 & S1 & U1 & D1 & C1)
         (evs2 & us2 & E2 & S2 & U2 & D2 & C2).
  exists (evs1 ++ evs2), (us1 ++ us2).
  assert (callbacks st2 = callbacks st1) as Hcb by apply E1.
  rewrite Hcb in E2. split; [|split; [|split; [|split]]].
  - rewrite deliveries_app, length_app. by eapply effects_trans.
  - by rewrite !fmap_app, S1, S2.
  - by rewrite fmap_app, U1, U2, tracked_app.
  - rewrite D2, upsert_all_app. by apply upsert_all_devices.
  - by rewrite C2, C1, track_current_app.
Qed.

(** One sighting with a MAC, from the upsert on: what is left behind when
    the rest of the iteration added [evs], [dl] and [k] history writes. *)
Lemma cycle_effects_sighting st st2 st' dev t b emitted evs :
  truthy (mac dev) = true →
  (b, db st2) =
    upsert_device t dev
      (db (set_current_devices
             (<[lower (mac dev) := dev]> (_current_devices st)) st)) →
  effects (set_current_devices
             (<[lower (mac dev) := dev]> (_current_devices st)) st) st2 [] [] 0 →
  _current_devices st2 = <[lower (mac dev) := dev]> (_current_devices st) →
  effects st2 st' evs (deliveries (callbacks st2) emitted) (length emitted) →
  devices (db st') = devices (db st2) →
  _current_devices st' = _current_devices st2 →
  ev_summary <$> evs = event_of <$> emitted →
  cycle_effects st st' [dev] emitted.
Proof.
  intros Ht Hup E2 C2 E3 D3 C3 Hs.
  exists evs, [(t, dev)].
  pose proof (effects_trans _ _ _ _ _ _ _ _ _ E2 E3) as E.
  assert (callbacks st2 = callbacks st) as Hcb by apply E2.
  rewrite Hcb in E. cbn in E.
  split; [|split; [done|split; [|split]]].
  - exact E.
  - unfold tracked. rewrite filter_cons, filter_nil.
    apply truthy_true in Ht. by rewrite decide_True.
  - rewrite D3. unfold upsert_all. cbn [foldl]. cbn [db set_current_devices] in Hup.
    by rewrite <- Hup.
  - rewrite C3, C2. unfold track_current. cbn. by rewrite Ht.
Qed.

Lemma deliveries_one cbs c : deliveries cbs [c] = one_delivery cbs c.
Proof. unfold deliveries. cbn. by rewrite app_nil_r. Qed.

Lemma wp_track_device_exact env changes cur n dev st :
  no_faults env →
  wp (track_device env (changes, cur, n) dev)
     (λ acc st',
        ∃ emitted,
          acc.1.1 = changes ++ emitted ∧
          acc.2 = (n + count_type new emitted)%nat ∧
          Forall (λ c, device c = dev ∧ change_type c ≠ gone) emitted ∧
          cycle_effects st st' [dev] emitted) st.
Proof.
  intros NF. unfold track_device, track_device_of.
  destruct (truthy (mac dev)) eqn:Et; cbn [negb].
  2:{ apply wp_ret. exists []. cbn. rewrite app_nil_r, Nat.add_0_r.
      split; [done|]. split; [done|]. split; [done|].
      exists [], []. repeat split; rewrite ?app_nil_r; try done.
      - unfold tracked. rewrite filter_cons, filter_nil.
        apply truthy_false in Et. by rewrite decide_False by auto.
      - unfold track_current. cbn. by rewrite Et. }
  set (m := lower (mac dev)).
  apply wp_bind, wp_modify. set (st1 := set_current_devices _ st).
  apply wp_bind. eapply wp_mono; [apply wp_db_get_device|].
  intros existing ? [-> ->].
  apply wp_bind. eapply wp_mono; [apply wp_db_upsert_device_exact|].
  intros is_new st2 ([t Hup] & E2 & C2). apply wp_bind, wp_gets.
  assert (Hlast : _last_scan_devices st2 = _last_scan_devices st).
  { by destruct E2 as (_ & _ & _ & _ & -> & _). }
  assert (Hcb : callbacks st2 = callbacks st) by apply E2.
  assert (Hfin : ∀ c st' evs n',
            device c = dev → change_type c ≠ gone →
            n' = (n + count_type new [c])%nat →
            effects st2 st' evs (one_delivery (callbacks st2) c) 1 →
            ev_summary <$> evs = [event_of c] →
            devices (db st') = devices (db st2) →
            _current_devices st' = _current_devices st2 →
            wp (mret (changes ++ [c], {[m]} ∪ cur, n'))
              (λ (acc : list DeviceChange * gset string * nat) st'0,
                 ∃ emitted, acc.1.1 = changes ++ emitted ∧
                   acc.2 = (n + count_type new emitted)%nat ∧
                   Forall (λ c, device c = dev ∧ change_type c ≠ gone) emitted ∧
                   cycle_effects st st'0 [dev] emitted) st').
  { intros c st' evs n' Hdev Hct -> E3 Hs D3 C3. apply wp_ret. exists [c].
    split; [done|]. split; [done|]. split; [by repeat constructor|].
    eapply (cycle_effects_sighting st st2 st' dev t is_new [c] evs);
      try done. by rewrite deliveries_one. }
  assert (Hnone : wp (mret (changes, {[m]} ∪ cur, n))
              (λ (acc : list DeviceChange * gset string * nat) st'0,
                 ∃ emitted, acc.1.1 = changes ++ emitted ∧
                   acc.2 = (n + count_type new emitted)%nat ∧
                   Forall (λ c, device c = dev ∧ change_type c ≠ gone) emitted ∧
                   cycle_effects st st'0 [dev] emitted) st2).
  { apply wp_ret. exists []. cbn. rewrite app_nil_r, Nat.add_0_r.
    split; [done|]. split; [done|]. split; [done|].
    eapply (cycle_effects_sighting st st2 st2 dev t is_new [] []);
      try done. apply effects_refl. }
  destruct is_new.
  - apply wp_emit_exact; [done|]. intros c st' t' Hct Hdev Hprev E3 D3 C3.
    eapply Hfin; try done.
    + by rewrite Hct.
    + unfold count_type. rewrite filter_cons, filter_nil.
      rewrite decide_True by done. cbn. lia.
    + cbn. unfold ev_summary, event_of, change_mac. cbn.
      rewrite Hct, Hdev. unfold m. by rewrite lower_idemp.
  - change (db st1) with (db st).
    destruct (get_device m (db st)) as [row|] eqn:Hex; [|exact Hnone].
    rewrite Hlast.
    destruct (bool_decide (m ∉ _last_scan_devices st)) eqn:Hin.
    + apply wp_emit_exact; [done|]. intros c st' t' Hct Hdev Hprev E3 D3 C3.
      eapply Hfin; try done.
      * by rewrite Hct.
      * unfold count_type. rewrite filter_cons, filter_nil.
        rewrite decide_False by (by rewrite Hct). cbn. lia.
      * cbn. unfold ev_summary, event_of, change_mac. cbn.
        rewrite Hct, Hdev. unfold m. by rewrite lower_idemp.
    + destruct (bool_decide (row_ip row ≠ ip dev)) eqn:Hip; [|exact Hnone].
      apply wp_emit_exact; [done|]. intros c st' t' Hct Hdev Hprev E3 D3 C3.
      eapply Hfin; try done.
      * by rewrite Hct.
      * unfold count_type. rewrite filter_cons, filter_nil.
        rewrite decide_False by (by rewrite Hct). cbn. lia.
      * cbn. unfold ev_summary, event_of, change_mac. cbn.
        rewrite Hct, Hdev, Hprev. unfold m. by rewrite lower_idemp.
Qed.

Lemma wp_check_gone_exact env cur changes g m st :
  no_faults env →
  wp (check_gone env cur (changes, g) m)
     (λ acc st',
        ∃ emitted,
          acc.1 = changes ++ emitted ∧
          acc.2 = (g + length (filter (λ m', m' ∉ cur) [m]))%nat ∧
          Forall (λ c, change_type c = gone) emitted ∧
          (λ c, mac (device c)) <$> emitted =
            filter (λ m', is_Some (get_device m' (db st)))
                   (filter (λ m', m' ∉ cur) [m]) ∧
          cycle_effects st st' [] emitted) st.
Proof.
  intros NF. unfold check_gone, check_gone_of. rewrite !(filter_cons _ m []), !filter_nil.
  destruct (bool_decide (m ∉ cur)) eqn:Hm.
  2:{ apply bool_decide_eq_false in Hm. rewrite decide_False by done.
      apply wp_ret. exists []. cbn. rewrite app_nil_r, Nat.add_0_r.
      repeat split; try done. apply cycle_effects_refl. }
  apply bool_decide_eq_true in Hm. rewrite decide_True by done.
  rewrite filter_cons, filter_nil.
  apply wp_bind. eapply wp_mono; [apply wp_db_get_device|].
  intros existing ? [-> ->].
  destruct (get_device m (db st)) as [row|] eqn:Hex.
  - rewrite decide_True by done.
    apply wp_emit_exact; [done|]. intros c st' t' Hct Hdev Hprev E3 D3 C3.
    apply wp_ret. exists [c]. cbn.
    split; [done|]. split; [lia|]. split; [by constructor|].
    split; [by rewrite Hdev|].
    eexists _, []. split; [by rewrite deliveries_one|].
    split; [|by repeat split].
    cbn. unfold ev_summary, event_of, change_mac. cbn.
    by rewrite Hct, Hdev.
  - rewrite decide_False by (by intros [? ?]).
    apply wp_ret. exists []. cbn. rewrite app_nil_r.
    split; [done|]. split; [lia|]. split; [done|]. split; [done|].
    apply cycle_effects_refl.
Qed.

Lemma cycle_effects_nil_devices st st' emitted :
  cycle_effects st st' [] emitted → devices (db st') = devices (db st).
Proof.
  intros (evs & us & _ & _ & Hus & Hd & _).
  apply fmap_nil_inv in Hus. by subst us.
Qed.

Lemma wp_track_devices_exact env devs changes cur n st :
  no_faults env →
  wp (foldM (track_device env) (changes, cur, n) devs)
     (λ acc st',
        ∃ emitted,
          acc.1.1 = changes ++ emitted ∧
          acc.2 = (n + count_type new emitted)%nat ∧
          Forall (λ c, device c ∈ devs ∧ change_type c ≠ gone) emitted ∧
          cycle_effects st st' devs emitted) st.
Proof.
  intros NF. revert changes cur n st.
  induction devs as [|dev devs IH]; intros changes cur n st; cbn [foldM].
  - apply wp_ret. exists []. cbn. rewrite app_nil_r, Nat.add_0_r.
    repeat split; try done. apply cycle_effects_refl.
  - apply wp_bind. eapply wp_mono; [by apply wp_track_device_exact|].
    intros [[changes1 cur1] n1] st1 (em1 & Hc1 & Hn1 & F1 & E1).
    cbn [fst snd] in Hc1, Hn1. subst changes1 n1.
    eapply wp_mono; [apply IH|].
    intros [[changes2 cur2] n2] st2 (em2 & Hc2 & Hn2 & F2 & E2).
    cbn [fst snd] in Hc2, Hn2 |- *. subst changes2 n2.
    exists (em1 ++ em2). rewrite count_type_app.
    split; [by rewrite (assoc_L (++))|]. split; [lia|]. split.
    + apply Forall_app. split.
      * eapply Forall_impl; [exact F1|]. intros c [-> ?].
        split; [apply list_elem_of_here|done].
      * eapply Forall_impl; [exact F2|]. intros c [? ?].
        split; [by apply list_elem_of_further|done].
    + by apply (cycle_effects_trans st st1 st2 [dev] devs).
Qed.

Lemma wp_check_gone_loop_exact env cur (l : list string) changes g st :
  no_faults env →
  wp (foldM (check_gone env cur) (changes, g) l)
     (λ acc st',
        ∃ emitted,
          acc.1 = changes ++ emitted ∧
          acc.2 = (g + length (filter (λ m', m' ∉ cur) l))%nat ∧
          Forall (λ c, change_type c = gone) emitted ∧
          (λ c, mac (device c)) <$> emitted =
            filter (λ m', is_Some (get_device m' (db st)))
                   (filter (λ m', m' ∉ cur) l) ∧
          cycle_effects st st' [] emitted) st.
Proof.
  intros NF. revert changes g st.
  induction l as [|m l IH]; intros changes g st; cbn [foldM].
  - apply wp_ret. exists []. cbn. rewrite app_nil_r, Nat.add_0_r.
    repeat split; try done. apply cycle_effects_refl.
  - apply wp_bind. eapply wp_mono; [by apply wp_check_gone_exact|].
    intros [changes1 g1] st1 (em1 & Hc1 & Hn1 & F1 & M1 & E1).
    cbn [fst snd] in Hc1, Hn1. subst changes1 g1.
    eapply wp_mono; [apply IH|].
    intros [changes2 g2] st2 (em2 & Hc2 & Hn2 & F2 & M2 & E2).
    cbn [fst snd] in Hc2, Hn2 |- *. subst changes2 g2.
    exists (em1 ++ em2).
    split; [by rewrite (assoc_L (++))|]. split.
    { rewrite (filter_cons _ m l). rewrite filter_cons, filter_nil.
      destruct (decide (m ∉ cur)); cbn; lia. }
    split; [by apply Forall_app|]. split.
    + rewrite fmap_app, M1, M2.
      change (m :: l) with ([m] ++ l). rewrite !filter_app. f_equal.
      unfold get_device. by rewrite (cycle_effects_nil_devices _ _ _ E1).
    + by apply (cycle_effects_trans st st1 st2 [] [] em1 em2).
Qed.

Lemma wp_db_log_scan_exact env a b c st :
  wp (db_log_scan env a b c)
     (λ _ st', ∃ t, db st' = log_scan t a b c (db st) ∧
        _last_scan_devices st' = _last_scan_devices st ∧
        log_event_calls st' = log_event_calls st ∧
        callbacks st' = callbacks st ∧
        _current_devices st' = _current_devices st ∧
        delivered st' = delivered st) st.
Proof.
  unfold db_log_scan. apply wp_bind. eapply wp_mono; [apply wp_now_quiet|].
  intros t st1 ((Hdb & Hl & Hc & _ & _ & _ & Hcb) & Hcur & Hdl).
  apply wp_modify. exists t. cbn. by rewrite Hdb.
Qed.

Lemma count_type_none ct cs :
  Forall (λ c, change_type c ≠ ct) cs → count_type ct cs = 0%nat.
Proof.
  intros H. unfold count_type.
  induction H as [|c cs Hc _ IH]; [done|].
  rewrite filter_cons. by rewrite decide_False.
Qed.

(** What a fault-free cycle leaves behind. *)
Lemma scan_network_effects env obs st :
  no_faults env →
  ∃ cs st',
    scan_network env obs st = (Ok cs, st') ∧
    scan_effects st st' (discover obs) cs.
Proof.
  intros NF.
  change (wp (scan_network env obs)
            (λ cs st', scan_effects st st' (discover obs) cs) st).
  unfold scan_network, scan_network_of.
  fold (track_device env). fold (check_gone env). apply wp_bind.
  eapply wp_mono;
    [apply wp_and; [by apply wp_track_devices|by apply wp_track_devices_exact]|].
  intros [[changes cur] n] st1
    ((_ & _ & Hcur & _) & em1 & Hch1 & Hn1 & F1 & E1).
  cbn [fst snd] in Hcur, Hch1, Hn1. rewrite (right_id_L ∅ (∪)) in Hcur.
  rewrite app_nil_l in Hch1. subst cur changes n. cbn [Nat.add].
  apply wp_bind, wp_gets, wp_bind.
  eapply wp_mono; [by apply wp_check_gone_loop_exact|].
  intros [changes2 g] st2 (em2 & Hch2 & Hg & F2 & M2 & E2).
  cbn [fst snd] in Hch2, Hg. subst changes2 g. cbn [Nat.add].
  apply wp_bind, wp_modify, wp_bind.
  eapply wp_mono; [apply wp_db_log_scan_exact|].
  intros ? st3 (t & Hdb & Hl & Hc & Hcb & Hcu & Hdl). apply wp_ret.
  pose proof (cycle_effects_trans _ _ _ _ _ _ _ E1 E2)
    as (evs & us & (Hh & Hs & Hd & Hn & Hf) & Hsum & Hus & Hdev & Hcurr).
  rewrite app_nil_r in Hus, Hcurr.
  assert (_last_scan_devices st1 = _last_scan_devices st) as Hl1.
  { by destruct E1 as (? & ? & (_ & _ & _ & _ & -> & _) & _). }
  exists evs, us, t. cbn in Hdb, Hl, Hc, Hcb, Hcu, Hdl.
  rewrite Hdb, Hc, Hcb, Hcu, Hdl. cbn.
  split; [done|]. split; [done|]. split.
  { rewrite Hs. do 3 f_equal.
    - rewrite count_type_app.
      rewrite (count_type_none new em2); [lia|].
      eapply Forall_impl; [exact F2|]. by intros c ->.
    - unfold missing_macs. by rewrite Hl1. }
  split; [done|]. split; [done|]. split; [done|]. split; [done|].
  split; [done|]. split; [by destruct Hf as (_ & _ & _ & _ & ->)|].
  exists em1, em2. split; [done|]. split; [done|]. split; [done|].
  rewrite M2. unfold missing_macs, get_device. cbn. rewrite Hl1.
  by rewrite (cycle_effects_nil_devices _ _ _ E2).
Qed.

(** ** What a cycle leaves behind *)

Lemma filter_seq_eq (i a k : nat) :
  filter (λ j, j = i) (seq a k) =
  if decide (a ≤ i < a + k)%nat then [i] else [].
Proof.
  revert a. induction k as [|k IH]; intros a; cbn [seq].
  - rewrite filter_nil. by rewrite decide_False by lia.
  - rewrite filter_cons, IH.
    destruct (decide (a = i)) as [->|Hne].
    + rewrite decide_False by lia. by rewrite decide_True by lia.
    + destruct (decide (S a ≤ i < S a + k)%nat).
      * by rewrite decide_True by lia.
      * by rewrite decide_False by lia.
Qed.

Lemma filter_fst_fmap {B} (c : B) (i : nat) (l : list nat) :
  (filter (λ p : nat * B, p.1 = i) ((λ j, (j, c)) <$> l)).*2 =
  (λ _, c) <$> filter (λ j, j = i) l.
Proof.
  induction l as [|j l IH]; [done|].
  rewrite fmap_cons, !filter_cons. cbn [fst].
  destruct (decide (j = i)); cbn; by rewrite IH.
Qed.

Lemma received_one (cbs : list Callback) c i :
  (i < length cbs)%nat → received i (one_delivery cbs c) = [c].
Proof.
  intros Hi. unfold received, one_delivery.
  rewrite filter_fst_fmap, filter_seq_eq. by rewrite decide_True by lia.
Qed.

Lemma received_app i dl1 dl2 :
  received i (dl1 ++ dl2) = received i dl1 ++ received i dl2.
Proof. unfold received. by rewrite filter_app, fmap_app. Qed.

Lemma received_deliveries (cbs : list Callback) cs i :
  (i < length cbs)%nat → received i (deliveries cbs cs) = cs.
Proof.
  intros Hi. induction cs as [|c cs IH]; [done|].
  change (c :: cs) with ([c] ++ cs).
  rewrite deliveries_app, received_app, deliveries_one, IH.
  by rewrite received_one.
Qed.

(** *** The loop of [_notify] over any subscribers *)

Lemma foldM_app {A B} (f : A → B → M A) a (l1 l2 : list B) st :
  foldM f a (l1 ++ l2) st = (a' ← foldM f a l1; foldM f a' l2) st.
Proof.
  revert a st. induction l1 as [|x l1 IH]; intros a st; [done|].
  cbn [app foldM]. unfold mbind at 1 2 3, M_bind at 1 2 3.
  destruct (f a x st) as [[a1|e] st1]; [|done]. apply IH.
Qed.

Lemma bind_ext {A B} (m m' : M A) (f g : A → M B) st :
  m st = m' st → (∀ a st', f a st' = g a st') →
  (m ≫= f) st = (m' ≫= g) st.
Proof.
  intros Hm Hf. unfold mbind, M_bind. rewrite Hm.
  destruct (m' st) as [[a|e] st']; [apply Hf|done].
Qed.

(** As long as no subscriber raises anything but an [Exception], the
    loop calls each of them and logs those that raise. *)
Lemma wp_call_subscribers change (l : list (nat * Subscriber)) st :
  (∀ p, p ∈ l → escapes p.2 change = None) →
  wp (foldM (call_subscriber change) tt l)
     (λ _ st',
        delivered st' = delivered st ++ ((λ p, (p.1, change)) <$> l) ∧
        console st' = console st ++
          (if verbose st
           then LogCallbackError <$>
                  (filter (λ p, from_option is_Exception false (p.2 change)
                                = true) l).*1
           else []) ∧
        same_core st st' ∧
        _current_devices st' = _current_devices st) st.
Proof.
  revert st. induction l as [|[i s] l IH]; intros st Hesc; cbn [foldM].
  { apply wp_ret. rewrite app_nil_r. split; [done|]. split.
    - destruct (verbose st); by rewrite app_nil_r.
    - split; [apply same_core_refl|done]. }
  assert (∀ p, p ∈ l → escapes p.2 change = None) as Hesc'.
  { intros p Hp. apply Hesc. by apply list_elem_of_further. }
  assert (∀ st2 logged,
    delivered st2 = delivered st ++ [(i, change)] →
    console st2 = console st ++ (if verbose st then logged else []) →
    same_core st st2 → _current_devices st2 = _current_devices st →
    wp (foldM (call_subscriber change) tt l)
       (λ _ st',
          delivered st' =
            delivered st ++ ((λ p, (p.1, change)) <$> (i, s) :: l) ∧
          console st' = console st ++
            (if verbose st
             then logged ++ (LogCallbackError <$>
                    (filter (λ p, from_option is_Exception false (p.2 change)
                                  = true) l).*1)
             else []) ∧
          same_core st st' ∧
          _current_devices st' = _current_devices st) st2) as Hrest.
  { intros st2 logged Hd2 Hc2 Hs2 Hcur2.
    eapply wp_mono; [by apply IH|].
    intros ? st' (Hd & Hc & Hs & Hcur). cbn beta.
    assert (verbose st2 = verbose st) as Hv by apply Hs2.
    split; [|split; [|split]].
    - rewrite Hd, Hd2. cbn. by rewrite <- (assoc_L (++)).
    - rewrite Hc, Hc2, Hv. destruct (verbose st); [|by rewrite !app_nil_r].
      by rewrite <- (assoc_L (++)).
    - by apply same_core_trans with st2.
    - by rewrite Hcur. }
  apply wp_bind. unfold call_subscriber at 1. cbn [fst snd].
  apply wp_bind, wp_modify. set (st1 := set_delivered _ st).
  rewrite filter_cons. cbn [snd].
  destruct (s change) as [e|] eqn:Es.
  - assert (is_Exception e = true) as He.
    { specialize (Hesc (i, s) (list_elem_of_here _ _)).
      unfold escapes in Hesc. cbn [snd] in Hesc. rewrite Es in Hesc.
      by destruct (is_Exception e). }
    rewrite He. cbn [from_option]. rewrite decide_True by done.
    unfold log. apply wp_bind, wp_gets. change (verbose st1) with (verbose st).
    destruct (verbose st) eqn:Ev.
    + apply wp_modify.
      eapply wp_mono;
        [apply (Hrest _ [LogCallbackError i]); cbn; rewrite ?Ev; try done;
         by repeat split|].
      intros ? st' H. exact H.
    + apply wp_ret.
      eapply wp_mono;
        [apply (Hrest _ []); cbn; rewrite ?Ev, ?app_nil_r; try done;
         by repeat split|].
      intros ? st' H. exact H.
  - cbn [from_option]. rewrite decide_False by done. apply wp_ret.
    eapply wp_mono;
      [apply (Hrest _ []); cbn; try done;
       first [by repeat split|destruct (verbose st); by rewrite app_nil_r]|].
    intros ? st' H. exact H.
Qed.

(** The first subscriber that raises anything else ends the loop: it has
    been called, those after it are not. *)
Lemma wpx_call_subscribers change (pre post : list (nat * Subscriber)) p e st :
  (∀ p', p' ∈ pre → escapes p'.2 change = None) →
  escapes p.2 change = Some e →
  wpx (foldM (call_subscriber change) tt (pre ++ p :: post))
      (λ e' st',
         e' = e ∧
         delivered st' =
           delivered st ++ ((λ p, (p.1, change)) <$> (pre ++ [p])) ∧
         console st' = console st ++
           (if verbose st
            then LogCallbackError <$>
                   (filter (λ p, from_option is_Exception false (p.2 change)
                                 = true) pre).*1
            else []) ∧
         same_core st st' ∧
         _current_devices st' = _current_devices st) st.
Proof.
  intros Hpre Hp.
  destruct (wp_call_subscribers change pre st Hpre)
    as ([] & st1 & Hrun & Hd & Hc & Hs & Hcur).
  assert (p.2 change = Some e ∧ is_Exception e = false) as [Hpe He].
  { unfold escapes in Hp. destruct (p.2 change) as [e'|]; [|done].
    destruct (is_Exception e') eqn:E; [done|]. by injection Hp as ->. }
  unfold wpx. rewrite foldM_app. unfold mbind at 1, M_bind at 1.
  rewrite Hrun. cbn [foldM]. unfold mbind at 1, M_bind at 1.
  unfold call_subscriber at 1. rewrite Hpe, He.
  unfold modify, raise, mbind, M_bind. cbn.
  eexists _, _. split; [reflexivity|]. cbn.
  split; [done|]. split.
  { rewrite Hd, fmap_app. cbn. by rewrite <- (assoc_L (++)). }
  split; [done|]. split; [|done].
  destruct Hs as (?&?&?&?&?&?&?). by repeat split.
Qed.

(** The loop of [_notify] over the registered callbacks is the loop over
    any subscribers, run on subscribers none of which passes the
    handler. *)
Lemma notify_loop_callbacks change (l : list (nat * Callback)) u st :
  foldM (λ (_ : unit) '(i, cb),
           modify (λ st, set_delivered (delivered st ++ [(i, change)]) st);;
           if (cb : Callback) change then mret tt
           else log (LogCallbackError i)) u l st =
  foldM (call_subscriber change) u ((λ p, (p.1, subscriber_of p.2)) <$> l) st.
Proof.
  revert u st. induction l as [|[i cb] l IH]; intros u st; [done|].
  cbn [foldM fmap list_fmap]. apply bind_ext; [|intros; apply IH].
  unfold call_subscriber, subscriber_of. cbn [fst snd].
  apply bind_ext; [done|]. intros ? st1. by destruct (cb change).
Qed.

Lemma caught_callbacks (l : list (nat * Callback)) c :
  (filter (λ p : nat * Subscriber,
             from_option is_Exception false (p.2 c) = true)
          ((λ p, (p.1, subscriber_of p.2)) <$> l)).*1 =
  (filter (λ p : nat * Callback, p.2 c = false) l).*1.
Proof.
  induction l as [|[i cb] l IH]; [done|].
  rewrite fmap_cons, !filter_cons. cbn [fst snd].
  assert (from_option is_Exception false (subscriber_of cb c) = true ↔
          cb c = false) as Hiff.
  { unfold subscriber_of. by destruct (cb c). }
  destruct (decide (from_option is_Exception false (subscriber_of cb c) = true))
    as [H1|H1], (decide (cb c = false)) as [H2|H2]; try tauto.
  cbn. by rewrite IH.
Qed.

Lemma imap_subscriber_of (cbs : list Callback) :
  imap (λ i s, (i, s)) (subscriber_of <$> cbs) =
  (λ p, (p.1, subscriber_of p.2)) <$> imap (λ i cb, (i, cb)) cbs.
Proof. rewrite imap_fmap, fmap_imap. by apply imap_ext. Qed.

Lemma notify_as_subscribers change st :
  _notify change st =
  notify_subscribers (subscriber_of <$> callbacks st) change st.
Proof.
  unfold _notify, notify_subscribers, gets, mbind at 1, M_bind at 1.
  rewrite imap_subscriber_of. apply notify_loop_callbacks.
Qed.

(** X7.  The loop of [_notify] isolates subscribers from each other only
    as far as [except Exception] goes.  As long as every subscriber
    returns or raises an [Exception], [_notify] returns: each subscriber
    has been handed the change once, in registration order, those that
    raised are reported on the console of a verbose monitor, and nothing
    else has changed.  The first subscriber that raises anything else
    ([CancelledError], [SystemExit], [KeyboardInterrupt]) ends [_notify]
    with that exception: the subscribers up to it have been handed the
    change, those registered after it have not.  [_notify] is this loop
    over the registered callbacks. *)
Theorem notify_isolates_subscribers (subs : list Subscriber)
    (change : DeviceChange) (st : NetworkMonitor) :
  ((∀ s, s ∈ subs → escapes s change = None) →
   ∃ st',
     notify_subscribers subs change st = (Ok tt, st') ∧
     delivered st' =
       delivered st ++ ((λ i, (i, change)) <$> seq 0 (length subs)) ∧
     console st' = console st ++
       (if verbose st then LogCallbackError <$> caught subs change else []) ∧
     same_core st st' ∧
     _current_devices st' = _current_devices st) ∧
  (∀ pre s post e,
     subs = pre ++ s :: post →
     (∀ s', s' ∈ pre → escapes s' change = None) →
     escapes s change = Some e →
     ∃ st',
       notify_subscribers subs change st = (Raise e, st') ∧
       delivered st' =
         delivered st ++ ((λ i, (i, change)) <$> seq 0 (S (length pre))) ∧
       console st' = console st ++
         (if verbose st then LogCallbackError <$> caught pre change else []) ∧
       same_core st st' ∧
       _current_devices st' = _current_devices st) ∧
  _notify change st =
    notify_subscribers (subscriber_of <$> callbacks st) change st ∧
  (∀ cb, escapes (subscriber_of cb) change = None) ∧
  caught (subscriber_of <$> callbacks st) change =
    failing (callbacks st) change.
Proof.
  split; [|split; [|split; [|split]]].
  - intros Hesc.
    destruct (wp_call_subscribers change (imap (λ i s, (i, s)) subs) st)
      as ([] & st' & Hrun & Hd & Hc & Hs & Hcur).
    { intros [i s] Hp. apply elem_of_lookup_imap in Hp as (j & y & [= -> ->] & Hy).
      apply Hesc. by eapply list_elem_of_lookup_2. }
    exists st'. split; [exact Hrun|]. split; [|done].
    rewrite Hd. by rewrite <- (imap_index_seq subs change 0).
  - intros pre s post e -> Hpre Hs.
    destruct (wpx_call_subscribers change (imap (λ i s, (i, s)) pre)
                (imap (λ i s, ((length pre + S i)%nat, s)) post)
                ((length pre + 0)%nat, s) e st)
      as (e' & st' & Hrun & -> & Hd & Hc & Hsc & Hcur).
    { intros [i s'] Hp.
      apply elem_of_lookup_imap in Hp as (j & y & [= -> ->] & Hy).
      apply Hpre. by eapply list_elem_of_lookup_2. }
    { exact Hs. }
    exists st'. split; [|split; [|done]].
    + unfold notify_subscribers. rewrite imap_app, imap_cons. exact Hrun.
    + rewrite Hd, seq_S, !fmap_app.
      rewrite <- (imap_index_seq pre change 0).
      cbn. by rewrite Nat.add_0_r.
  - apply notify_as_subscribers.
  - intros cb. unfold escapes, subscriber_of. by destruct (cb change).
  - unfold caught, failing. rewrite imap_subscriber_of.
    apply caught_callbacks.
Qed.

Lemma notify_isolates_subscribers_witness :
  let c := mkChange new (mkDevice "10.0.0.5" "aa:bb:cc:00:11:22" "" "") None 0 in
  let subs : list Subscriber :=
    [λ _, Some RuntimeError; λ _, Some SystemExit; λ _, None] in
  let st := NetworkMonitor_init empty_db 60 true in
  ∃ st',
    notify_subscribers subs c st = (Raise SystemExit, st') ∧
    delivered st' = [(0%nat, c); (1%nat, c)] ∧
    console st' = [LogCallbackError 0].
Proof.
  intros c subs st.
  destruct (proj1 (proj2 (notify_isolates_subscribers subs c st))
              [λ _, Some RuntimeError] (λ _, Some SystemExit) [λ _, None]
              SystemExit eq_refl)
    as (st' & Hrun & Hd & Hc & _).
  - intros s' Hs'. apply list_elem_of_singleton in Hs' as ->. reflexivity.
  - reflexivity.
  - exists st'. split; [exact Hrun|]. split; [exact Hd|exact Hc].
Defined.

(** *** The cycle over any subscribers *)

Lemma simulates_bind cbs {A B} (m m' : M A) (f f' : A → M B) :
  simulates cbs m m' → (∀ a, simulates cbs (f a) (f' a)) →
  simulates cbs (m ≫= f) (m' ≫= f').
Proof.
  intros Hm Hf st Hcb. destruct (Hm st Hcb) as [E Hc].
  unfold mbind, M_bind. rewrite E.
  destruct (m' st) as [[a|e] st1]; cbn [snd] in Hc; [by apply Hf|done].
Qed.

Lemma simulates_same cbs {A} (m : M A) :
  (∀ st, wp m (λ _ st', callbacks st' = callbacks st) st) →
  simulates cbs m m.
Proof.
  intros H st Hcb. split; [done|].
  destruct (H st) as (a & st' & -> & Hc). cbn. by rewrite Hc.
Qed.

Lemma simulates_core cbs {A} (m : M A) :
  (∀ st, wp m (λ _ st', same_core st st') st) → simulates cbs m m.
Proof.
  intros H. apply simulates_same. intros st.
  eapply wp_mono; [apply H|]. intros a st' Hc. apply Hc.
Qed.

Lemma simulates_ret cbs {A} (a : A) : simulates cbs (mret a) (mret a).
Proof. apply simulates_same. intros st. by apply wp_ret. Qed.

Lemma simulates_db_log_event cbs env m ev ip_ det :
  simulates cbs (db_log_event env m ev ip_ det) (db_log_event env m ev ip_ det).
Proof.
  intros st Hcb. split; [done|].
  unfold db_log_event, log_event, now, gets, modify, raise,
    mbind, M_bind, mret, M_ret. cbn.
  by destruct (history_fault env (log_event_calls st)).
Qed.

Lemma call_subscriber_callback change u i (s : Subscriber) st :
  escapes s change = None →
  call_subscriber change u (i, s) st =
  call_subscriber change u (i, subscriber_of (callback_of s)) st.
Proof.
  unfold escapes, call_subscriber, subscriber_of, callback_of. cbn [fst snd].
  intros Hesc. apply bind_ext; [done|]. intros ? st1.
  destruct (s change) as [e|]; [|done].
  by destruct (is_Exception e).
Qed.

(** A subscriber that raises nothing but [Exception]s is to [_notify]
    what its callback is. *)
Lemma simulates_notify (subs : list Subscriber) change :
  (∀ s, s ∈ subs → escapes s change = None) →
  simulates (callback_of <$> subs)
    (notify_subscribers subs change) (_notify change).
Proof.
  intros Hesc st Hcb. split.
  - rewrite notify_as_subscribers, Hcb. unfold notify_subscribers.
    rewrite <- list_fmap_compose.
    assert (∀ (l : list (nat * Subscriber)) u st,
      (∀ p, p ∈ l → escapes p.2 change = None) →
      foldM (call_subscriber change) u l st =
      foldM (call_subscriber change) u
        ((λ p, (p.1, subscriber_of (callback_of p.2))) <$> l) st) as Hloop.
    { clear. induction l as [|[i s] l IH]; intros u st Hesc; [done|].
      cbn [foldM fmap list_fmap fst snd]. apply bind_ext.
      - apply call_subscriber_callback.
        apply (Hesc (i, s)), list_elem_of_here.
      - intros a st1. apply IH. intros p Hp. apply Hesc.
        by apply list_elem_of_further. }
    rewrite Hloop.
    + f_equal. rewrite imap_fmap, fmap_imap. by apply imap_ext.
    + intros [i s] Hp.
      apply elem_of_lookup_imap in Hp as (j & y & [= -> ->] & Hy).
      apply Hesc. by eapply list_elem_of_lookup_2.
  - destruct (wp_notify change st) as ([] & st' & -> & Hc). cbn.
    destruct Hc as (_ & _ & _ & _ & _ & _ & ->). done.
Qed.

Lemma simulates_emit cbs {B} (notify : DeviceChange → M unit) env ct dev prev
    m ev ip_ det line (k : DeviceChange → M B) :
  (∀ c, simulates cbs (notify c) (_notify c)) →
  (∀ c, simulates cbs (k c) (k c)) →
  simulates cbs
    (change ← new_DeviceChange env ct dev prev;
     notify change;;
     db_log_event env m ev ip_ det;;
     log line;;
     k change)
    (change ← new_DeviceChange env ct dev prev;
     _notify change;;
     db_log_event env m ev ip_ det;;
     log line;;
     k change).
Proof.
  intros Hn Hk. apply simulates_bind.
  { apply simulates_core. intros st.
    eapply wp_mono; [apply wp_new_DeviceChange|].
    by intros c st' (_ & _ & _ & H). }
  intros c. apply simulates_bind; [apply Hn|].
  intros ?. apply simulates_bind; [apply simulates_db_log_event|].
  intros ?. apply simulates_bind; [apply simulates_core; intros; apply wp_log|].
  intros ?. apply Hk.
Qed.

Lemma simulates_track_device cbs (notify : DeviceChange → M unit) env acc dev :
  (∀ c, simulates cbs (notify c) (_notify c)) →
  simulates cbs (track_device_of notify env acc dev) (track_device env acc dev).
Proof.
  intros Hn. unfold track_device, track_device_of.
  destruct acc as [[changes cur] n].
  destruct (negb (truthy (mac dev))); [apply simulates_ret|].
  apply simulates_bind.
  { apply simulates_same. intros st. by apply wp_modify. }
  intros ?. apply simulates_bind.
  { apply simulates_same. intros st.
    eapply wp_mono; [apply wp_db_get_device|]. by intros r st' [_ ->]. }
  intros existing. apply simulates_bind.
  { apply simulates_same. intros st.
    eapply wp_mono; [apply wp_db_upsert_device|].
    by intros b st' (_ & _ & _ & _ & _ & ->). }
  intros is_new. apply simulates_bind.
  { apply simulates_same. intros st. by apply wp_gets. }
  intros last. destruct is_new.
  { apply simulates_emit; [done|]. intros. apply simulates_ret. }
  destruct existing as [row|]; [|apply simulates_ret].
  destruct (bool_decide _).
  { apply simulates_emit; [done|]. intros. apply simulates_ret. }
  destruct (bool_decide _); [|apply simulates_ret].
  apply simulates_emit; [done|]. intros. apply simulates_ret.
Qed.

Lemma simulates_check_gone cbs (notify : DeviceChange → M unit) env cur acc m :
  (∀ c, simulates cbs (notify c) (_notify c)) →
  simulates cbs (check_gone_of notify env cur acc m) (check_gone env cur acc m).
Proof.
  intros Hn. unfold check_gone, check_gone_of. destruct acc as [changes g].
  destruct (bool_decide _); [|apply simulates_ret].
  apply simulates_bind.
  { apply simulates_same. intros st.
    eapply wp_mono; [apply wp_db_get_device|]. by intros r st' [_ ->]. }
  intros existing. destruct existing as [row|]; [|apply simulates_ret].
  apply simulates_emit; [done|]. intros. apply simulates_ret.
Qed.

Lemma simulates_foldM cbs {A B} (f f' : A → B → M A) (l : list B) a :
  (∀ a x, simulates cbs (f a x) (f' a x)) →
  simulates cbs (foldM f a l) (foldM f' a l).
Proof.
  intros Hf. revert a. induction l as [|x l IH]; intros a; cbn [foldM].
  - apply simulates_ret.
  - apply simulates_bind; [apply Hf|]. intros. apply IH.
Qed.

(** The cycle over subscribers that raise nothing but [Exception]s is the
    cycle of the monitor that holds their callbacks. *)
Lemma simulates_scan_network (subs : list Subscriber) env obs :
  (∀ s c, s ∈ subs → escapes s c = None) →
  simulates (callback_of <$> subs)
    (scan_network_with subs env obs) (scan_network env obs).
Proof.
  intros Hesc.
  assert (∀ c, simulates (callback_of <$> subs)
                 (notify_subscribers subs c) (_notify c)) as Hn.
  { intros c. apply simulates_notify. intros s Hs. by apply Hesc. }
  unfold scan_network_with, scan_network, scan_network_of.
  apply simulates_bind.
  { apply simulates_foldM. intros. by apply simulates_track_device. }
  intros [[changes cur] n]. apply simulates_bind.
  { apply simulates_same. intros st. by apply wp_gets. }
  intros last. apply simulates_bind.
  { apply simulates_foldM. intros. by apply simulates_check_gone. }
  intros [changes2 g]. apply simulates_bind.
  { apply simulates_same. intros st. by apply wp_modify. }
  intros ?. apply simulates_bind.
  { apply simulates_same. intros st.
    eapply wp_mono; [apply wp_db_log_scan|].
    by intros ? st' (_ & _ & _ & _ & _ & ->). }
  intros ?. apply simulates_ret.
Qed.

(** X8.  In a cycle without a failing history write every subscriber is
    handed exactly the changes the cycle returns, in the order of the
    returned list, whether or not other subscribers raise an [Exception]
    on them, and the list of subscribers is as before.  This is stated of
    the callbacks a monitor state holds, and it carries over to
    subscribers of any kind as long as none of them ever raises anything
    but an [Exception]: their cycle is then the cycle of the monitor
    that holds their callbacks.  (A subscriber that raises anything else
    ends [_notify], and the cycle with it: X7.) *)
Theorem every_subscriber_gets_every_change (env : Env) (obs : Observation)
    (st : NetworkMonitor) (subs : list Subscriber) :
  no_faults env →
  ∃ cs st',
    scan_network env obs st = (Ok cs, st') ∧
    callbacks st' = callbacks st ∧
    delivered st' = delivered st ++ deliveries (callbacks st) cs ∧
    (∀ i, (i < length (callbacks st))%nat →
          received i (deliveries (callbacks st) cs) = cs) ∧
    ((∀ s c, s ∈ subs → escapes s c = None) →
     callbacks st = callback_of <$> subs →
     scan_network_with subs env obs st = (Ok cs, st') ∧
     ∀ i, (i < length subs)%nat →
          received i (deliveries (callbacks st) cs) = cs).
Proof.
  intros NF.
  destruct (scan_network_effects env obs st NF)
    as (cs & st' & Hrun & evs & us & t & _ & _ & _ & Hd & _ & _ & _ & _ & Hcb & _).
  exists cs, st'. split; [done|]. split; [done|]. split; [done|]. split.
  { intros i Hi. by apply received_deliveries. }
  intros Hesc Hsubs. split.
  - destruct (simulates_scan_network subs env obs Hesc st Hsubs) as [-> _].
    exact Hrun.
  - intros i Hi. apply received_deliveries.
    by rewrite Hsubs, length_fmap.
Qed.

Lemma every_subscriber_gets_every_change_witness :
  let subs : list Subscriber := [λ _, Some RuntimeError; λ _, None] in
  let st := add_callback (callback_of (λ _, None))
              (add_callback (callback_of (λ _, Some RuntimeError))
                 (NetworkMonitor_init empty_db 60 false)) in
  let obs := arp_only [mkDevice "10.0.0.5" "aa:bb:cc:00:11:22" "nas" "";
                       mkDevice "10.0.0.6" "aa:bb:cc:00:11:33" "" ""] in
  ∃ cs st',
    scan_network_with subs steady_env obs st = (Ok cs, st') ∧
    scan_network steady_env obs st = (Ok cs, st') ∧
    length cs = 2%nat ∧
    delivered st' = delivered st ++ deliveries (callbacks st) cs ∧
    ∀ i, (i < 2)%nat → received i (deliveries (callbacks st) cs) = cs.
Proof.
  intros subs st obs.
  destruct (every_subscriber_gets_every_change steady_env obs st subs
              steady_env_no_faults)
    as (cs & st' & Hrun & _ & Hd & _ & Hrich).
  destruct Hrich as [Hrun' Hrec].
  { intros s c Hs. apply elem_of_cons in Hs as [->|Hs]; [reflexivity|].
    apply list_elem_of_singleton in Hs as ->. reflexivity. }
  { reflexivity. }
  exists cs, st'. split; [exact Hrun'|]. split; [exact Hrun|].
  split; [|split; [exact Hd|exact Hrec]].
  assert ((scan_network steady_env obs st).1 = Ok cs) as Hcs by by rewrite Hrun.
  vm_compute in Hcs. injection Hcs as <-. reflexivity.
Defined.

(** X9.  A cycle without a failing history write appends to the history
    table exactly one event per change it returns, in the order of the
    returned list, each with the MAC (in lowercase), the IP, the event
    type ([ip_changed] for a [changed] change) and the details of its
    change; every returned change is then found in the history of its
    MAC. *)
Theorem one_history_event_per_change (env : Env) (obs : Observation)
    (st : NetworkMonitor) :
  no_faults env →
  ∃ cs st' evs,
    scan_network env obs st = (Ok cs, st') ∧
    device_history (db st') = device_history (db st) ++ evs ∧
    ev_summary <$> evs = event_of <$> cs ∧
    log_event_calls st' = (log_event_calls st + length cs)%nat ∧
    ∀ c, c ∈ cs →
      ∃ e, e ∈ get_device_history (change_mac c) (-1) (db st') ∧
           ev_summary e = event_of c.
Proof.
  intros NF.
  destruct (scan_network_effects env obs st NF)
    as (cs & st' & Hrun & evs & us & t & Hh & Hs & _ & _ & Hl & _).
  exists cs, st', evs. split; [done|]. split; [done|]. split; [done|].
  split; [done|]. intros c Hc.
  assert (event_of c ∈ ev_summary <$> evs) as Hin.
  { rewrite Hs. by apply list_elem_of_fmap_2. }
  apply list_elem_of_fmap in Hin as (e & He & Hin).
  exists e. split; [|done].
  unfold get_device_history. rewrite order_by_timestamp_desc_generic.
  unfold LIMIT. cbn. rewrite ORDER_BY_DESC_perm.
  apply list_elem_of_filter. split.
  - unfold ev_summary, event_of in He. injection He as He _ _ _.
    rewrite <- He. unfold change_mac. by rewrite lower_idemp.
  - rewrite Hh. apply elem_of_app. by right.
Qed.

Lemma one_history_event_per_change_witness :
  let m := "aa:bb:cc:00:11:22" in
  let row := mkRow m "10.0.0.5" "nas" "" 1 1 false false None None in
  let st := mkMonitor (mkDb {[m := row]} [] []) 60 false
              false [] ∅ {[m]} 0 0 [] [] in
  let obs := arp_only [mkDevice "10.0.0.9" "AA:BB:CC:00:11:22" "" "";
                       mkDevice "10.0.0.6" "aa:bb:cc:00:11:33" "" ""] in
  ∃ cs st' evs,
    scan_network steady_env obs st = (Ok cs, st') ∧
    device_history (db st') = device_history (db st) ++ evs ∧
    ev_summary <$> evs = event_of <$> cs ∧
    log_event_calls st' = (log_event_calls st + length cs)%nat ∧
    ∀ c, c ∈ cs →
      ∃ e, e ∈ get_device_history (change_mac c) (-1) (db st') ∧
           ev_summary e = event_of c.
Proof.
  intros m row st obs.
  exact (one_history_event_per_change steady_env obs st steady_env_no_faults).
Defined.

Lemma count_type_length ct cs :
  Forall (λ c, change_type c = ct) cs → count_type ct cs = length cs.
Proof.
  intros H. unfold count_type.
  induction H as [|c cs Hc _ IH]; [done|].
  rewrite filter_cons. rewrite decide_True by done. cbn. by rewrite IH.
Qed.

(** X10.  A cycle without a failing history write appends exactly one
    row to the scan log.  Its device count is the length of the device
    list, devices without a MAC included; its count of new devices is the
    number of [new] changes returned; its count of gone devices is the
    number of MACs of the previous live set that were not sighted, whether
    or not they have a record, so it is at least the number of [gone]
    changes returned. *)
Theorem scan_summary_counts (env : Env) (obs : Observation)
    (st : NetworkMonitor) :
  no_faults env →
  ∃ cs st' s,
    scan_network env obs st = (Ok cs, st') ∧
    scan_history (db st') = scan_history (db st) ++ [s] ∧
    sc_device_count s = length (discover obs) ∧
    (length (tracked (discover obs)) ≤ sc_device_count s)%nat ∧
    sc_new_devices s = count_type new cs ∧
    sc_gone_devices s =
      length (missing_macs (_last_scan_devices st) (discover obs)) ∧
    (count_type gone cs ≤ sc_gone_devices s)%nat ∧
    sc_scan_type s = "monitor".
Proof.
  intros NF.
  destruct (scan_network_effects env obs st NF)
    as (cs & st' & Hrun & evs & us & t & _ & _ & Hs & _ & _ & _ & _ & _ & _ &
        cs1 & cs2 & -> & F1 & F2 & M2).
  eexists _, st', _. split; [exact Hrun|]. split; [exact Hs|]. cbn.
  split; [done|]. split; [apply length_filter|].
  split; [done|]. split; [done|]. split; [|done].
  rewrite count_type_app, (count_type_none gone cs1), (count_type_length _ _ F2).
  - cbn. rewrite <- (length_fmap (λ c, mac (device c)) cs2), M2.
    apply length_filter.
  - eapply Forall_impl; [exact F1|]. by intros c [_ ?].
Qed.

Lemma scan_summary_counts_witness :
  let m := "aa:bb:cc:00:11:22" in
  let row := mkRow m "10.0.0.5" "nas" "" 1 1 false false None None in
  let st := mkMonitor (mkDb {[m := row]} [] []) 60 false
              false [] ∅ {[m; "aa:bb:cc:00:11:44"]} 0 0 [] [] in
  let obs := arp_only [mkDevice "10.0.0.7" "" "printer" "";
                       mkDevice "10.0.0.6" "aa:bb:cc:00:11:33" "" ""] in
  ∃ cs st' s,
    scan_network steady_env obs st = (Ok cs, st') ∧
    scan_history (db st') = scan_history (db st) ++ [s] ∧
    sc_device_count s = length (discover obs) ∧
    (length (tracked (discover obs)) ≤ sc_device_count s)%nat ∧
    sc_new_devices s = count_type new cs ∧
    sc_gone_devices s =
      length (missing_macs (_last_scan_devices st) (discover obs)) ∧
    (count_type gone cs ≤ sc_gone_devices s)%nat ∧
    sc_scan_type s = "monitor".
Proof.
  intros m row st obs.
  exact (scan_summary_counts steady_env obs st steady_env_no_faults).
Defined.

Lemma seen_app m l1 l2 : seen m (l1 ++ l2) = seen m l1 ++ seen m l2.
Proof. unfold seen. by rewrite filter_app. Qed.

Lemma track_current_lookup cur devs m :
  track_current cur devs !! m =
  match last (seen m devs) with
  | Some dev => Some dev
  | None => cur !! m
  end.
Proof.
  induction devs as [|dev devs IH] using rev_ind; [done|].
  rewrite track_current_app, seen_app.
  unfold seen at 2. rewrite filter_cons, filter_nil.
  unfold track_current at 1. cbn [foldl].
  destruct (truthy (mac dev)) eqn:Et.
  - apply truthy_true in Et.
    destruct (decide (lower (mac dev) = m)) as [Hm|Hm].
    + rewrite decide_True by done. rewrite last_snoc.
      subst m. by rewrite lookup_insert_eq.
    + rewrite decide_False by (by intros [_ ?]).
      rewrite app_nil_r. by rewrite lookup_insert_ne.
  - apply truthy_false in Et.
    rewrite decide_False by (by intros [? _]). by rewrite app_nil_r.
Qed.

(** X11.  [_current_devices] only grows.  After a cycle it maps every
    sighted MAC to its last sighting in the device list and keeps the
    entry of every MAC that was not sighted, so a device reported [gone]
    is still listed by [get_current_devices]; the live set, in contrast,
    is replaced by the MACs sighted in the cycle. *)
Theorem current_devices_only_grow (env : Env) (obs : Observation)
    (st : NetworkMonitor) :
  no_faults env →
  ∃ cs st',
    scan_network env obs st = (Ok cs, st') ∧
    (∀ m, _current_devices st' !! m =
          match last (seen m (discover obs)) with
          | Some dev => Some dev
          | None => _current_devices st !! m
          end) ∧
    (∀ m, is_Some (_current_devices st !! m) →
          is_Some (_current_devices st' !! m)) ∧
    (length (get_current_devices st) ≤ length (get_current_devices st'))%nat ∧
    _last_scan_devices st' = list_to_set (live_macs (discover obs)).
Proof.
  intros NF.
  destruct (scan_network_effects env obs st NF)
    as (cs & st' & Hrun & evs & us & t & _ & _ & _ & _ & _ & _ & _ & Hc & _).
  exists cs, st'. split; [done|].
  assert (∀ m, is_Some (_current_devices st !! m) →
               is_Some (_current_devices st' !! m)) as Hdom.
  { intros m Hm. rewrite Hc, track_current_lookup.
    by destruct (last (seen m (discover obs))). }
  split; [|split; [done|split]].
  - intros m. by rewrite Hc, track_current_lookup.
  - unfold get_current_devices. rewrite !length_fmap, !length_map_to_list.
    rewrite <- !size_dom. apply subseteq_size.
    intros m. rewrite !elem_of_dom. apply Hdom.
  - destruct (scan_network_spec env obs st NF)
      as (cs' & st'' & Hrun' & (Hl & _) & _).
    rewrite Hrun in Hrun'. injection Hrun' as <- <-. exact Hl.
Qed.

Lemma current_devices_only_grow_witness :
  let m := "aa:bb:cc:00:11:22" in
  let dev := mkDevice "10.0.0.5" m "nas" "" in
  let row := mkRow m "10.0.0.5" "nas" "" 1 1 false false None None in
  let st := mkMonitor (mkDb {[m := row]} [] []) 60 false
              false [] {[m := dev]} {[m]} 0 0 [] [] in
  let obs := arp_only [mkDevice "10.0.0.6" "aa:bb:cc:00:11:33" "" ""] in
  ∃ cs st',
    scan_network steady_env obs st = (Ok cs, st') ∧
    (∀ m, _current_devices st' !! m =
          match last (seen m (discover obs)) with
          | Some dev => Some dev
          | None => _current_devices st !! m
          end) ∧
    (∀ m, is_Some (_current_devices st !! m) →
          is_Some (_current_devices st' !! m)) ∧
    (length (get_current_devices st) ≤ length (get_current_devices st'))%nat ∧
    _last_scan_devices st' = list_to_set (live_macs (discover obs)).
Proof.
  intros m dev row st obs.
  exact (current_devices_only_grow steady_env obs st steady_env_no_faults).
Defined.

Lemma upserts_for_seen m us devs :
  us.*2 = tracked devs → (upserts_for m us).*2 = seen m devs.
Proof.
  intros Hus. unfold upserts_for, seen.
  transitivity (filter (λ d, lower (mac d) = m) (us.*2)).
  - clear. induction us as [|u us IH]; [done|].
    rewrite fmap_cons, !filter_cons.
    destruct (decide (lower (mac u.2) = m)); cbn; by rewrite IH.
  - rewrite Hus. unfold tracked. rewrite list_filter_filter.
    apply list_filter_iff. tauto.
Qed.

(** X12.  A cycle never deletes a record.  The record of a MAC that was
    not sighted, a device reported [gone] included, is left exactly as it
    was; the record of any MAC keeps its marks ([is_known], [is_trusted],
    [notes], [custom_name]), its key and its [first_seen]; and every
    sighted MAC has a record afterwards, with the IP of its last
    sighting. *)
Theorem cycle_keeps_records (env : Env) (obs : Observation)
    (st : NetworkMonitor) :
  no_faults env →
  ∃ cs st',
    scan_network env obs st = (Ok cs, st') ∧
    ∀ m,
      (seen (lower m) (discover obs) = [] →
         get_device m (db st') = get_device m (db st)) ∧
      (∀ r, get_device m (db st) = Some r →
         ∃ r', get_device m (db st') = Some r' ∧ marks r' = marks r ∧
               row_mac r' = row_mac r ∧
               row_first_seen r' = row_first_seen r) ∧
      (∀ dev, last (seen (lower m) (discover obs)) = Some dev →
         ∃ r', get_device m (db st') = Some r' ∧ row_ip r' = ip dev).
Proof.
  intros NF.
  destruct (scan_network_effects env obs st NF)
    as (cs & st' & Hrun & evs & us & t & _ & _ & _ & _ & _ & Hus & Hd & _).
  exists cs, st'. split; [done|]. intros m.
  assert (get_device m (db st') =
          foldl upsert_row (get_device m (db st)) (upserts_for (lower m) us))
    as Hget.
  { rewrite <- upsert_all_lookup. unfold get_device. by rewrite Hd. }
  pose proof (upserts_for_seen (lower m) us _ Hus) as Hseen.
  split; [|split].
  - intros Hnone. rewrite Hnone in Hseen. apply fmap_nil_inv in Hseen.
    by rewrite Hget, Hseen.
  - intros r Hr. rewrite Hget, Hr.
    destruct (upsert_rows_marks r (upserts_for (lower m) us))
      as (r' & H1 & H2 & H3 & H4).
    by exists r'.
  - intros dev Hlast. rewrite <- Hseen, fmap_last in Hlast.
    destruct (last (upserts_for (lower m) us)) as [[t' dev']|] eqn:El;
      [|done].
    cbn in Hlast. injection Hlast as ->.
    destruct (upsert_rows_fields (get_device m (db st)) _ t' dev El)
      as (r' & H1 & H2 & _).
    exists r'. by rewrite Hget.
Qed.

Lemma cycle_keeps_records_witness :
  let m := "aa:bb:cc:00:11:22" in
  let row := mkRow m "10.0.0.5" "nas" "" 1 1 true false None (Some "NAS") in
  let st := mkMonitor (mkDb {[m := row]} [] []) 60 false
              false [] ∅ {[m]} 0 0 [] [] in
  let obs := arp_only [mkDevice "10.0.0.6" "aa:bb:cc:00:11:33" "" ""] in
  ∃ cs st',
    scan_network steady_env obs st = (Ok cs, st') ∧
    ∀ m,
      (seen (lower m) (discover obs) = [] →
         get_device m (db st') = get_device m (db st)) ∧
      (∀ r, get_device m (db st) = Some r →
         ∃ r', get_device m (db st') = Some r' ∧ marks r' = marks r ∧
               row_mac r' = row_mac r ∧
               row_first_seen r' = row_first_seen r) ∧
      (∀ dev, last (seen (lower m) (discover obs)) = Some dev →
         ∃ r', get_device m (db st') = Some r' ∧ row_ip r' = ip dev).
Proof.
  intros m row st obs.
  exact (cycle_keeps_records steady_env obs st steady_env_no_faults).
Defined.


(** ** Precedence of [returned] *)

(** X13.  A MAC that has a record, was not in the previous live set and is
    sighted once is reported [returned] exactly once and never [changed],
    [new] or [gone] in that cycle, whatever IP it is sighted under: when
    the IP differs from the stored one no [changed] is reported, and the
    record takes the new IP all the same. *)
Theorem returned_takes_precedence (env : Env) (st : NetworkMonitor)
    (obs : Observation) (dev : Device) (row : DeviceRow) :
  no_faults env →
  live_set_normalized st →
  seen (lower (mac dev)) (discover obs) = [dev] →
  get_device (mac dev) (db st) = Some row →
  lower (mac dev) ∉ _last_scan_devices st →
  ∃ cs st',
    scan_network env obs st = (Ok cs, st') ∧
    length (changes_of returned (lower (mac dev)) cs) = 1%nat ∧
    length (changes_of changed (lower (mac dev)) cs) = 0%nat ∧
    length (changes_of new (lower (mac dev)) cs) = 0%nat ∧
    length (changes_of gone (lower (mac dev)) cs) = 0%nat ∧
    row_ip <$> get_device (mac dev) (db st') = Some (ip dev).
Proof.
  intros NF Hn Hs Hrow Hlast.
  destruct (scan_network_count env obs st NF Hn) as (cs & st' & Hrun & _ & _ & Hc).
  exists cs, st'. split; [done|].
  assert (Hcount : ∀ ct,
    length (changes_of ct (lower (mac dev)) cs) =
    count_kind (ct, lower (mac dev)) [(returned, lower (mac dev))]).
  { intros ct. rewrite Hc, (track_seen_once _ _ _ _ dev) by done.
    rewrite ips_of_lookup, Hrow. unfold classify.
    cbn [fmap option_fmap option_map].
    rewrite bool_decide_eq_true_2 by done.
    rewrite decide_False; [lia|]. by intros (_ & ? & _). }
  rewrite !Hcount, !count_kind_singleton.
  split; [by rewrite decide_True|]. split; [by rewrite decide_False|].
  split; [by rewrite decide_False|]. split; [by rewrite decide_False|].
  destruct (scan_network_effects env obs st NF)
    as (cs' & st'' & Hrun' & evs & us & t & _ & _ & _ & _ & _ & Hus & Hd & _).
  rewrite Hrun in Hrun'. injection Hrun' as <- <-.
  assert (get_device (mac dev) (db st') =
          foldl upsert_row (get_device (mac dev) (db st))
                (upserts_for (lower (mac dev)) us)) as Hget.
  { rewrite <- upsert_all_lookup. unfold get_device. by rewrite Hd. }
  pose proof (upserts_for_seen (lower (mac dev)) us _ Hus) as Hseen.
  rewrite Hs in Hseen.
  destruct (upserts_for (lower (mac dev)) us) as [|[t' dev'] [|? ?]] eqn:Eu;
    try done.
  cbn in Hseen. injection Hseen as ->.
  rewrite Hget, Hrow. done.
Qed.

Lemma returned_takes_precedence_witness :
  let dev := mkDevice "192.168.1.21" "aa:bb:cc:00:11:22" "" "" in
  let row := mkRow "aa:bb:cc:00:11:22" "192.168.1.20" "" "" 1 1
               false false None None in
  let st := mkMonitor (mkDb {["aa:bb:cc:00:11:22" := row]} [] []) 60 false
              false [] ∅ ∅ 0 0 [] [] in
  ∃ cs st',
    scan_network steady_env (arp_only [dev]) st = (Ok cs, st') ∧
    length (changes_of returned (lower (mac dev)) cs) = 1%nat ∧
    length (changes_of changed (lower (mac dev)) cs) = 0%nat ∧
    length (changes_of new (lower (mac dev)) cs) = 0%nat ∧
    length (changes_of gone (lower (mac dev)) cs) = 0%nat ∧
    row_ip <$> get_device (mac dev) (db st') = Some (ip dev).
Proof.
  intros dev row st.
  apply (returned_takes_precedence steady_env st (arp_only [dev]) dev row
           steady_env_no_faults).
  - intros m Hm. cbn in Hm. by apply not_elem_of_empty in Hm.
  - reflexivity.
  - reflexivity.
  - cbn. apply not_elem_of_empty.
Defined.

(** ** Devices without a MAC *)









(* ===================================================================== *)
(** * Further properties of the scanner *)
(* ===================================================================== *)

(** ** The sweep as a whole *)














(** ** Target enumeration on good input *)

Lemma fmap_to_int_mk v (l : list Z) :
  to_int <$> ((λ n, {| version := v; to_int := n |}) <$> l) = l.
Proof. induction l as [|n l IH]; [done|]. cbn. by rewrite IH. Qed.

(** X17.  For an IPv4 network [expand_cidr] without [hosts_only] lists
    every address of the block, ascending from the network address; with
    [hosts_only] it leaves out the first (network) and last (broadcast)
    address when the prefix is at most 30, and lists both addresses of a
    /31 and the one address of a /32. *)
Theorem expand_cidr_addresses `{lib : ipaddress} (cidr : string)
    (net : IPNetwork) (sc : AsyncScanner) :
  ip_network cidr = Ok net →
  version (network_address net) = IPv4 →
  0 ≤ prefixlen net ≤ 32 →
  let base := to_int (network_address net) in
  let size := 2 ^ (32 - prefixlen net) in
  ∃ every hs,
    expand_cidr cidr false sc = (Ok (str_of_address <$> every), sc) ∧
    expand_cidr cidr true sc = (Ok (str_of_address <$> hs), sc) ∧
    to_int <$> every = seqZ base size ∧
    to_int <$> hs = (if decide (prefixlen net ≤ 30)
                     then seqZ (base + 1) (size - 2)
                     else seqZ base size) ∧
    Forall (λ a, version a = IPv4) (every ++ hs).
Proof.
  intros Hnet Hv Hp base size.
  exists (network_iter net), (hosts net).
  unfold expand_cidr. rewrite Hnet. cbn [outcome_bind except_ValueError].
  split; [done|]. split; [done|].
  assert (broadcast_address net + 1 - base = size) as Hsize.
  { unfold broadcast_address, num_addresses, base, size.
    rewrite Hv. cbn [max_prefixlen]. lia. }
  assert (to_int <$> network_iter net = seqZ base size) as Hall.
  { unfold network_iter. rewrite fmap_to_int_mk. unfold range.
    fold base. by rewrite Hsize. }
  split; [done|]. split.
  - unfold hosts. rewrite Hv. cbn [max_prefixlen].
    destruct (decide (prefixlen net ≤ 30)) as [Hle|Hgt].
    + rewrite bool_decide_eq_false_2 by lia.
      rewrite fmap_to_int_mk. unfold range. fold base. f_equal. lia.
    + rewrite bool_decide_eq_true_2 by lia. done.
  - apply Forall_app. split.
    + unfold network_iter. rewrite Hv. apply Forall_fmap, Forall_forall. done.
    + unfold hosts, network_iter. rewrite Hv.
      destruct (bool_decide _); apply Forall_fmap, Forall_forall; done.
Qed.

Lemma expand_cidr_addresses_witness :
  let sc := AsyncScanner_init true in
  @expand_cidr ipv4_lib "10.1.2.7/29" true sc =
    (Ok ["10.1.2.1"; "10.1.2.2"; "10.1.2.3"; "10.1.2.4"; "10.1.2.5";
         "10.1.2.6"], sc) ∧
  @expand_cidr ipv4_lib "10.1.2.7/31" true sc =
    (Ok ["10.1.2.6"; "10.1.2.7"], sc) ∧
  @expand_cidr ipv4_lib "10.1.2.7" true sc = (Ok ["10.1.2.7"], sc) ∧
  ∃ every hs,
    @expand_cidr ipv4_lib "10.1.2.7/29" false sc =
      (Ok (@str_of_address ipv4_lib <$> every), sc) ∧
    @expand_cidr ipv4_lib "10.1.2.7/29" true sc =
      (Ok (@str_of_address ipv4_lib <$> hs), sc) ∧
    to_int <$> every = seqZ 167838208 8 ∧
    to_int <$> hs = seqZ 167838209 6.
Proof.
  intros sc.
  split; [reflexivity|]. split; [reflexivity|]. split; [reflexivity|].
  destruct (@expand_cidr_addresses ipv4_lib "10.1.2.7/29"
              {| network_address := {| version := IPv4; to_int := 167838208 |};
                 prefixlen := 29 |} sc eq_refl eq_refl)
    as (every & hs & H1 & H2 & H3 & H4 & _).
  - cbn. lia.
  - exists every, hs. split; [exact H1|]. split; [exact H2|].
    split; [exact H3|exact H4].
Defined.

(** ** The vendor cache *)







(** ** The stealth scan *)

Lemma pauses_of_app l1 l2 :
  pauses_of (l1 ++ l2) = (pauses_of l1 + pauses_of l2)%nat.
Proof. unfold pauses_of. by rewrite filter_app, length_app. Qed.

Lemma probes_of_app l1 l2 : probes_of (l1 ++ l2) = probes_of l1 ++ probes_of l2.
Proof. unfold probes_of. by rewrite omap_app. Qed.

Lemma stealth_schedule_probes i targets :
  probes_of (stealth_schedule i targets) = targets.
Proof.
  revert i. induction targets as [|t targets IH]; intros i; [done|].
  cbn [stealth_schedule]. rewrite probes_of_app.
  change (Probe t :: stealth_schedule (S i) targets)
    with ([Probe t] ++ stealth_schedule (S i) targets).
  rewrite probes_of_app, IH.
  by destruct ((0 <? i)%nat && (i mod 10 =? 0)%nat).
Qed.

Ltac div10 a :=
  pose proof (Nat.div_mod_eq a 10);
  pose proof (Nat.mod_upper_bound a 10 ltac:(lia)).

Lemma stealth_schedule_pauses i targets :
  (1 ≤ i)%nat →
  (pauses_of (stealth_schedule i targets) + (i + 9) / 10 =
   (i + length targets + 9) / 10)%nat.
Proof.
  revert i. induction targets as [|t targets IH]; intros i Hi.
  - cbn. by rewrite Nat.add_0_r.
  - cbn [stealth_schedule length]. rewrite pauses_of_app.
    change (Probe t :: stealth_schedule (S i) targets)
      with ([Probe t] ++ stealth_schedule (S i) targets).
    rewrite pauses_of_app. specialize (IH (S i) ltac:(lia)).
    assert (pauses_of [Probe t] = 0%nat) as -> by done.
    destruct (Nat.ltb_spec 0 i); [|lia]. cbn [andb].
    destruct (Nat.eqb_spec (i mod 10) 0) as [Hm|Hm].
    + assert (pauses_of [Pause] = 1%nat) as -> by done.
      replace (i + S (length targets) + 9)%nat
        with (S i + length targets + 9)%nat by lia.
      div10 i. div10 (i + 9)%nat. div10 (S i + 9)%nat. lia.
    + assert (pauses_of [] = 0%nat) as -> by done.
      replace (i + S (length targets) + 9)%nat
        with (S i + length targets + 9)%nat by lia.
      div10 i. div10 (i + 9)%nat. div10 (S i + 9)%nat. lia.
Qed.

Lemma stealth_schedule_pause_position i targets pre post :
  stealth_schedule i targets = pre ++ Pause :: post →
  (0 < i + length (probes_of pre))%nat ∧
  ((i + length (probes_of pre)) mod 10 = 0)%nat.
Proof.
  revert i pre. induction targets as [|t targets IH]; intros i pre H.
  - cbn in H. by destruct pre.
  - cbn [stealth_schedule] in H.
    assert (∀ pre', Probe t :: stealth_schedule (S i) targets =
                    pre' ++ Pause :: post →
            (0 < i + length (probes_of pre'))%nat ∧
            ((i + length (probes_of pre')) mod 10 = 0)%nat) as Hrest.
    { intros [|e pre'] H'; [done|]. cbn in H'. injection H' as <- H'.
      destruct (IH _ _ H') as [H1 H2].
      change (probes_of (Probe t :: pre')) with (t :: probes_of pre').
      cbn [length].
      replace (i + S (length (probes_of pre')))%nat
        with (S i + length (probes_of pre'))%nat by lia.
      done. }
    destruct (Nat.ltb_spec 0 i) as [Hi|Hi]; cbn [andb] in H.
    + destruct (Nat.eqb_spec (i mod 10) 0) as [Hm|Hm].
      * destruct pre as [|e pre].
        -- change (probes_of []) with (@nil string). cbn [length].
           rewrite Nat.add_0_r. done.
        -- cbn [app] in H. injection H as <- H.
           change (probes_of (Pause :: pre)) with (probes_of pre).
           by apply Hrest.
      * by apply Hrest.
    + by apply Hrest.
Qed.

(** X19.  [stealth_scan] probes the targets one after the other, in
    order, each probe awaited before the next one starts, and sleeps
    before every tenth target: a pause is always preceded by a positive
    multiple of ten probes, and a scan of [n] targets pauses
    [(n - 1) / 10] times.  It returns one device per target that
    answered, in target order. *)
Theorem stealth_scan_schedule (targets : list string) (up : string → bool)
    (resolve lookup : string → string) :
  probes_of (stealth_scan targets up resolve lookup).1 = targets ∧
  pauses_of (stealth_scan targets up resolve lookup).1 =
    ((length targets - 1) / 10)%nat ∧
  (∀ pre post,
     (stealth_scan targets up resolve lookup).1 = pre ++ Pause :: post →
     (0 < length (probes_of pre))%nat ∧
     (length (probes_of pre) mod 10 = 0)%nat) ∧
  ip <$> (stealth_scan targets up resolve lookup).2 =
    filter (λ t, up t = true) targets.
Proof.
  unfold stealth_scan. cbn [fst snd]. split; [|split; [|split]].
  - apply stealth_schedule_probes.
  - destruct targets as [|t targets]; [done|].
    cbn [stealth_schedule andb Nat.ltb Nat.leb app length].
    change (Probe t :: stealth_schedule 1 targets)
      with ([Probe t] ++ stealth_schedule 1 targets).
    rewrite pauses_of_app.
    pose proof (stealth_schedule_pauses 1 targets ltac:(lia)) as H.
    assert (pauses_of [Probe t] = 0%nat) as -> by done.
    cbn [length]. replace (S (length targets) - 1)%nat
      with (length targets) by lia.
    div10 (length targets). div10 (1 + length targets + 9)%nat.
    change ((1 + 9) / 10)%nat with 1%nat in H. lia.
  - intros pre post H.
    by apply (stealth_schedule_pause_position 0 targets pre post).
  - unfold lookup_vendors, resolve_hostnames.
    rewrite <- !list_fmap_compose.
    induction targets as [|t targets IH]; [done|].
    rewrite filter_cons. cbn. unfold ping_host at 1.
    destruct (up t) eqn:Eu.
    + rewrite decide_True by done. cbn. rewrite IH. f_equal.
      by destruct (truthy (resolve t)), (truthy (lookup "")).
    + rewrite decide_False by done. exact IH.
Qed.

(** ** The quick scan *)

Lemma ip_enriched resolve lookup devs :
  ip <$> lookup_vendors lookup (resolve_hostnames resolve devs) = ip <$> devs.
Proof.
  unfold lookup_vendors, resolve_hostnames. rewrite <- !list_fmap_compose.
  apply list_fmap_ext. intros i d _. cbn.
  destruct (truthy (resolve (ip d)) && negb (truthy (hostname d))); cbn;
    destruct (truthy (mac d) && negb (truthy (vendor d))); cbn; try done;
    by destruct (truthy (lookup (mac d))).
Qed.

Lemma ip_ping_sweep up targets :
  ip <$> ping_sweep up targets = filter (λ t, up t = true) targets.
Proof.
  unfold ping_sweep. induction targets as [|t targets IH]; [done|].
  rewrite filter_cons. cbn. unfold ping_host at 1.
  destruct (up t).
  - rewrite decide_True by done. cbn. by rewrite IH.
  - rewrite decide_False by done. exact IH.
Qed.

Lemma filter_ping_sweep (P : string → Prop) `{∀ t, Decision (P t)} up targets :
  filter (λ d, P (ip d)) (ping_sweep up targets) =
  ping_sweep up (filter P targets).
Proof.
  unfold ping_sweep. induction targets as [|t targets IH]; [done|].
  rewrite (filter_cons P). cbn [omap list_omap].
  destruct (ping_host up t) as [d|] eqn:E.
  - assert (ip d = t) as Hd.
    { unfold ping_host in E. destruct (up t); [|done]. by injection E as <-. }
    rewrite filter_cons, Hd.
    destruct (decide (P t)); [|exact IH].
    cbn [omap list_omap]. by rewrite E, IH.
  - destruct (decide (P t)); [|exact IH].
    cbn [omap list_omap]. by rewrite E.
Qed.

(** X20.  [quick_scan] pings only the targets that the ARP table does not
    list, and returns the ARP devices followed by one device per such
    target that answered.  This is the device list a monitoring cycle
    builds from a sweep of all the targets.  Its IPs are pairwise
    distinct when those of the ARP table and the targets are. *)
Theorem quick_scan_merges (arp : list Device) (targets : list string)
    (up : string → bool) (resolve lookup : string → string) :
  quick_scan arp targets up resolve lookup =
    discover {| arp_table := arp;
                ping_results := Some (ping_sweep up targets);
                gethostbyaddr := resolve; macvendors := lookup |} ∧
  ip <$> quick_scan arp targets up resolve lookup =
    (ip <$> arp) ++
    filter (λ t, up t = true) (filter (λ t, t ∉ ip <$> arp) targets) ∧
  (NoDup (ip <$> arp) → NoDup targets →
   NoDup (ip <$> quick_scan arp targets up resolve lookup)).
Proof.
  assert (quick_scan arp targets up resolve lookup =
          lookup_vendors lookup
            (resolve_hostnames resolve
               (arp ++ ping_sweep up (filter (λ t, t ∉ ip <$> arp) targets))))
    as Hq.
  { unfold quick_scan. cbn zeta.
    destruct (filter (λ t, t ∉ ip <$> arp) targets) as [|t l] eqn:Ef.
    - rewrite bool_decide_eq_false_2 by auto. cbn. by rewrite app_nil_r.
    - by rewrite bool_decide_eq_true_2 by done. }
  assert (ip <$> quick_scan arp targets up resolve lookup =
          (ip <$> arp) ++
          filter (λ t, up t = true) (filter (λ t, t ∉ ip <$> arp) targets))
    as Hip.
  { by rewrite Hq, ip_enriched, fmap_app, ip_ping_sweep. }
  split; [|split; [done|]].
  - rewrite Hq. unfold discover, merge_results.
    cbn [arp_table ping_results gethostbyaddr macvendors]. cbn zeta.
    pose proof (filter_ping_sweep (λ t, t ∉ ip <$> arp) up targets) as Hf.
    cbn beta in Hf. by rewrite Hf.
  - intros Ha Ht. rewrite Hip. apply NoDup_app. split; [done|]. split.
    + intros x Hx Hx'. apply list_elem_of_filter in Hx' as [_ Hx'].
      apply list_elem_of_filter in Hx' as [Hx' _]. done.
    + by apply NoDup_filter, NoDup_filter.
Qed.

(** ** Enrichment and change detection *)

Lemma track_same_keys last ips devs devs' :
  (λ d, (mac d, ip d)) <$> devs = (λ d, (mac d, ip d)) <$> devs' →
  track_kinds last ips devs = track_kinds last ips devs' ∧
  track_ips ips devs = track_ips ips devs' ∧
  live_macs devs = live_macs devs'.
Proof.
  revert ips devs'. induction devs as [|d devs IH]; intros ips [|d' devs'] H;
    try done.
  rewrite !fmap_cons in H. injection H as Hm Hi H.
  rewrite !live_macs_cons. cbn [track_kinds track_ips].
  rewrite <- Hm, <- Hi.
  destruct (truthy (mac d)).
  - destruct (IH (<[lower (mac d) := ip d]> ips) devs' H) as (-> & -> & ->).
    done.
  - destruct (IH ips devs' H) as (-> & -> & ->). done.
Qed.

Lemma keys_enriched resolve lookup devs :
  (λ d, (mac d, ip d)) <$> lookup_vendors lookup (resolve_hostnames resolve devs) =
  (λ d, (mac d, ip d)) <$> devs.
Proof.
  unfold lookup_vendors, resolve_hostnames. rewrite <- !list_fmap_compose.
  apply list_fmap_ext. intros i d _. cbn.
  destruct (truthy (resolve (ip d)) && negb (truthy (hostname d))); cbn;
    destruct (truthy (mac d) && negb (truthy (vendor d))); cbn; try done;
    by destruct (truthy (lookup (mac d))).
Qed.

(** X21.  What reverse DNS and the vendor service answer has no part in
    change detection.  Two cycles from the same state over the same ARP
    table and sweep result return changes of the same types for the same
    MACs, in the same order, and leave the same live set and the same
    stored IPs, whatever hostnames and vendors were found. *)
Theorem enrichment_does_not_change_detection (env : Env)
    (obs obs' : Observation) (st : NetworkMonitor) :
  no_faults env →
  arp_table obs' = arp_table obs →
  ping_results obs' = ping_results obs →
  ∃ cs st1 cs' st2,
    scan_network env obs st = (Ok cs, st1) ∧
    scan_network env obs' st = (Ok cs', st2) ∧
    kind <$> cs = kind <$> cs' ∧
    _last_scan_devices st1 = _last_scan_devices st2 ∧
    ips_of (db st1) = ips_of (db st2).
Proof.
  intros NF Ha Hp.
  assert ((λ d, (mac d, ip d)) <$> discover obs =
          (λ d, (mac d, ip d)) <$> discover obs') as Hk.
  { unfold discover. rewrite !keys_enriched, Ha, Hp. done. }
  destruct (track_same_keys (_last_scan_devices st) (ips_of (db st)) _ _ Hk)
    as (Hk1 & Hk2 & Hk3).
  destruct (scan_network_spec env obs st NF)
    as (cs & st1 & Hrun & (Hl & _) & Hi & Hkind).
  destruct (scan_network_spec env obs' st NF)
    as (cs' & st2 & Hrun' & (Hl' & _) & Hi' & Hkind').
  exists cs, st1, cs', st2. split; [done|]. split; [done|].
  split; [|split].
  - by rewrite Hkind, Hkind', Hk1, Hk2, Hk3.
  - rewrite Hl, Hl'. cbn. by rewrite Hk3.
  - by rewrite Hi, Hi', Hk2.
Qed.

Lemma enrichment_does_not_change_detection_witness :
  let arp := [mkDevice "10.0.0.5" "aa:bb:cc:00:11:22" "" "";
              mkDevice "10.0.0.6" "aa:bb:cc:00:11:33" "printer" ""] in
  let obs := arp_only arp in
  let obs' := {| arp_table := arp; ping_results := None;
                 gethostbyaddr := λ _, "host.lan";
                 macvendors := λ _, "Acme" |} in
  let st := NetworkMonitor_init empty_db 60 false in
  ∃ cs st1 cs' st2,
    scan_network steady_env obs st = (Ok cs, st1) ∧
    scan_network steady_env obs' st = (Ok cs', st2) ∧
    kind <$> cs = kind <$> cs' ∧
    _last_scan_devices st1 = _last_scan_devices st2 ∧
    ips_of (db st1) = ips_of (db st2).
Proof.
  intros arp obs obs' st.
  exact (enrichment_does_not_change_detection steady_env obs obs' st
           steady_env_no_faults eq_refl eq_refl).
Defined.

(** ** The summary of a scan *)

Lemma count_vendors_step (vs : gmap string nat) devs v :
  default 0%nat
    (foldl (λ vendors d,
              let v := str_or (vendor d) "Unknown" in
              <[v := (default 0%nat (vendors !! v) + 1)%nat]> vendors)
           vs devs !! v) =
  (default 0%nat (vs !! v) +
   length (filter (λ d, str_or (vendor d) "Unknown" = v) devs))%nat.
Proof.
  revert vs. induction devs as [|d devs IH]; intros vs.
  - cbn. lia.
  - cbn [foldl]. rewrite IH, filter_cons. cbn zeta.
    destruct (decide (str_or (vendor d) "Unknown" = v)) as [->|Hne].
    + rewrite lookup_insert_eq. cbn. lia.
    + rewrite lookup_insert_ne by done. lia.
Qed.

Lemma histogram_total_insert (vs : gmap string nat) k n :
  (histogram_total (<[k := n]> vs) + default 0 (vs !! k) =
   histogram_total vs + n)%nat.
Proof.
  unfold histogram_total.
  destruct (vs !! k) as [n0|] eqn:E.
  - rewrite <- insert_delete_eq.
    rewrite (map_fold_insert_L _ _ k n (delete k vs)).
    + rewrite (map_fold_delete_L _ _ k n0 vs); [cbn; lia| |done].
      intros. lia.
    + intros. lia.
    + apply lookup_delete_eq.
  - rewrite (map_fold_insert_L _ _ k n vs); [cbn; lia| |done].
    intros. lia.
Qed.

Lemma histogram_total_foldl (vs : gmap string nat) devs :
  histogram_total
    (foldl (λ vendors d,
              let v := str_or (vendor d) "Unknown" in
              <[v := (default 0%nat (vendors !! v) + 1)%nat]> vendors)
           vs devs) =
  (histogram_total vs + length devs)%nat.
Proof.
  revert vs. induction devs as [|d devs IH]; intros vs.
  - cbn. lia.
  - cbn [foldl length]. rewrite IH. cbn zeta.
    pose proof (histogram_total_insert vs (str_or (vendor d) "Unknown")
                  (default 0 (vs !! str_or (vendor d) "Unknown") + 1)%nat).
    lia.
Qed.

(** X22.  The vendor histogram of [get_summary] counts every device
    once: its counts add up to the number of devices, and the count of a
    name is the number of devices with that vendor, the devices without a
    vendor being counted under [Unknown] together with those whose vendor
    is the word itself.  The other counts are at most the total, and the
    devices with a vendor together with the [Unknown] bucket cover all
    devices. *)
Theorem get_summary_counts (devices : list Device) :
  let s := get_summary devices in
  histogram_total (summary_vendors s) = summary_total_devices s ∧
  (∀ v, default 0%nat (summary_vendors s !! v) =
        length (filter (λ d, str_or (vendor d) "Unknown" = v) devices)) ∧
  (summary_with_mac s ≤ summary_total_devices s)%nat ∧
  (summary_with_hostname s ≤ summary_total_devices s)%nat ∧
  (summary_with_vendor s ≤ summary_total_devices s)%nat ∧
  (summary_total_devices s ≤
   summary_with_vendor s + default 0%nat (summary_vendors s !! "Unknown"))%nat.
Proof.
  cbn. split; [|split; [|split; [|split; [|split]]]].
  - unfold count_vendors. rewrite histogram_total_foldl.
    unfold histogram_total. by rewrite map_fold_empty.
  - intros v. unfold count_vendors. rewrite count_vendors_step.
    by rewrite lookup_empty.
  - apply length_filter.
  - apply length_filter.
  - apply length_filter.
  - unfold count_vendors. rewrite count_vendors_step, lookup_empty. cbn.
    induction devices as [|d devices IH]; [done|].
    rewrite !filter_cons. cbn [length].
    destruct (decide (truthy (vendor d) = true)) as [Ht|Ht];
      destruct (decide (str_or (vendor d) "Unknown" = "Unknown")) as [Hu|Hu];
      cbn [length]; try lia.
    exfalso. apply Hu. unfold str_or. by destruct (truthy (vendor d)).
Qed.

(** ** Current devices and their records *)

Lemma scan_network_records env obs st :
  no_faults env →
  ∃ cs st',
    scan_network env obs st = (Ok cs, st') ∧
    (∀ m, _current_devices st' !! m =
          match last (seen m (discover obs)) with
          | Some dev => Some dev
          | None => _current_devices st !! m
          end) ∧
    ∀ m,
      (seen (lower m) (discover obs) = [] →
         get_device m (db st') = get_device m (db st)) ∧
      (∀ r, get_device m (db st) = Some r →
         ∃ r', get_device m (db st') = Some r' ∧ marks r' = marks r ∧
               row_mac r' = row_mac r ∧
               row_first_seen r' = row_first_seen r) ∧
      (∀ dev, last (seen (lower m) (discover obs)) = Some dev →
         ∃ r', get_device m (db st') = Some r' ∧ row_ip r' = ip dev).
Proof.
  intros NF.
  destruct (scan_network_effects env obs st NF)
    as (cs & st' & Hrun & evs & us & t & _ & _ & _ & _ & _ & Hus & Hd & Hc & _).
  exists cs, st'. split; [done|]. split.
  { intros m. by rewrite Hc, track_current_lookup. }
  intros m.
  assert (get_device m (db st') =
          foldl upsert_row (get_device m (db st)) (upserts_for (lower m) us))
    as Hget.
  { rewrite <- upsert_all_lookup. unfold get_device. by rewrite Hd. }
  pose proof (upserts_for_seen (lower m) us _ Hus) as Hseen.
  split; [|split].
  - intros Hnone. rewrite Hnone in Hseen. apply fmap_nil_inv in Hseen.
    by rewrite Hget, Hseen.
  - intros r Hr. rewrite Hget, Hr.
    destruct (upsert_rows_marks r (upserts_for (lower m) us))
      as (r' & H1 & H2 & H3 & H4).
    by exists r'.
  - intros dev Hlast. rewrite <- Hseen, fmap_last in Hlast.
    destruct (last (upserts_for (lower m) us)) as [[t' dev']|] eqn:El;
      [|done].
    cbn in Hlast. injection Hlast as ->.
    destruct (upsert_rows_fields (get_device m (db st)) _ t' dev El)
      as (r' & H1 & H2 & _).
    exists r'. by rewrite Hget.
Qed.

Lemma scan_network_current env obs st :
  no_faults env →
  current_have_records st ∧ current_keyed st →
  ∃ cs st',
    scan_network env obs st = (Ok cs, st') ∧
    current_have_records st' ∧ current_keyed st'.
Proof.
  intros NF [Hrec Hkey].
  destruct (scan_network_records env obs st NF)
    as (cs & st' & Hrun & Hcur & Hdb).
  exists cs, st'. split; [done|]. split.
  - intros m Hm. rewrite Hcur in Hm.
    destruct (last (seen m (discover obs))) as [dev|] eqn:El.
    + assert (lower m = m) as Hlow.
      { apply last_Some_elem_of, seen_elem in El as (_ & _ & <-).
        apply lower_idemp. }
      destruct (Hdb m) as (_ & _ & H3).
      rewrite Hlow in H3. destruct (H3 dev El) as (r' & -> & _). done.
    + destruct (Hrec m Hm) as [r Hr].
      destruct (Hdb m) as (_ & H2 & _).
      destruct (H2 r Hr) as (r' & -> & _). done.
  - intros m dev Hm. rewrite Hcur in Hm.
    destruct (last (seen m (discover obs))) as [dev'|] eqn:El.
    + injection Hm as ->.
      by apply last_Some_elem_of, seen_elem in El as (_ & ? & ?).
    + by apply Hkey.
Qed.

Lemma scan_cycles_invariant env (I : NetworkMonitor → Prop) :
  (∀ obs st, I st →
     ∃ cs st', scan_network env obs st = (Ok cs, st') ∧ I st') →
  ∀ obss st, I st →
    ∃ css st', scan_cycles env obss st = (Ok css, st') ∧ I st' ∧
               length css = length obss.
Proof.
  intros Hstep obss. induction obss as [|o obss IH]; intros st HI.
  - by exists [], st.
  - destruct (Hstep o st HI) as (cs & st1 & Hrun & HI1).
    destruct (IH st1 HI1) as (css & st2 & Hrun2 & HI2 & Hlen).
    exists (cs :: css), st2. cbn [scan_cycles]. unfold mbind, M_bind.
    rewrite Hrun, Hrun2. cbn. by rewrite Hlen.
Qed.

Lemma elem_of_get_current_devices st dev :
  dev ∈ get_current_devices st ↔ ∃ m, _current_devices st !! m = Some dev.
Proof.
  unfold get_current_devices. rewrite list_elem_of_fmap. split.
  - intros ([m d] & -> & H). exists m. by apply elem_of_map_to_list in H.
  - intros [m H]. exists (m, dev). split; [done|].
    by apply elem_of_map_to_list.
Qed.

Lemma elem_of_monitor_get_unknown_devices st dev :
  dev ∈ monitor_get_unknown_devices st ↔
  ∃ m, _current_devices st !! m = Some dev ∧
       row_is_known <$> get_device m (db st) = Some false.
Proof.
  unfold monitor_get_unknown_devices. rewrite list_elem_of_fmap. split.
  - intros ([m d] & -> & H). apply list_elem_of_filter in H as [H1 H2].
    exists m. split; [|done]. by apply elem_of_map_to_list in H2.
  - intros (m & H1 & H2). exists (m, dev). split; [done|].
    apply list_elem_of_filter. split; [done|]. by apply elem_of_map_to_list.
Qed.

(** X23.  After any number of cycles without a failing history write, a
    new monitor lists as current only devices that have a MAC and a
    record, each under its MAC in lowercase.  So the test for a record in
    [NetworkMonitor.get_unknown_devices] never fails: a current device is
    listed as unknown exactly when its record is not marked known. *)
Theorem current_devices_have_records (env : Env) (obss : list Observation)
    (d : DeviceDatabase) (interval : Z) (v : bool) :
  no_faults env →
  ∃ css st',
    scan_cycles env obss (NetworkMonitor_init d interval v) = (Ok css, st') ∧
    length css = length obss ∧
    (∀ m dev, _current_devices st' !! m = Some dev →
              mac dev ≠ "" ∧ lower (mac dev) = m) ∧
    ∀ dev, dev ∈ get_current_devices st' →
      ∃ r, get_device (mac dev) (db st') = Some r ∧
           (dev ∈ monitor_get_unknown_devices st' ↔ row_is_known r = false).
Proof.
  intros NF.
  destruct (scan_cycles_invariant env
              (λ st, current_have_records st ∧ current_keyed st)
              (λ obs st, scan_network_current env obs st NF) obss
              (NetworkMonitor_init d interval v))
    as (css & st' & Hrun & [Hrec Hkey] & Hlen).
  { split.
    - intros m [? Hm]. cbn in Hm. by rewrite lookup_empty in Hm.
    - intros m dev Hm. cbn in Hm. by rewrite lookup_empty in Hm. }
  exists css, st'. split; [done|]. split; [done|]. split; [exact Hkey|].
  intros dev Hdev. apply elem_of_get_current_devices in Hdev as [m Hm].
  destruct (Hkey m dev Hm) as [Hmac Hlow].
  destruct (Hrec m) as [r Hr]; [by rewrite Hm|].
  assert (get_device (mac dev) (db st') = Some r) as Hr'.
  { by rewrite <- get_device_lower, Hlow. }
  exists r. split; [done|].
  rewrite elem_of_monitor_get_unknown_devices. split.
  - intros (m' & Hm' & Hk). destruct (Hkey m' dev Hm') as [_ Hlow'].
    assert (m' = m) as -> by congruence.
    rewrite Hr in Hk. cbn in Hk. congruence.
  - intros Hk. exists m. split; [done|]. rewrite Hr. cbn. by rewrite Hk.
Qed.

Lemma current_devices_have_records_witness :
  let m := "aa:bb:cc:00:11:22" in
  let row := mkRow m "10.0.0.5" "nas" "" 1 1 true false None None in
  let obss := [arp_only [mkDevice "10.0.0.5" "AA:BB:CC:00:11:22" "" "";
                         mkDevice "10.0.0.6" "aa:bb:cc:00:11:33" "" ""];
               arp_only []] in
  ∃ css st',
    scan_cycles steady_env obss
      (NetworkMonitor_init (mkDb {[m := row]} [] []) 60 false) = (Ok css, st') ∧
    length css = length obss ∧
    (∀ m dev, _current_devices st' !! m = Some dev →
              mac dev ≠ "" ∧ lower (mac dev) = m) ∧
    ∀ dev, dev ∈ get_current_devices st' →
      ∃ r, get_device (mac dev) (db st') = Some r ∧
           (dev ∈ monitor_get_unknown_devices st' ↔ row_is_known r = false).
Proof.
  intros m row obss.
  exact (current_devices_have_records steady_env obss
           (mkDb {[m := row]} [] []) 60 false steady_env_no_faults).
Defined.

(** ** The loop never ends by itself *)

Lemma set_running_same st : set_running (running st) st = st.
Proof. by destruct st. Qed.

Lemma scan_network_running env obs st :
  running (scan_network env obs st).2 = running st.
Proof.
  pose proof (ignores_running_scan_network env obs (running st) st) as H.
  rewrite set_running_same in H.
  apply (f_equal (λ r, running r.2)) in H. cbn in H. by rewrite H.
Qed.

Lemma next_iteration_running st :
  running st = true →
  in_loop (next_iteration st).1 ∧ running (next_iteration st).2 = true.
Proof.
  intros H. unfold next_iteration, in_loop. rewrite H.
  destruct (0 <? scan_interval st); cbn; eauto.
Qed.

Lemma next_iteration_cases st :
  (in_loop (next_iteration st).1 ∧ running (next_iteration st).2 = true ∧
   running st = true) ∨
  ((next_iteration st).1 = Left ∧ running (next_iteration st).2 = false ∧
   running st = false).
Proof.
  destruct (running st) eqn:Hr.
  - left. destruct (next_iteration_running st Hr). done.
  - right. by rewrite next_iteration_stopped.
Qed.

(** A loop that has been left stays where it is. *)
Lemma loop_run_of_left scan evs ph st :
  ph = Left ∨ (∃ e, ph = Failed e) →
  Forall (λ ev, ev ≠ StopCalled ∧ ev ≠ Cancelled) evs →
  loop_run_of scan evs (ph, st) = (ph, st).
Proof.
  intros Hph Hevs. induction Hevs as [|ev evs [Hs Hc] _ IH]; [done|].
  change (loop_run_of scan (ev :: evs) (ph, st))
    with (loop_run_of scan evs (loop_step_of scan ev (ph, st))).
  assert (loop_step_of scan ev (ph, st) = (ph, st)) as ->; [|exact IH].
  destruct Hph as [->|[e ->]]; by destruct ev.
Qed.

(** What one event does to a loop that is sleeping or scanning. *)
Lemma loop_step_of_cases scan ev ph st :
  running st = true → in_loop ph →
  ev ≠ StopCalled → ev ≠ Cancelled →
  (in_loop (loop_step_of scan ev (ph, st)).1 ∧
   running (loop_step_of scan ev (ph, st)).2 = true) ∨
  ∃ obs, ev = ScanCompletes obs ∧
    ((∃ e, (scan obs st).1 = Raise e ∧ is_Exception e = false ∧
           loop_step_of scan ev (ph, st) =
             (match e with CancelledError => Left | _ => Failed e end,
              (scan obs st).2)) ∨
     (running (scan obs st).2 = false ∧
      (loop_step_of scan ev (ph, st)).1 = Left ∧
      running (loop_step_of scan ev (ph, st)).2 = false)).
Proof.
  intros Hr Hph Hs Hc. destruct ev as [|obs| |]; try done.
  - left. destruct Hph as [->|[r ->]]; cbn; [unfold in_loop; eauto|].
    destruct r as [|[|r]]; cbn; unfold in_loop; eauto.
  - destruct Hph as [->|[r ->]]; [|left; cbn; unfold in_loop; eauto].
    cbn [loop_step_of].
    destruct (scan obs st) as [[cs|e] st'] eqn:Hscan; cbn [fst snd].
    + match goal with |- context [next_iteration ?x] =>
        destruct (next_iteration_cases x) as [(H1 & H2 & H3)|(H1 & H2 & H3)]
      end; [left; split; assumption|].
      right. exists obs. split; [done|]. right. rewrite Hscan.
      rewrite log_running in H3. repeat split; assumption.
    + destruct e; cbn [is_Exception];
        try (right; exists obs; split; [done|]; left; rewrite Hscan;
             eexists; split; [done|]; split; done);
        (match goal with |- context [next_iteration ?x] =>
           destruct (next_iteration_cases x) as [(H1 & H2 & H3)|(H1 & H2 & H3)]
         end; [left; split; assumption|];
         right; exists obs; split; [done|]; right; rewrite Hscan;
         rewrite log_running in H3; repeat split; assumption).
Qed.

(** X24.  While neither [stop] nor a cancellation arrives, only a scan
    can make [monitor_loop] leave its [while] loop, and only in two ways:
    the scan raises an exception that is not an [Exception], which breaks
    the loop if it is [CancelledError] and otherwise leaves
    [monitor_loop] as it is, both handlers passed, with whatever the scan
    left in [running]; or [running] was cleared while the scan ran, and
    the loop test ends the loop.  After any other scan, one that raises
    an [Exception] included, the loop is sleeping or scanning and
    [running] is still set.  In particular the cycle of this model, whose
    only failure is that of a history write, never ends the loop. *)
Theorem loop_ends_only_on_request
    (scan : Observation → M (list DeviceChange)) (evs : list LoopEvent)
    (ph : Phase) (st : NetworkMonitor) :
  running st = true →
  in_loop ph →
  Forall (λ ev, ev ≠ StopCalled ∧ ev ≠ Cancelled) evs →
  ((in_loop (loop_run_of scan evs (ph, st)).1 ∧
    running (loop_run_of scan evs (ph, st)).2 = true) ∨
   ∃ obs st0,
     ScanCompletes obs ∈ evs ∧ running st0 = true ∧
     ((∃ e, (scan obs st0).1 = Raise e ∧ is_Exception e = false ∧
            loop_run_of scan evs (ph, st) =
              (match e with CancelledError => Left | _ => Failed e end,
               (scan obs st0).2)) ∨
      (running (scan obs st0).2 = false ∧
       (loop_run_of scan evs (ph, st)).1 = Left ∧
       running (loop_run_of scan evs (ph, st)).2 = false))) ∧
  (∀ env, in_loop (loop_run env evs (ph, st)).1 ∧
          running (loop_run env evs (ph, st)).2 = true).
Proof.
  intros Hr Hph Hevs.
  assert (∀ scan,
    (in_loop (loop_run_of scan evs (ph, st)).1 ∧
     running (loop_run_of scan evs (ph, st)).2 = true) ∨
    ∃ obs st0,
      ScanCompletes obs ∈ evs ∧ running st0 = true ∧
      ((∃ e, (scan obs st0).1 = Raise e ∧ is_Exception e = false ∧
             loop_run_of scan evs (ph, st) =
               (match e with CancelledError => Left | _ => Failed e end,
                (scan obs st0).2)) ∨
       (running (scan obs st0).2 = false ∧
        (loop_run_of scan evs (ph, st)).1 = Left ∧
        running (loop_run_of scan evs (ph, st)).2 = false))) as Hgen.
  { clear scan. intros scan. revert ph st Hr Hph.
    induction Hevs as [|ev evs [Hs Hc] Hevs IH]; intros ph st Hr Hph.
    { by left. }
    change (loop_run_of scan (ev :: evs) (ph, st))
      with (loop_run_of scan evs (loop_step_of scan ev (ph, st))).
    destruct (loop_step_of_cases scan ev ph st Hr Hph Hs Hc)
      as [[H1 H2]|(obs & -> & Hleft)].
    - destruct (loop_step_of scan ev (ph, st)) as [ph1 st1].
      destruct (IH ph1 st1 H2 H1) as [?|(obs & st0 & Hin & ?)]; [by left|].
      right. exists obs, st0. split; [by apply list_elem_of_further|done].
    - right. exists obs, st. split; [apply list_elem_of_here|].
      split; [done|].
      destruct Hleft as [(e & He & Hex & Hstep)|(Hrun & Hl & Hrl)].
      + left. exists e. split; [done|]. split; [done|].
        rewrite Hstep. apply loop_run_of_left; [|done].
        destruct e; eauto.
      + right. split; [done|].
        destruct (loop_step_of scan (ScanCompletes obs) (ph, st))
          as [ph1 st1]. cbn [fst snd] in Hl, Hrl. subst ph1.
        rewrite loop_run_of_left by eauto. done. }
  split; [apply Hgen|].
  intros env.
  destruct (Hgen (scan_network env)) as [?|(obs & st0 & _ & Hr0 & Hleft)];
    [done|].
  destruct Hleft as [(e & He & Hex & _)|(Hrun & _)].
  - apply scan_network_raises in He as ->. done.
  - rewrite scan_network_running in Hrun. congruence.
Qed.

Lemma loop_ends_only_on_request_witness :
  let env := {| clock := λ n, Z.of_nat n; history_fault := λ _, true |} in
  let dev := mkDevice "192.168.1.20" "aa:bb:cc:00:11:22" "" "" in
  let st := set_running true (NetworkMonitor_init empty_db 2 true) in
  let evs := [ScanCompletes (arp_only [dev]); Second; Second;
              ScanCompletes (arp_only [])] in
  let interrupted : Observation → M (list DeviceChange) :=
    scan_network_with [λ _, Some KeyboardInterrupt] env in
  (scan_network env (arp_only [dev]) st).1 = Raise SqliteError ∧
  (in_loop (loop_run env evs (Scanning, st)).1 ∧
   running (loop_run env evs (Scanning, st)).2 = true) ∧
  (loop_run_of interrupted evs (Scanning, st)).1 = Failed KeyboardInterrupt ∧
  running (loop_run_of interrupted evs (Scanning, st)).2 = true ∧
  ∃ obs st0 e,
    ScanCompletes obs ∈ evs ∧
    (interrupted obs st0).1 = Raise e ∧ is_Exception e = false.
Proof.
  intros env dev st evs interrupted. split; [reflexivity|].
  assert (Forall (λ ev, ev ≠ StopCalled ∧ ev ≠ Cancelled) evs) as Hevs
    by (repeat constructor; discriminate).
  destruct (loop_ends_only_on_request interrupted evs Scanning st
              eq_refl (or_introl eq_refl) Hevs) as [Hgen Hmodel].
  split; [apply Hmodel|].
  assert ((loop_run_of interrupted evs (Scanning, st)).1 =
          Failed KeyboardInterrupt) as Hph by reflexivity.
  split; [exact Hph|]. split; [reflexivity|].
  destruct Hgen
    as [[Hin _]|(obs & st0 & Hobs & _ & [(e & He & Hex & _)|(_ & Hl & _)])].
  - rewrite Hph in Hin. destruct Hin as [Hin|[r Hin]]; discriminate.
  - by exists obs, st0, e.
  - rewrite Hph in Hl. discriminate.
Defined.

(** ** A cycle whose first history write fails *)

Lemma wpx_bind_l {A B} (m : M A) (f : A → M B) Q st :
  wpx m Q st → wpx (m ≫= f) Q st.
Proof.
  intros (e & st' & Hm & HQ). exists e, st'. split; [|done].
  unfold mbind, M_bind. by rewrite Hm.
Qed.

Lemma wpx_bind_r {A B} (m : M A) (f : A → M B) Q st :
  wp m (λ a st', wpx (f a) Q st') st → wpx (m ≫= f) Q st.
Proof.
  intros (a & st' & Hm & e & st'' & Hf & HQ). exists e, st''.
  split; [|done]. unfold mbind, M_bind. by rewrite Hm.
Qed.

Lemma wpx_db_log_event env m ev ip_ det st :
  history_fault env (log_event_calls st) = true →
  wpx (db_log_event env m ev ip_ det)
      (λ e st', e = SqliteError ∧ db st' = db st ∧
                delivered st' = delivered st ∧
                _last_scan_devices st' = _last_scan_devices st ∧
                callbacks st' = callbacks st) st.
Proof.
  intros Hf. unfold wpx, db_log_event, log_event, now, gets, modify, raise,
    mbind, M_bind, mret, M_ret. cbn. rewrite Hf. cbn.
  eexists _, _. split; [reflexivity|]. cbn. by destruct (db st).
Qed.

(** The first sighting of a MAC without a record, when the history write
    that reports it fails: the device is stored and the subscribers are
    told before the write raises. *)
Lemma wpx_track_new env acc dev st :
  truthy (mac dev) = true →
  get_device (mac dev) (db st) = None →
  history_fault env (log_event_calls st) = true →
  wpx (track_device env acc dev)
      (λ e st', e = SqliteError ∧
         ∃ t c,
           db st' = (upsert_device t dev (db st)).2 ∧
           change_type c = new ∧ device c = dev ∧
           delivered st' = delivered st ++ one_delivery (callbacks st) c ∧
           _last_scan_devices st' = _last_scan_devices st ∧
           callbacks st' = callbacks st) st.
Proof.
  intros Ht Hnone Hf. destruct acc as [[changes cur] n].
  unfold track_device, track_device_of. rewrite Ht. cbn [negb].
  apply wpx_bind_r, wp_modify. set (st1 := set_current_devices _ st).
  apply wpx_bind_r. eapply wp_mono; [apply wp_db_get_device|].
  intros existing ? [-> ->].
  apply wpx_bind_r. eapply wp_mono; [apply wp_db_upsert_device_exact|].
  intros is_new st2 ([t Hup] & E2 & C2). apply wpx_bind_r, wp_gets.
  change (db st1) with (db st) in Hup.
  assert (is_new = true) as ->.
  { pose proof (upsert_device_is_new t dev (db st)) as H.
    rewrite <- Hup in H. by apply H. }
  destruct E2 as (Hh2 & Hs2 & Hd2 & Hc2 & Hl2 & _ & _ & _ & Hcb2).
  apply wpx_bind_r. unfold new_DeviceChange. apply wp_bind.
  eapply wp_mono; [apply wp_now_quiet|].
  intros t0 st3 ((Hdb3 & Hl3 & Hc3 & _ & _ & _ & Hcb3) & _ & Hd3).
  apply wp_ret. apply wpx_bind_r.
  eapply wp_mono; [apply wp_notify_exact|].
  intros ? st4 ((Hdb4 & Hl4 & Hc4 & _ & _ & _ & Hcb4) & _ & Hd4).
  apply wpx_bind_l.
  destruct (wpx_db_log_event env (lower (mac dev)) "new" (ip dev)
              ("New device: " +:+ str_or (hostname dev) "unknown") st4)
    as (e & st5 & Hrun & -> & Hdb5 & Hd5 & Hl5 & Hcb5).
  { rewrite Hc4, Hc3, Hc2. cbn. by rewrite Nat.add_0_r. }
  exists SqliteError, st5. split; [exact Hrun|]. split; [done|].
  exists t, {| change_type := new; device := dev; previous_state := None;
               timestamp := t0 |}.
  split; [by rewrite Hdb5, Hdb4, Hdb3, <- Hup|].
  split; [done|]. split; [done|]. split.
  { rewrite Hd5, Hd4, Hd3, Hd2, Hcb3, Hcb2. cbn. by rewrite app_nil_r. }
  split; [by rewrite Hl5, Hl4, Hl3, Hl2|].
  by rewrite Hcb5, Hcb4, Hcb3, Hcb2.
Qed.

(** *** Runs that meet the same history faults *)

Lemma fault_local_bind hf hf0 {A B} (m m0 : M A) (f f0 : A → M B) st :
  fault_local hf hf0 m m0 st →
  (∀ a st1, fault_local hf hf0 (f a) (f0 a) st1) →
  fault_local hf hf0 (m ≫= f) (m0 ≫= f0) st.
Proof.
  unfold fault_local, mbind, M_bind. intros [Hle Hm] Hf.
  destruct (m0 st) as [[a|e] st1] eqn:E0; cbn [fst snd] in *.
  - destruct (Hf a st1) as [Hle1 Hf1]. split; [lia|].
    intros Hag. rewrite Hm by (intros j Hj; apply Hag; lia).
    apply Hf1. intros j Hj. apply Hag. lia.
  - split; [done|]. intros Hag. by rewrite Hm.
Qed.

Lemma fault_local_quiet hf hf0 {A} (m : M A) st :
  wp m (λ _ st', log_event_calls st' = log_event_calls st) st →
  fault_local hf hf0 m m st.
Proof.
  intros (a & st' & Hm & Hc). unfold fault_local. rewrite Hm. cbn.
  split; [lia|done].
Qed.

Lemma fault_local_core hf hf0 {A} (m : M A) st :
  wp m (λ _ st', same_core st st') st → fault_local hf hf0 m m st.
Proof.
  intros H. apply fault_local_quiet. eapply wp_mono; [exact H|].
  by intros a st' (_ & _ & Hc & _).
Qed.

Lemma fault_local_ret hf hf0 {A} (a : A) st :
  fault_local hf hf0 (mret a) (mret a) st.
Proof. apply fault_local_quiet, wp_ret. done. Qed.

Lemma fault_local_db_upsert_device clk hf hf0 dev st :
  fault_local hf hf0
    (db_upsert_device {| clock := clk; history_fault := hf |} dev)
    (db_upsert_device {| clock := clk; history_fault := hf0 |} dev) st.
Proof.
  change (db_upsert_device {| clock := clk; history_fault := hf |} dev)
    with (db_upsert_device {| clock := clk; history_fault := hf0 |} dev).
  apply fault_local_quiet.
  unfold wp, db_upsert_device, now, gets, modify, mbind, M_bind, mret, M_ret.
  cbn. destruct (upsert_device _ dev (db st)) as [b d']. cbn.
  eexists _, _. split; [reflexivity|done].
Qed.

Lemma fault_local_new_DeviceChange clk hf hf0 ct dev prev st :
  fault_local hf hf0
    (new_DeviceChange {| clock := clk; history_fault := hf |} ct dev prev)
    (new_DeviceChange {| clock := clk; history_fault := hf0 |} ct dev prev) st.
Proof.
  change (new_DeviceChange {| clock := clk; history_fault := hf |} ct dev prev)
    with (new_DeviceChange {| clock := clk; history_fault := hf0 |} ct dev prev).
  apply fault_local_core. eapply wp_mono; [apply wp_new_DeviceChange|].
  by intros c st' (_ & _ & _ & H).
Qed.

Lemma fault_local_db_log_event clk hf hf0 m ev ip_ det st :
  fault_local hf hf0
    (db_log_event {| clock := clk; history_fault := hf |} m ev ip_ det)
    (db_log_event {| clock := clk; history_fault := hf0 |} m ev ip_ det) st.
Proof.
  unfold fault_local, db_log_event, log_event, now, gets, modify, raise,
    mbind, M_bind, mret, M_ret. cbn.
  assert (∀ b : bool, (log_event_calls st ≤
            log_event_calls
              (if b return outcome unit * NetworkMonitor
               then (Raise SqliteError,
                     set_db (db st)
                       (set_clock_reads (S (clock_reads st))
                          (set_log_event_calls (S (log_event_calls st)) st)))
               else (Ok tt,
                     set_db
                       {| devices := devices (db st);
                          device_history := device_history (db st) ++
                            [{| ev_mac := lower m; ev_ip := ip_;
                                ev_event_type := ev;
                                ev_timestamp := clk (clock_reads st);
                                ev_details := det |}];
                          scan_history := scan_history (db st) |}
                       (set_clock_reads (S (clock_reads st))
                          (set_log_event_calls (S (log_event_calls st)) st)))).2)%nat)
    as _ by (intros []; cbn; lia).
  destruct (hf0 (log_event_calls st)) eqn:E0; cbn.
  - split; [lia|]. intros Hag. rewrite (Hag (log_event_calls st)) by lia.
    by rewrite E0.
  - split; [lia|]. intros Hag. rewrite (Hag (log_event_calls st)) by lia.
    by rewrite E0.
Qed.

Lemma fault_local_emit clk hf hf0 {B} ct dev prev m ev ip_ det line
    (k : DeviceChange → M B) st :
  (∀ c st', fault_local hf hf0 (k c) (k c) st') →
  fault_local hf hf0
    (change ← new_DeviceChange {| clock := clk; history_fault := hf |}
                ct dev prev;
     _notify change;;
     db_log_event {| clock := clk; history_fault := hf |} m ev ip_ det;;
     log line;;
     k change)
    (change ← new_DeviceChange {| clock := clk; history_fault := hf0 |}
                ct dev prev;
     _notify change;;
     db_log_event {| clock := clk; history_fault := hf0 |} m ev ip_ det;;
     log line;;
     k change) st.
Proof.
  intros Hk. apply fault_local_bind; [apply fault_local_new_DeviceChange|].
  intros c st1. apply fault_local_bind.
  { apply fault_local_core, wp_notify. }
  intros ? st2. apply fault_local_bind; [apply fault_local_db_log_event|].
  intros ? st3. apply fault_local_bind; [apply fault_local_core, wp_log|].
  intros ? st4. apply Hk.
Qed.

Lemma fault_local_track_device clk hf hf0 acc dev st :
  fault_local hf hf0
    (track_device {| clock := clk; history_fault := hf |} acc dev)
    (track_device {| clock := clk; history_fault := hf0 |} acc dev) st.
Proof.
  unfold track_device, track_device_of. destruct acc as [[changes cur] n].
  destruct (negb (truthy (mac dev))); [apply fault_local_ret|].
  apply fault_local_bind.
  { apply fault_local_quiet, wp_modify. done. }
  intros ? st1. apply fault_local_bind.
  { apply fault_local_quiet. eapply wp_mono; [apply wp_db_get_device|].
    by intros r st' [_ ->]. }
  intros existing st2. apply fault_local_bind;
    [apply fault_local_db_upsert_device|].
  intros is_new st3. apply fault_local_bind.
  { apply fault_local_quiet, wp_gets. done. }
  intros last st4. destruct is_new.
  { apply fault_local_emit. intros. apply fault_local_ret. }
  destruct existing as [row|]; [|apply fault_local_ret].
  destruct (bool_decide _).
  { apply fault_local_emit. intros. apply fault_local_ret. }
  destruct (bool_decide _); [|apply fault_local_ret].
  apply fault_local_emit. intros. apply fault_local_ret.
Qed.

Lemma fault_local_foldM hf hf0 {A B} (f f0 : A → B → M A) (l : list B) a st :
  (∀ a x st, fault_local hf hf0 (f a x) (f0 a x) st) →
  fault_local hf hf0 (foldM f a l) (foldM f0 a l) st.
Proof.
  intros Hf. revert a st. induction l as [|x l IH]; intros a st; cbn [foldM].
  - apply fault_local_ret.
  - apply fault_local_bind; [apply Hf|]. intros. apply IH.
Qed.

Lemma events_not_about m (evs : list HistoryEvent) (cs : list DeviceChange) :
  ev_summary <$> evs = event_of <$> cs →
  Forall (λ c, change_mac c ≠ m) cs →
  Forall (λ e, ev_mac e ≠ m) evs.
Proof.
  revert cs. induction evs as [|e evs IH]; intros [|c cs] Hs Hk; try done.
  rewrite !fmap_cons in Hs. injection Hs as He _ _ _ Hs.
  apply Forall_cons in Hk as [Hc Hk]. constructor; [|by eapply IH].
  by rewrite He.
Qed.

(** X25.  When the history write for a new device fails, wherever the
    device stands in the device list, the cycle raises although the
    device has been stored and the subscribers have been told, and
    nothing is retried.  The changes of the devices before it have been
    delivered and logged; the history has no event for the device itself,
    no scan summary is written and the live set is not replaced; and the
    next cycle that sights the device finds its record, so it reports it
    [returned] and never [new]. *)
Theorem failed_new_comes_back_as_returned (env env' : Env)
    (obs obs' : Observation) (st : NetworkMonitor) (dev dev' : Device)
    (pre rest : list Device) :
  discover obs = pre ++ dev :: rest →
  mac dev ≠ "" →
  seen (lower (mac dev)) pre = [] →
  get_device (mac dev) (db st) = None →
  (∀ j, (log_event_calls st ≤ j <
         log_event_calls st +
         length (track_kinds (_last_scan_devices st) (ips_of (db st)) pre))%nat →
        history_fault env j = false) →
  history_fault env
    (log_event_calls st +
     length (track_kinds (_last_scan_devices st) (ips_of (db st)) pre)) = true →
  no_faults env' →
  live_set_normalized st →
  lower (mac dev) ∉ _last_scan_devices st →
  seen (lower (mac dev)) (discover obs') = [dev'] →
  ∃ st1 cs0 c evs cs st2,
    scan_network env obs st = (Raise SqliteError, st1) ∧
    kind <$> cs0 =
      track_kinds (_last_scan_devices st) (ips_of (db st)) pre ∧
    change_type c = new ∧ device c = dev ∧
    delivered st1 = delivered st ++ deliveries (callbacks st) (cs0 ++ [c]) ∧
    device_history (db st1) = device_history (db st) ++ evs ∧
    ev_summary <$> evs = event_of <$> cs0 ∧
    Forall (λ e, ev_mac e ≠ lower (mac dev)) evs ∧
    scan_history (db st1) = scan_history (db st) ∧
    _last_scan_devices st1 = _last_scan_devices st ∧
    is_Some (get_device (mac dev) (db st1)) ∧
    scan_network env' obs' st1 = (Ok cs, st2) ∧
    length (changes_of new (lower (mac dev)) cs) = 0%nat ∧
    length (changes_of returned (lower (mac dev)) cs) = 1%nat.
Proof.
  intros Hobs Hmac Hpre Hnone Hok Hfail NF Hn Hlast Hseen.
  destruct env as [clk hf]. cbn [history_fault] in Hok, Hfail.
  set (env0 := {| clock := clk; history_fault := λ _, false |}).
  assert (no_faults env0) as NF0 by done.
  (* the devices before [dev], as if no write could fail *)
  destruct (wp_and _ _ _ _ (wp_track_devices env0 pre [] ∅ 0%nat st NF0)
              (wp_track_devices_exact env0 pre [] ∅ 0%nat st NF0))
    as ([[chs cur] n] & sta & Hrun0 & (_ & _ & _ & em & Hem & Hkinds)
        & (em' & Hem' & _ & _ & Heff)).
  cbn [fst snd] in Hem, Hem'. rewrite app_nil_l in Hem, Hem'.
  subst chs. subst em'.
  destruct Heff as (evs & us & (Hh & Hs & Hd & Hc & Hf) & Hsum & Hus & Hdev & _).
  assert (length em =
          length (track_kinds (_last_scan_devices st) (ips_of (db st)) pre))
    as Hlen by (by rewrite <- Hkinds, length_fmap).
  (* the same run, with the faults of [env] *)
  assert (foldM (track_device {| clock := clk; history_fault := hf |})
            ([], ∅, 0%nat) pre st = (Ok (em, cur, n), sta)) as Hrun.
  { rewrite <- Hrun0.
    apply (fault_local_foldM hf (λ _, false)
             (track_device {| clock := clk; history_fault := hf |})
             (track_device env0)).
    - intros. apply fault_local_track_device.
    - fold env0. rewrite Hrun0. cbn [snd]. rewrite Hc, Hlen.
      intros j Hj. by apply Hok. }
  (* the sighting of [dev] *)
  assert (get_device (mac dev) (db sta) = None) as Hnone_a.
  { unfold get_device in *. rewrite Hdev.
    change (devices (upsert_all us (db st)) !! lower (mac dev))
      with (get_device (mac dev) (upsert_all us (db st))).
    rewrite upsert_all_lookup.
    pose proof (upserts_for_seen (lower (mac dev)) us pre Hus) as Hu.
    rewrite Hpre in Hu. apply fmap_nil_inv in Hu. by rewrite Hu. }
  destruct (wpx_track_new {| clock := clk; history_fault := hf |}
              (em, cur, n) dev sta)
    as (e & st1 & Hrun1 & -> & t & c & Hdb & Hct & Hdv & Hdl & Hl1 & Hcb1).
  { by apply truthy_true. }
  { done. }
  { cbn [history_fault]. by rewrite Hc, Hlen. }
  assert (scan_network {| clock := clk; history_fault := hf |} obs st =
          (Raise SqliteError, st1)) as Hscan.
  { assert (wpx (scan_network {| clock := clk; history_fault := hf |} obs)
              (λ e st', e = SqliteError ∧ st' = st1) st)
      as (? & ? & -> & -> & ->); [|done].
    unfold scan_network, scan_network_of.
    fold (track_device {| clock := clk; history_fault := hf |}).
    rewrite Hobs. apply wpx_bind_l.
    unfold wpx. rewrite foldM_app.
    change (wpx (a' ← foldM (track_device {| clock := clk; history_fault := hf |})
                        ([], ∅, 0%nat) pre;
                 foldM (track_device {| clock := clk; history_fault := hf |})
                       a' (dev :: rest))
              (λ e st', e = SqliteError ∧ st' = st1) st).
    apply wpx_bind_r. exists (em, cur, n), sta. split; [exact Hrun|].
    cbn [foldM]. apply wpx_bind_l. by exists SqliteError, st1. }
  destruct Hf as (Hla & _ & _ & _ & Hcba).
  assert (∃ row, get_device (mac dev) (db st1) = Some row) as [row Hrow].
  { rewrite Hdb, upsert_device_lookup, decide_True by done.
    rewrite Hnone_a. by eexists. }
  assert (live_set_normalized st1) as Hn1.
  { intros m Hm. apply Hn. by rewrite <- Hla, <- Hl1. }
  assert (lower (mac dev') = lower (mac dev)) as Hm'.
  { assert (dev' ∈ seen (lower (mac dev)) (discover obs')) as Hin
      by (rewrite Hseen; apply list_elem_of_here).
    by apply seen_elem in Hin as (_ & _ & ?). }
  destruct (scan_network_count env' obs' st1 NF Hn1)
    as (cs & st2 & Hrun2 & _ & _ & Hcnt).
  exists st1, em, c, evs, cs, st2.
  split; [done|]. split; [done|]. split; [done|]. split; [done|]. split.
  { rewrite Hdl, Hd, Hcba, deliveries_app, deliveries_one.
    by rewrite (assoc_L (++)). }
  destruct (upsert_device_tables t dev (db sta)) as [Hut Hus'].
  split; [by rewrite Hdb, Hut, Hh|]. split; [done|]. split.
  { apply (events_not_about _ _ em Hsum).
    pose proof (proj1 (track_unseen (_last_scan_devices st) (ips_of (db st))
                         pre (lower (mac dev)) Hpre)) as Hk.
    rewrite <- Hkinds, Forall_forall in Hk. apply Forall_forall.
    intros x Hx. apply (Hk (kind x)). apply list_elem_of_fmap. eauto. }
  split; [by rewrite Hdb, Hus', Hs|]. split; [by rewrite Hl1, Hla|].
  split; [by rewrite Hrow|]. split; [done|].
  assert (Hcount : ∀ ct,
    length (changes_of ct (lower (mac dev)) cs) =
    count_kind (ct, lower (mac dev)) [(returned, lower (mac dev))]).
  { intros ct. rewrite Hcnt, (track_seen_once _ _ _ _ dev') by done.
    rewrite ips_of_lookup, Hrow. unfold classify.
    cbn [fmap option_fmap option_map].
    rewrite Hl1, Hla, bool_decide_eq_true_2 by done.
    rewrite decide_False; [lia|]. intros (_ & ? & _). done. }
  rewrite !Hcount, !count_kind_singleton.
  split; [by rewrite decide_False|by rewrite decide_True].
Qed.

Lemma failed_new_comes_back_as_returned_witness :
  let env := {| clock := λ n, Z.of_nat n;
                history_fault := λ k, bool_decide (k = 1%nat) |} in
  let nas := mkDevice "192.168.1.10" "aa:bb:cc:00:11:11" "nas" "" in
  let dev := mkDevice "192.168.1.20" "AA:BB:CC:00:11:22" "" "" in
  let obs := arp_only [nas; dev; nas] in
  let st := add_callback (λ _, true) (NetworkMonitor_init empty_db 60 false) in
  ∃ st1 cs0 c evs cs st2,
    scan_network env obs st = (Raise SqliteError, st1) ∧
    kind <$> cs0 = [(new, "aa:bb:cc:00:11:11")] ∧
    change_type c = new ∧ device c = dev ∧
    delivered st1 = delivered st ++ deliveries (callbacks st) (cs0 ++ [c]) ∧
    device_history (db st1) = device_history (db st) ++ evs ∧
    ev_summary <$> evs = event_of <$> cs0 ∧
    Forall (λ e, ev_mac e ≠ "aa:bb:cc:00:11:22") evs ∧
    scan_history (db st1) = scan_history (db st) ∧
    _last_scan_devices st1 = _last_scan_devices st ∧
    is_Some (get_device (mac dev) (db st1)) ∧
    scan_network steady_env obs st1 = (Ok cs, st2) ∧
    length (changes_of new "aa:bb:cc:00:11:22" cs) = 0%nat ∧
    length (changes_of returned "aa:bb:cc:00:11:22" cs) = 1%nat.
Proof.
  intros env nas dev obs st.
  apply (failed_new_comes_back_as_returned env steady_env obs obs st dev dev
           [nas] [nas] eq_refl).
  - done.
  - reflexivity.
  - reflexivity.
  - intros j Hj. vm_compute in Hj. apply bool_decide_eq_false_2. lia.
  - reflexivity.
  - apply steady_env_no_faults.
  - intros m Hm. cbn in Hm. by apply not_elem_of_empty in Hm.
  - cbn. apply not_elem_of_empty.
  - reflexivity.
Defined.

(** ** Marks and the statistics *)

Lemma rows_alter (f : DeviceRow → DeviceRow) k d r :
  devices d !! k = Some r →
  ∃ rest, rows d ≡ₚ r :: rest ∧
          rows (with_devices (alter f k) d) ≡ₚ f r :: rest.
Proof.
  intros Hk. exists (map_to_list (delete k (devices d))).*2.
  unfold rows. cbn. split.
  - rewrite <- (insert_delete_id (devices d) k r Hk) at 1.
    rewrite map_to_list_insert by apply lookup_delete_eq. done.
  - assert (alter f k (devices d) = <[k := f r]> (delete k (devices d))) as ->.
    { rewrite <- (insert_delete_id (devices d) k r Hk) at 1.
      by rewrite alter_insert_eq, insert_delete_eq. }
    rewrite map_to_list_insert by apply lookup_delete_eq. done.
Qed.

Lemma count_rows_alter (P : DeviceRow → Prop) `{∀ x, Decision (P x)}
    (f : DeviceRow → DeviceRow) k d r :
  devices d !! k = Some r →
  (length (filter P (rows (with_devices (alter f k) d))) +
   (if decide (P r) then 1 else 0) =
   length (filter P (rows d)) + (if decide (P (f r)) then 1 else 0))%nat.
Proof.
  intros Hk. destruct (rows_alter f k d r Hk) as (rest & H1 & H2).
  rewrite H1, H2, !filter_cons.
  destruct (decide (P r)), (decide (P (f r))); cbn [length]; lia.
Qed.

(** X26.  Marking a recorded device known or unknown moves exactly that
    record between the known and the unknown count: the total, the
    trusted and the active counts and the history are left as they were,
    the number of rows [get_unknown_devices] lists changes accordingly,
    and marking the device back restores the database exactly. *)
Theorem mark_known_moves_one_row (now : Z) (m : string) (b : bool)
    (d : DeviceDatabase) (r : DeviceRow) :
  get_device m d = Some r →
  let d' := mark_known m b d in
  get_device m d' = Some (set_is_known b r) ∧
  total_devices (get_stats now d') = total_devices (get_stats now d) ∧
  (known_devices (get_stats now d') + (if row_is_known r then 1 else 0) =
   known_devices (get_stats now d) + (if b then 1 else 0))%nat ∧
  (length (get_unknown_devices d') + (if row_is_known r then 0 else 1) =
   length (get_unknown_devices d) + (if b then 0 else 1))%nat ∧
  trusted_devices (get_stats now d') = trusted_devices (get_stats now d) ∧
  active_24h (get_stats now d') = active_24h (get_stats now d) ∧
  events_24h (get_stats now d') = events_24h (get_stats now d) ∧
  mark_known m (row_is_known r) d' = d.
Proof.
  intros Hr d'. unfold get_device in Hr. subst d'. unfold mark_known.
  pose proof (count_rows_alter (λ x, row_is_known x = true)
                (set_is_known b) _ d r Hr) as Hk.
  pose proof (count_rows_alter (λ x, row_is_known x = false)
                (set_is_known b) _ d r Hr) as Hu.
  pose proof (count_rows_alter (λ x, row_is_trusted x = true)
                (set_is_known b) _ d r Hr) as Ht.
  pose proof (count_rows_alter (λ x, now - hours 24 < row_last_seen x)
                (set_is_known b) _ d r Hr) as Ha.
  destruct (rows_alter (set_is_known b) _ d r Hr) as (rest & H1 & H2).
  cbn [set_is_known row_is_known row_is_trusted row_last_seen] in Hk, Hu, Ht, Ha.
  split; [|split; [|split; [|split; [|split; [|split; [|split]]]]]].
  - unfold get_device. cbn. by rewrite lookup_alter_eq, Hr.
  - cbn. by rewrite H1, H2.
  - cbn. destruct (row_is_known r), b;
      repeat (match type of Hk with
              | context [decide ?P] => destruct (decide P); try done
              end); lia.
  - unfold get_unknown_devices. rewrite !ORDER_BY_DESC_perm.
    destruct (row_is_known r), b;
      repeat (match type of Hu with
              | context [decide ?P] => destruct (decide P); try done
              end); lia.
  - cbn. destruct (decide (row_is_trusted r = true)); lia.
  - cbn. destruct (decide (now - hours 24 < row_last_seen r)); lia.
  - done.
  - clear Hk Hu Ht Ha H1 H2. unfold with_devices. cbn.
    destruct d as [devs hist scans]. cbn in *.
    f_equal. apply map_eq. intros j. rewrite !lookup_alter.
    destruct (decide (lower m = j)) as [<-|]; [|done].
    rewrite Hr. cbn. rewrite decide_True by done. cbn. f_equal.
    by destruct r.
Qed.

Lemma mark_known_moves_one_row_witness :
  let m := "aa:bb:cc:00:11:22" in
  let r := mkRow m "10.0.0.5" "nas" "" 1 1 false true None None in
  let r2 := mkRow "aa:bb:cc:00:11:33" "10.0.0.6" "" "" 2 2 false false None None in
  let d := mkDb {[m := r; "aa:bb:cc:00:11:33" := r2]} [] [] in
  let d' := mark_known "AA:BB:CC:00:11:22" true d in
  get_device m d' = Some (set_is_known true r) ∧
  known_devices (get_stats 10 d') = 1%nat ∧
  unknown_devices (get_stats 10 d') = 1%nat ∧
  get_unknown_devices d' = [r2] ∧
  mark_known m false d' = d.
Proof.
  intros m r r2 d d'.
  destruct (mark_known_moves_one_row 10 "AA:BB:CC:00:11:22" true d r eq_refl)
    as (H1 & _ & _ & _ & _ & _ & _ & H8).
  split; [exact H1|]. split; [reflexivity|]. split; [reflexivity|].
  split; [reflexivity|]. exact H8.
Defined.
